(** * Pool-Line-Detector: the detection pipeline of [line_finder.py] and [main.py]

    A shallow embedding of the white-line detector: mask construction, the
    shape filter, farthest-pair endpoint extraction, the black-termination
    check and the selection of the longest line; and of the overlay that
    draws the detected line, extended at both ends.

    Conventions of the embedding
    - Python [float] and [np.float64] values are IEEE-754 binary64 numbers,
      modelled by [spec_float] with the operations of [SpecFloat]
      (round to nearest, ties to even).
    - [np.int32] scalars (contour coordinates) are integers of [Z] whose
      arithmetic wraps around at 32 bits.
    - Python [int] values are integers of [Z].
    - A Python exception is the [Raises] outcome of the [outcome] monad;
      a function that raises for some input has its result in [outcome].
    - The functions of OpenCV ([cv2.findContours], [cv2.contourArea], ...)
      are not code of the repository: they are the fields of the class
      [OpenCV], and the pipeline is parameterised by an instance of it. *)

From Stdlib Require Import ZArith List Lia Bool.
From Stdlib Require Import Floats.SpecFloat.
Import ListNotations.
Local Open Scope Z_scope.

(* ================================================================== *)
(** * Part I: definitions *)
(* ================================================================== *)

(** ** Exceptions *)

Inductive pyexn : Type :=
| ValueError      (* int(nan); an unpacking of too few values *)
| OverflowError   (* int(inf) *)
| TypeError       (* np.sqrt of an integer beyond 64 bits *)
| AttributeError. (* ctypes.windll, off Windows *)

Inductive outcome (A : Type) : Type :=
| Returns (a : A)
| Raises (e : pyexn).
Arguments Returns {A} a.
Arguments Raises {A} e.

Definition bind {A B : Type} (m : outcome A) (k : A -> outcome B) : outcome B :=
  match m with
  | Returns a => k a
  | Raises e => Raises e
  end.

Notation "x <- m ;; k" := (bind m (fun x => k))
  (at level 61, m at next level, right associativity).

(** ** Binary64 floating point ([float], [np.float64]) *)

Module Float64.

Definition prec : Z := 53.
Definition emax : Z := 1024.

Definition float : Type := spec_float.

(** Conversion of a Python [int] (or of an [np.int32]) to binary64. *)
Definition of_int (n : Z) : float := binary_normalize prec emax n 0 false.

Definition add : float -> float -> float := SFadd prec emax.
Definition mul : float -> float -> float := SFmul prec emax.
Definition div : float -> float -> float := SFdiv prec emax.
Definition sqrt : float -> float := SFsqrt prec emax.
Definition sub : float -> float -> float := SFsub prec emax.
Definition neg : float -> float := SFopp.

Definition ltb : float -> float -> bool := SFltb.
Definition leb : float -> float -> bool := SFleb.
Definition eqb : float -> float -> bool := SFeqb.

Definition is_nan (x : float) : bool :=
  match x with S754_nan => true | _ => false end.

(** Python's [int(x)]: truncation toward zero; [nan] and the infinities
    raise. *)
Definition to_int (x : float) : outcome Z :=
  match x with
  | S754_zero _ => Returns 0
  | S754_finite s m e =>
      let a := Z.shiftl (Zpos m) e in
      Returns (if s then - a else a)
  | S754_infinity _ => Raises OverflowError
  | S754_nan => Raises ValueError
  end.

(** A non-zero float of sign [s]: a finite number whose exponent is not
    below that of the subnormals, or an infinity. *)
Definition signed_nonzero (s : bool) (x : float) : Prop :=
  match x with
  | S754_finite s' _ e => s' = s /\ -1074 <= e
  | S754_infinity s' => s' = s
  | _ => False
  end.

(** The binary order of magnitude of [m * 2^e]: the value lies in
    [[2^(magnitude - 1), 2^magnitude)]. *)
Definition magnitude (m : positive) (e : Z) : Z :=
  Zpos (digits2_pos m) + e.

(** A zero, or a finite number below [2^B] in absolute value. *)
Definition bounded (B : Z) (x : float) : Prop :=
  match x with
  | S754_zero _ => True
  | S754_finite _ m e => magnitude m e <= B
  | _ => False
  end.

(** A finite number of magnitude between [L] and [B]. *)
Definition finite_between (L B : Z) (x : float) : Prop :=
  match x with
  | S754_finite _ m e => L <= magnitude m e <= B /\ -1074 <= e
  | _ => False
  end.

(** Python's two-argument [min] and [max]: the first argument is kept
    unless the second is strictly smaller (larger). *)
Definition py_min (a b : float) : float := if ltb b a then b else a.
Definition py_max (a b : float) : float := if ltb a b then b else a.

End Float64.

(** ** 32-bit integers ([np.int32]) *)

(** The points [cv2.findContours] reports are [np.int32]. A difference of
    two of them is an [np.int32]; so is its square [** 2] and the sum of
    two squares, under the promotion rules of NumPy 2 on every platform
    and of NumPy 1 where the default integer has 32 bits, as on Windows,
    the platform [main.py] is written for ([ctypes.windll]). An overflow
    wraps around (NumPy warns and goes on). *)

Module Int32.

Definition wrap (z : Z) : Z := (z + 2 ^ 31) mod 2 ^ 32 - 2 ^ 31.

Definition sub (a b : Z) : Z := wrap (a - b).
Definition add (a b : Z) : Z := wrap (a + b).
(** [a ** 2] *)
Definition sq (a : Z) : Z := wrap (a * a).

End Int32.

(** ** [np.sqrt] of a Python integer *)

(** NumPy takes a Python [int] to an array scalar first: an [int64] when it
    fits, a [uint64] up to [2^64 - 1], and an object beyond, for which
    [np.sqrt] has no loop and raises [TypeError]. The 64-bit integer is
    converted to binary64 (rounding to nearest) and the square root taken
    there. *)
Definition np_sqrt (n : Z) : outcome Float64.float :=
  if (- 2 ^ 63 <=? n) && (n <? 2 ^ 64)
  then Returns (Float64.sqrt (Float64.of_int n))
  else Raises TypeError.

(** ** Images and masks *)

(** A pixel holds its blue, green and red intensities, in the channel
    order of OpenCV. *)
Definition pixel : Type := (Z * Z * Z)%type.

(** An image is the list of its rows; the rows of an array have one
    length. *)
Definition image : Type := list (list pixel).

(** One channel of an image, or a mask: 0 or 255 per pixel. *)
Definition plane : Type := list (list Z).
Definition mask : Type := plane.

Definition point : Type := (Z * Z)%type.
Definition contour : Type := list point.

Definition WHITE_MIN : Z := 240.
Definition BLACK_MAX : Z := 40.
Definition MIN_LINE_LENGTH : Z := 30.
Definition MIN_LINE_THICKNESS : Z := 2.
Definition MAX_LINE_THICKNESS : Z := 15.

(** [len(a)] *)
Definition len {A : Type} (l : list A) : Z := Z.of_nat (length l).

(** The number of pixels of an image; an image of no rows, or of rows
    without columns, has none. *)
Definition pixel_count (img : image) : Z := len (concat img).

(** [cv2.split]: the blue, green and red planes, in a tuple; the empty
    tuple for an image without pixels. *)
Definition split (img : image) : list plane :=
  if pixel_count img =? 0 then []
  else [ map (map (fun p : pixel => fst (fst p))) img;
         map (map (fun p : pixel => snd (fst p))) img;
         map (map (fun p : pixel => snd p)) img ].

(** [b, g, r = t]: the unpacking of a tuple into three names raises
    [ValueError] unless the tuple holds three values. *)
Definition unpack3 {A : Type} (t : list A) : outcome (A * A * A) :=
  match t with
  | [b; g; r] => Returns (b, g, r)
  | _ => Raises ValueError
  end.

(** Element-wise operations of NumPy on two-dimensional arrays. *)
Definition plane_ge (a : plane) (k : Z) : list (list bool) :=
  map (map (fun v => k <=? v)) a.
Definition plane_le (a : plane) (k : Z) : list (list bool) :=
  map (map (fun v => v <=? k)) a.

Fixpoint zip_with {A B C : Type} (f : A -> B -> C) (l : list A) (r : list B)
  : list C :=
  match l, r with
  | a :: l', b :: r' => f a b :: zip_with f l' r'
  | _, _ => []
  end.

Definition plane_and (a b : list (list bool)) : list (list bool) :=
  zip_with (zip_with andb) a b.

(** [(m * 255).astype(np.uint8)] *)
Definition to_uint8_mask (m : list (list bool)) : mask :=
  map (map (fun b : bool => (if b then 255 else 0) mod 256)) m.

(** [m.shape] of a two-dimensional array: (rows, columns). *)
Definition shape (m : mask) : Z * Z :=
  (Z.of_nat (length m), Z.of_nat (length (hd [] m))).

(** [m[y, x]], for indices inside the array. *)
Definition mask_at (m : mask) (y x : Z) : Z :=
  nth (Z.to_nat x) (nth (Z.to_nat y) m []) 0.

(** [img[y, x]] *)
Definition pixel_at (img : image) (y x : Z) : option pixel :=
  match nth_error img (Z.to_nat y) with
  | Some row => nth_error row (Z.to_nat x)
  | None => None
  end.

(** [range(a, b)] *)
Definition py_range (a b : Z) : list Z :=
  map (fun i => a + Z.of_nat i) (seq 0 (Z.to_nat (b - a))).

(** ** The OpenCV functions the pipeline calls *)

Class OpenCV : Type := {
  (** [cv2.findContours(mask, cv2.RETR_EXTERNAL, cv2.CHAIN_APPROX_SIMPLE)[0]]:
      the outer boundaries of the connected regions of set pixels. *)
  findContours : mask -> list contour;
  (** [cv2.contourArea] *)
  contourArea : contour -> Float64.float;
  (** [cv2.boundingRect]: (x, y, w, h) *)
  boundingRect : contour -> Z * Z * Z * Z;
  (** [cv2.minAreaRect]: (centre, (width, height), angle) *)
  minAreaRect :
    contour ->
    (Float64.float * Float64.float) * (Float64.float * Float64.float)
    * Float64.float;
  (** [cv2.convexHull] *)
  convexHull : contour -> contour
}.

(** Python's [max(items, key=key)] on a non-empty sequence: the running
    maximum is replaced only by an item whose key is strictly greater. *)
Definition max_by_key {A : Type} (key : A -> Float64.float)
  (first : A) (rest : list A) : A :=
  fold_left
    (fun best item => if Float64.ltb (key best) (key item) then item else best)
    rest first.

(** [best] is the first element of greatest key of
    [before ++ best :: after]. *)
Definition first_maximum {A : Type} (key : A -> Float64.float)
  (before : list A) (best : A) (after : list A) : Prop :=
  (forall y, In y before -> Float64.ltb (key y) (key best) = true)
  /\ (forall y, In y after -> Float64.leb (key y) (key best) = true).

(** [points[-1]] *)
Definition last_point (points : list point) : point := last points (0, 0).

(* ------------------------------------------------------------------ *)
(** ** [line_finder.py] *)
(* ------------------------------------------------------------------ *)

Module LineFinder.
Import Float64.

Record DetectedLine : Type := mkDetectedLine {
  x1 : Z;
  y1 : Z;
  x2 : Z;
  y2 : Z;
  length : float;
  thickness : float
}.

Definition get_white_mask (img : image) : outcome mask :=
  bgr <- unpack3 (split img) ;;
  let '(b, g, r) := bgr in
  let white_mask :=
    plane_and (plane_and (plane_ge r WHITE_MIN) (plane_ge g WHITE_MIN))
              (plane_ge b WHITE_MIN) in
  Returns (to_uint8_mask white_mask).

Definition get_black_mask (img : image) : outcome mask :=
  bgr <- unpack3 (split img) ;;
  let '(b, g, r) := bgr in
  let black_mask :=
    plane_and (plane_and (plane_le r BLACK_MAX) (plane_le g BLACK_MAX))
              (plane_le b BLACK_MAX) in
  Returns (to_uint8_mask black_mask).

(** [np.sqrt((pt1[0] - pt2[0])**2 + (pt1[1] - pt2[1])**2)] on [np.int32]
    coordinates: the subtraction, the squares and their sum wrap around at
    32 bits before the square root is taken in binary64. *)
Definition point_dist (pt1 pt2 : point) : float :=
  sqrt (of_int (Int32.add (Int32.sq (Int32.sub (fst pt1) (fst pt2)))
                          (Int32.sq (Int32.sub (snd pt1) (snd pt2))))).

(** The state of the pairwise search: [(max_dist, p1, p2)]. *)
Definition search_state : Type := (float * point * point)%type.

(** [for pt2 in hull_points[i+1:]: ...] *)
Definition inner_loop (pt1 : point) (tail : list point) (st : search_state)
  : search_state :=
  fold_left
    (fun (st : search_state) (pt2 : point) =>
       let '(max_dist, p1, p2) := st in
       let dist := point_dist pt1 pt2 in
       if ltb max_dist dist then (dist, pt1, pt2) else (max_dist, p1, p2))
    tail st.

(** [for i, pt1 in enumerate(hull_points): ...] *)
Fixpoint outer_loop (hull_points : list point) (st : search_state)
  : search_state :=
  match hull_points with
  | [] => st
  | pt1 :: tail => outer_loop tail (inner_loop pt1 tail st)
  end.

Section WithOpenCV.
Context {cv : OpenCV}.

Definition find_line_endpoints (contour : contour) : point * point :=
  let points := contour in
  if len points <? 2 then ((0, 0), (0, 0)) else
  let max_dist := of_int 0 in
  let p1 := nth 0 points (0, 0) in
  let p2 := last_point points in
  let hull_points :=
    if 4 <? len points then convexHull contour else points in
  let '(_, p1, p2) := outer_loop hull_points (max_dist, p1, p2) in
  (p1, p2).

(** [has_black_ahead], with the loop over [range(3, check_radius)]
    unrolled over the list of its distances. *)
Fixpoint has_black_ahead (black_mask : mask) (h w : Z)
  (px py : Z) (dir_x dir_y : float) (dists : list Z) : outcome bool :=
  match dists with
  | [] => Returns false
  | dist :: rest =>
      check_x <- to_int (add (of_int px) (mul dir_x (of_int dist))) ;;
      check_y <- to_int (add (of_int py) (mul dir_y (of_int dist))) ;;
      if (0 <=? check_x) && (check_x <? w)
         && (0 <=? check_y) && (check_y <? h)
         && (0 <? mask_at black_mask check_y check_x)
      then Returns true
      else has_black_ahead black_mask h w px py dir_x dir_y rest
  end.

Definition check_black_at_ends (img : image) (p1 p2 : point)
  (direction : Z * Z) (check_radius : Z) : outcome bool :=
  black_mask <- get_black_mask img ;;
  let '(h, w) := shape black_mask in
  let '(dx, dy) := direction in
  length <- np_sqrt (dx * dx + dy * dy) ;;
  if eqb length (of_int 0) then Returns true else
  let dx := div (of_int dx) length in
  let dy := div (of_int dy) length in
  end1_ok <- has_black_ahead black_mask h w (fst p1) (snd p1)
               (neg dx) (neg dy) (py_range 3 check_radius) ;;
  end2_ok <- has_black_ahead black_mask h w (fst p2) (snd p2)
               dx dy (py_range 3 check_radius) ;;
  Returns (end1_ok || end2_ok).

(** The loop of [find_lines] over the contours; [continue] moves on to
    the next contour with the list of lines unchanged. The sizes of
    [cv2.boundingRect] are integers below [2^31], which binary64
    represents exactly. *)
Fixpoint find_lines_loop (img : image) (contours : list contour)
  (valid_lines : list DetectedLine) : outcome (list DetectedLine) :=
  match contours with
  | [] => Returns valid_lines
  | contour :: rest =>
      let area := contourArea contour in
      if ltb area (of_int 50) then find_lines_loop img rest valid_lines else
      let '(x, y, w, h) := boundingRect contour in
      let '(thickness, length) :=
        if 5 <=? len contour then
          let rect := minAreaRect contour in
          let '(rect_w, rect_h) := snd (fst rect) in
          (py_min rect_w rect_h, py_max rect_w rect_h)
        else
          (of_int (Z.min w h), of_int (Z.max w h)) in
      if ltb thickness (of_int MIN_LINE_THICKNESS)
         || ltb (of_int MAX_LINE_THICKNESS) thickness
      then find_lines_loop img rest valid_lines else
      if ltb length (of_int MIN_LINE_LENGTH)
      then find_lines_loop img rest valid_lines else
      let aspect_ratio := div length (py_max thickness (of_int 1)) in
      if ltb aspect_ratio (of_int 3)
      then find_lines_loop img rest valid_lines else
      let '(p1, p2) := find_line_endpoints contour in
      let direction := (fst p2 - fst p1, snd p2 - snd p1) in
      ok <- check_black_at_ends img p1 p2 direction 20 ;;
      if negb ok then find_lines_loop img rest valid_lines else
      find_lines_loop img rest
        (valid_lines ++
         [ {| x1 := fst p1; y1 := snd p1; x2 := fst p2; y2 := snd p2;
              length := length; thickness := thickness |} ])
  end.

Definition find_lines (img : image) : outcome (list DetectedLine) :=
  white_mask <- get_white_mask img ;;
  let contours := findContours white_mask in
  find_lines_loop img contours [].

(** [max(lines, key=lambda l: l.length)] of [main()], taken when
    [lines] is not empty. *)
Definition longest_line (lines : list DetectedLine) : option DetectedLine :=
  match lines with
  | [] => None
  | l :: ls => Some (max_by_key length l ls)
  end.

End WithOpenCV.

End LineFinder.

(* ------------------------------------------------------------------ *)
(** ** [main.py]: the static methods of the class [LineDetector] *)
(* ------------------------------------------------------------------ *)

Module Main.
Import Float64.

Definition get_white_mask (img : image) : outcome mask :=
  bgr <- unpack3 (split img) ;;
  let '(b, g, r) := bgr in
  let white_mask :=
    plane_and (plane_and (plane_ge r WHITE_MIN) (plane_ge g WHITE_MIN))
              (plane_ge b WHITE_MIN) in
  Returns (to_uint8_mask white_mask).

Definition get_black_mask (img : image) : outcome mask :=
  bgr <- unpack3 (split img) ;;
  let '(b, g, r) := bgr in
  let black_mask :=
    plane_and (plane_and (plane_le r BLACK_MAX) (plane_le g BLACK_MAX))
              (plane_le b BLACK_MAX) in
  Returns (to_uint8_mask black_mask).

(** An element of [valid_lines]: [(p1[0], p1[1], p2[0], p2[1], length)]. *)
Definition valid_line : Type := (Z * Z * Z * Z * float)%type.

(** [l[4]] *)
Definition item4 (l : valid_line) : float := snd l.

(** The two nested loops of [find_line_endpoints] over the pairs
    [(hull_points[i], hull_points[j])], [i < j], on the state
    [(max_dist, p1, p2)]. *)
Fixpoint pairwise_search (hull_points : list point)
  (st : float * point * point) : float * point * point :=
  match hull_points with
  | [] => st
  | pt1 :: tail =>
      pairwise_search tail
        (fold_left
           (fun (st : float * point * point) (pt2 : point) =>
              let '(max_dist, p1, p2) := st in
              let dist :=
                sqrt (of_int
                  (Int32.add (Int32.sq (Int32.sub (fst pt1) (fst pt2)))
                             (Int32.sq (Int32.sub (snd pt1) (snd pt2))))) in
              if ltb max_dist dist then (dist, pt1, pt2)
              else (max_dist, p1, p2))
           tail st)
  end.

Section WithOpenCV.
Context {cv : OpenCV}.

Definition find_line_endpoints (contour : contour) : point * point :=
  let points := contour in
  if len points <? 2 then ((0, 0), (0, 0)) else
  let hull_points :=
    if 4 <? len points then convexHull contour else points in
  let max_dist := of_int 0 in
  let p1 := nth 0 points (0, 0) in
  let p2 := last_point points in
  let '(_, p1, p2) := pairwise_search hull_points (max_dist, p1, p2) in
  (p1, p2).

Fixpoint has_black_ahead (black_mask : mask) (h w : Z)
  (px py : Z) (dir_x dir_y : float) (dists : list Z) : outcome bool :=
  match dists with
  | [] => Returns false
  | dist :: rest =>
      check_x <- to_int (add (of_int px) (mul dir_x (of_int dist))) ;;
      check_y <- to_int (add (of_int py) (mul dir_y (of_int dist))) ;;
      if (0 <=? check_x) && (check_x <? w)
         && (0 <=? check_y) && (check_y <? h)
         && (0 <? mask_at black_mask check_y check_x)
      then Returns true
      else has_black_ahead black_mask h w px py dir_x dir_y rest
  end.

Definition check_black_at_ends (img : image) (p1 p2 : point)
  (direction : Z * Z) (check_radius : Z) : outcome bool :=
  black_mask <- get_black_mask img ;;
  let '(h, w) := shape black_mask in
  let '(dx, dy) := direction in
  length <- np_sqrt (dx * dx + dy * dy) ;;
  if eqb length (of_int 0) then Returns true else
  let dx := div (of_int dx) length in
  let dy := div (of_int dy) length in
  end1_ok <- has_black_ahead black_mask h w (fst p1) (snd p1)
               (neg dx) (neg dy) (py_range 3 check_radius) ;;
  end2_ok <- has_black_ahead black_mask h w (fst p2) (snd p2)
               dx dy (py_range 3 check_radius) ;;
  Returns (end1_ok || end2_ok).

(** The loop of [detect] over the contours. *)
Fixpoint detect_loop (img : image) (contours : list contour)
  (valid_lines : list valid_line) : outcome (list valid_line) :=
  match contours with
  | [] => Returns valid_lines
  | contour :: rest =>
      let area := contourArea contour in
      if ltb area (of_int 50) then detect_loop img rest valid_lines else
      let '(thickness, length) :=
        if 5 <=? len contour then
          let rect := minAreaRect contour in
          let '(rect_w, rect_h) := snd (fst rect) in
          (py_min rect_w rect_h, py_max rect_w rect_h)
        else
          let '(x, y, w, h) := boundingRect contour in
          (of_int (Z.min w h), of_int (Z.max w h)) in
      if ltb thickness (of_int MIN_LINE_THICKNESS)
         || ltb (of_int MAX_LINE_THICKNESS) thickness
      then detect_loop img rest valid_lines else
      if ltb length (of_int MIN_LINE_LENGTH)
      then detect_loop img rest valid_lines else
      let aspect_ratio := div length (py_max thickness (of_int 1)) in
      if ltb aspect_ratio (of_int 3)
      then detect_loop img rest valid_lines else
      let '(p1, p2) := find_line_endpoints contour in
      let direction := (fst p2 - fst p1, snd p2 - snd p1) in
      ok <- check_black_at_ends img p1 p2 direction 20 ;;
      if negb ok then detect_loop img rest valid_lines else
      detect_loop img rest
        (valid_lines ++ [ (fst p1, snd p1, fst p2, snd p2, length) ])
  end.

Definition detect (img : image) : outcome (option (Z * Z * Z * Z)) :=
  white_mask <- get_white_mask img ;;
  let contours := findContours white_mask in
  valid_lines <- detect_loop img contours [] ;;
  match valid_lines with
  | [] => Returns None
  | l :: ls =>
      let best := max_by_key item4 l ls in
      Returns (Some (fst best))
  end.

End WithOpenCV.

End Main.

(** ** Derived attributes of a candidate shape *)

(** The (thickness, length) pair the loop body computes for a contour. *)
Definition measure {cv : OpenCV} (c : contour)
  : Float64.float * Float64.float :=
  if 5 <=? len c then
    let '(rect_w, rect_h) := snd (fst (minAreaRect c)) in
    (Float64.py_min rect_w rect_h, Float64.py_max rect_w rect_h)
  else
    let '(x, y, w, h) := boundingRect c in
    (Float64.of_int (Z.min w h), Float64.of_int (Z.max w h)).

(** The four rejection tests of the loop body, in the words of the shape
    filter: area, thickness, length, aspect ratio. *)
Definition shape_filter_rejects (area thickness length : Float64.float)
  : bool :=
  Float64.ltb area (Float64.of_int 50)
  || Float64.ltb thickness (Float64.of_int MIN_LINE_THICKNESS)
  || Float64.ltb (Float64.of_int MAX_LINE_THICKNESS) thickness
  || Float64.ltb length (Float64.of_int MIN_LINE_LENGTH)
  || Float64.ltb
       (Float64.div length (Float64.py_max thickness (Float64.of_int 1)))
       (Float64.of_int 3).

(** The squared Euclidean distance of two points, over the integers. *)
Definition dist2 (a b : point) : Z :=
  (fst a - fst b) * (fst a - fst b) + (snd a - snd b) * (snd a - snd b).

(** ** Notions used to state the properties *)

(** A pixel is bright (dark) when all three of its channels are at least
    [WHITE_MIN] (at most [BLACK_MAX]). *)
Definition is_bright (p : pixel) : bool :=
  let '(b, g, r) := p in (240 <=? r) && (240 <=? g) && (240 <=? b).
Definition is_dark (p : pixel) : bool :=
  let '(b, g, r) := p in (r <=? 40) && (g <=? 40) && (b <=? 40).

(** The pixel that [has_black_ahead] samples at distance [t] from
    [(px, py)] along [(dir_x, dir_y)]. *)
Definition sample (px py : Z) (dir_x dir_y : Float64.float) (t : Z)
  : outcome (Z * Z) :=
  check_x <- Float64.to_int
               (Float64.add (Float64.of_int px)
                  (Float64.mul dir_x (Float64.of_int t))) ;;
  check_y <- Float64.to_int
               (Float64.add (Float64.of_int py)
                  (Float64.mul dir_y (Float64.of_int t))) ;;
  Returns (check_x, check_y).

(** An integer the size of an [np.int32] coordinate or of the difference
    of two: below [2^32] in absolute value. *)
Definition coordinate_sized (z : Z) : Prop := Z.abs z < 2 ^ 32.

(** A point or a direction with coordinate-sized components. *)
Definition point_sized (p : Z * Z) : Prop :=
  coordinate_sized (fst p) /\ coordinate_sized (snd p).

(** The test [has_black_ahead] applies to one sampled pixel. *)
Definition hits (black_mask : mask) (h w : Z) (xy : Z * Z) : bool :=
  (0 <=? fst xy) && (fst xy <? w) && (0 <=? snd xy) && (snd xy <? h)
  && (0 <? mask_at black_mask (snd xy) (fst xy)).

(** The normalised direction [(dx / length, dy / length)]. *)
Definition unit_direction (d : Z * Z) : Float64.float * Float64.float :=
  let length := Float64.sqrt (Float64.of_int (fst d * fst d + snd d * snd d)) in
  (Float64.div (Float64.of_int (fst d)) length,
   Float64.div (Float64.of_int (snd d)) length).

(** The masks of an image, pixel by pixel. *)
Definition bright_mask (img : image) : mask :=
  map (map (fun p => if is_bright p then 255 else 0)) img.
Definition dark_mask (img : image) : mask :=
  map (map (fun p => if is_dark p then 255 else 0)) img.

(** The pixel [(x, y)] is inside the image and set in its dark mask. *)
Definition dark_at (img : image) (x y : Z) : Prop :=
  exists black_mask,
    LineFinder.get_black_mask img = Returns black_mask
    /\ (0 <= x < snd (shape black_mask)) /\ (0 <= y < fst (shape black_mask))
    /\ 0 < mask_at black_mask y x.

(** An end succeeds: some distance [3 <= t < radius] samples a dark pixel. *)
Definition end_succeeds (img : image) (p : point)
  (dir : Float64.float * Float64.float) (radius : Z) : Prop :=
  exists t x y,
    3 <= t < radius
    /\ sample (fst p) (snd p) (fst dir) (snd dir) t = Returns (x, y)
    /\ dark_at img x y.

(** No sampled coordinate is a NaN or an infinity, so that [int(...)]
    returns at every distance. *)
Definition samples_defined (p : point)
  (dir : Float64.float * Float64.float) (radius : Z) : bool :=
  forallb
    (fun t =>
       match sample (fst p) (snd p) (fst dir) (snd dir) t with
       | Returns _ => true
       | Raises _ => false
       end)
    (py_range 3 radius).

Definition neg_direction (dir : Float64.float * Float64.float)
  : Float64.float * Float64.float :=
  (Float64.neg (fst dir), Float64.neg (snd dir)).

(** The sizes [cv2.minAreaRect] reports for a contour are numbers. *)
Definition rect_sizes_are_numbers {cv : OpenCV} (c : contour) : bool :=
  let '(rect_w, rect_h) := snd (fst (minAreaRect c)) in
  negb (Float64.is_nan rect_w) && negb (Float64.is_nan rect_h).

(** The contours the loops of [find_lines] and [detect] go through: those
    [cv2.findContours] reports for the bright mask. *)
Definition contours_of {cv : OpenCV} (img : image) : list contour :=
  match LineFinder.get_white_mask img with
  | Returns white_mask => findContours white_mask
  | Raises _ => []
  end.

(** Two of the points differ. *)
Definition spread (pts : list point) : bool :=
  existsb
    (fun a =>
       existsb (fun b => negb ((fst a =? fst b) && (snd a =? snd b))) pts)
    pts.

(** Every contour [cv2.findContours] reports passes through a set pixel of
    the mask it was given. *)
Definition contours_on_set_pixels {cv : OpenCV} (m : mask) : Prop :=
  forall c, In c (findContours m) ->
    exists x y, In (x, y) c /\ 0 < mask_at m y x.

(** The line a contour yields once it has passed every test. *)
Definition line_of {cv : OpenCV} (c : contour) : LineFinder.DetectedLine :=
  let '(p1, p2) := LineFinder.find_line_endpoints c in
  {| LineFinder.x1 := fst p1; LineFinder.y1 := snd p1;
     LineFinder.x2 := fst p2; LineFinder.y2 := snd p2;
     LineFinder.length := snd (measure c);
     LineFinder.thickness := fst (measure c) |}.

(** The end points of a detected line, as [detect] returns them. *)
Definition coordinates (l : LineFinder.DetectedLine) : Z * Z * Z * Z :=
  (LineFinder.x1 l, LineFinder.y1 l, LineFinder.x2 l, LineFinder.y2 l).

(** The points lie where the squared distance of any two of them fits an
    [np.int32]: both coordinates within [0, 32767]. *)
Definition in_range (pts : list point) : bool :=
  forallb (fun p : point =>
             (0 <=? fst p) && (fst p <? 32768)
             && (0 <=? snd p) && (snd p <? 32768)) pts.

(** The binary64 square roots of the squared distances of the points are
    ordered as the squared distances are. *)
Definition sqrt_orders (pts : list point) : bool :=
  forallb (fun a => forallb (fun b => forallb (fun a' => forallb (fun b' =>
    Bool.eqb
      (Float64.ltb (Float64.sqrt (Float64.of_int (dist2 a b)))
                   (Float64.sqrt (Float64.of_int (dist2 a' b'))))
      (dist2 a b <? dist2 a' b')) pts) pts) pts) pts.

(** The points among which [find_line_endpoints] searches. *)
Definition hull_points_of {cv : OpenCV} (c : contour) : list point :=
  if 4 <? len c then convexHull c else c.

(** What the pairwise search has found so far: nothing ([v = 0], the
    initial pair still in place), or a pair of the searched points at the
    squared distance [v > 0]. *)
Definition search_found (pts : list point) (initial : point * point)
  (st : LineFinder.search_state) (v : Z) : Prop :=
  let '(max_dist, p1, p2) := st in
  (max_dist = Float64.of_int 0 /\ v = 0 /\ (p1, p2) = initial)
  \/ (0 < v /\ v = dist2 p1 p2
      /\ max_dist = Float64.sqrt (Float64.of_int v)
      /\ In p1 pts /\ In p2 pts).

(** The end points of a contour and the termination check on them. *)
Definition terminated {cv : OpenCV} (img : image) (c : contour)
  : outcome bool :=
  let '(p1, p2) := LineFinder.find_line_endpoints c in
  LineFinder.check_black_at_ends img p1 p2
    (fst p2 - fst p1, snd p2 - snd p1) 20.

(** A contour is accepted when the shape filter lets it through and the
    termination check returns true. *)
Definition accepted {cv : OpenCV} (img : image) (c : contour) : bool :=
  negb (shape_filter_rejects (contourArea c) (fst (measure c))
          (snd (measure c)))
  && match terminated img c with
     | Returns ok => ok
     | Raises _ => false
     end.

(** The tolerances of a detected line: thickness within [2, 15], length at
    least 30, and length / max(thickness, 1) at least 3. *)
Definition within_tolerances (l : LineFinder.DetectedLine) : Prop :=
  Float64.leb (Float64.of_int MIN_LINE_THICKNESS) (LineFinder.thickness l)
  = true
  /\ Float64.leb (LineFinder.thickness l) (Float64.of_int MAX_LINE_THICKNESS)
     = true
  /\ Float64.leb (Float64.of_int MIN_LINE_LENGTH) (LineFinder.length l) = true
  /\ Float64.leb (Float64.of_int 3)
       (Float64.div (LineFinder.length l)
          (Float64.py_max (LineFinder.thickness l) (Float64.of_int 1)))
     = true.

(** The element of [valid_lines] that [detect] keeps for a line. *)
Definition item_of (l : LineFinder.DetectedLine) : Main.valid_line :=
  (coordinates l, LineFinder.length l).

(** The selection at the end of [detect]. *)
Definition best_of (valid_lines : list Main.valid_line)
  : option (Z * Z * Z * Z) :=
  match valid_lines with
  | [] => None
  | l :: ls => Some (fst (max_by_key Main.item4 l ls))
  end.

(** ** A stand-in for OpenCV on masks that hold one axis-aligned rectangle

    Used to run the pipeline on concrete images. For a mask whose set
    pixels form one filled axis-aligned rectangle it returns what OpenCV
    returns: the four corners as the single contour (top-left, bottom-left,
    bottom-right, top-right), the area of the polygon through them, the
    bounding box with its sizes counted in pixels, and the corners
    themselves as their convex hull. *)

Module Rectangles.

(** The column indices of the set pixels of a row. *)
Fixpoint set_columns (row : list Z) (x : Z) : list Z :=
  match row with
  | [] => []
  | v :: row' =>
      if 0 <? v then x :: set_columns row' (x + 1)
      else set_columns row' (x + 1)
  end.

(** The coordinates of the set pixels of a mask. *)
Fixpoint set_pixels (m : mask) (y : Z) : list point :=
  match m with
  | [] => []
  | row :: m' =>
      map (fun x => (x, y)) (set_columns row 0) ++ set_pixels m' (y + 1)
  end.

Definition minimum (l : list Z) : Z := fold_right Z.min (hd 0 l) l.
Definition maximum (l : list Z) : Z := fold_right Z.max (hd 0 l) l.

Definition corners (pts : list point) : contour :=
  let xs := map fst pts in
  let ys := map snd pts in
  [ (minimum xs, minimum ys); (minimum xs, maximum ys);
    (maximum xs, maximum ys); (maximum xs, minimum ys) ].

Definition find_contours (m : mask) : list contour :=
  match set_pixels m 0 with
  | [] => []
  | pts => [ corners pts ]
  end.

Definition bounding_rect (c : contour) : Z * Z * Z * Z :=
  let xs := map fst c in
  let ys := map snd c in
  (minimum xs, minimum ys,
   maximum xs - minimum xs + 1, maximum ys - minimum ys + 1).

Definition contour_area (c : contour) : Float64.float :=
  let xs := map fst c in
  let ys := map snd c in
  Float64.of_int ((maximum xs - minimum xs) * (maximum ys - minimum ys)).

Definition min_area_rect (c : contour)
  : (Float64.float * Float64.float) * (Float64.float * Float64.float)
    * Float64.float :=
  let xs := map fst c in
  let ys := map snd c in
  ((Float64.div (Float64.of_int (minimum xs + maximum xs)) (Float64.of_int 2),
    Float64.div (Float64.of_int (minimum ys + maximum ys)) (Float64.of_int 2)),
   (Float64.of_int (maximum xs - minimum xs),
    Float64.of_int (maximum ys - minimum ys)),
   Float64.of_int 90).

#[local] Instance opencv : OpenCV := {
  findContours := find_contours;
  contourArea := contour_area;
  boundingRect := bounding_rect;
  minAreaRect := min_area_rect;
  convexHull := fun c => c
}.

Definition black : pixel := (0, 0, 0).
Definition white : pixel := (255, 255, 255).

(** An image of [h] rows and [w] columns, black but for the white
    rectangle of the columns [xa <= x <= xb] and rows [ya <= y <= yb]. *)
Definition picture (h w xa xb ya yb : Z) : image :=
  map (fun y =>
         map (fun x =>
                if (xa <=? x) && (x <=? xb) && (ya <=? y) && (y <=? yb)
                then white else black)
             (py_range 0 w))
      (py_range 0 h).

(** A white bar, 36 pixels long and 4 thick, on a black ground. *)
Definition bar : image := picture 8 50 5 40 2 5.

(** The line the pipeline finds on [bar]. *)
Definition bar_line : LineFinder.DetectedLine :=
  {| LineFinder.x1 := 5; LineFinder.y1 := 2;
     LineFinder.x2 := 40; LineFinder.y2 := 5;
     LineFinder.length := Float64.of_int 36;
     LineFinder.thickness := Float64.of_int 4 |}.

(** Three candidates, the last two of one length. *)
Definition three_lines : list LineFinder.DetectedLine :=
  [ LineFinder.mkDetectedLine 0 0 30 0 (Float64.of_int 30) (Float64.of_int 4);
    LineFinder.mkDetectedLine 0 9 45 9 (Float64.of_int 45) (Float64.of_int 5);
    LineFinder.mkDetectedLine 9 0 9 45 (Float64.of_int 45) (Float64.of_int 6) ].

(** An image with no bright pixel. *)
Definition night : image := picture 4 6 1 0 1 0.

End Rectangles.

(* ------------------------------------------------------------------ *)
(** ** [main.py]: the class [TrajectoryOverlay] *)
(* ------------------------------------------------------------------ *)

(** The overlay is a window of Tk: the model keeps of it what the methods
    below read and write, namely the opacity of the root window
    ([root.attributes("-alpha", a)]), the extended style of the window
    ([GetWindowLongW] and [SetWindowLongW] at [GWL_EXSTYLE]), the lines on
    the canvas in the order of their creation, and the delays of the calls
    [root.after] has been asked for [update]. The calls of Tk are taken
    not to raise; those of the Windows API exist on Windows only. *)

Module TrajectoryOverlay.
Import Float64.

Definition SCAN_INTERVAL_MS : Z := 1.
Definition EXTEND_LENGTH : Z := 2000.

(** A line of the canvas: [(x1, y1, x2, y2)]. *)
Definition segment : Type := (Z * Z * Z * Z)%type.

Record overlay : Type := mkOverlay {
  alpha : Z;
  exstyle : Z;
  canvas : list segment;
  scheduled : list Z
}.




(** [extend_line_full]: the end points are Python integers; the
    direction is normalised in binary64 and each end is moved
    [EXTEND_LENGTH] along it, away from the other end. *)
Definition extend_line_full (x1 y1 x2 y2 : Z) : outcome segment :=
  let dx := x2 - x1 in
  let dy := y2 - y1 in
  length <- np_sqrt (dx * dx + dy * dy) ;;
  if eqb length (of_int 0) then Returns (x1, y1, x2, y2) else
  let dx := div (of_int dx) length in
  let dy := div (of_int dy) length in
  new_x1 <- to_int (sub (of_int x1) (mul dx (of_int EXTEND_LENGTH))) ;;
  new_y1 <- to_int (sub (of_int y1) (mul dy (of_int EXTEND_LENGTH))) ;;
  new_x2 <- to_int (add (of_int x2) (mul dx (of_int EXTEND_LENGTH))) ;;
  new_y2 <- to_int (add (of_int y2) (mul dy (of_int EXTEND_LENGTH))) ;;
  Returns (new_x1, new_y1, new_x2, new_y2).

(** [draw_line]: the canvas is emptied, then the line is created. *)
Definition draw_line (x1 y1 x2 y2 : Z) (o : overlay) : overlay :=
  {| alpha := alpha o; exstyle := exstyle o;
     canvas := [(x1, y1, x2, y2)]; scheduled := scheduled o |}.

(** [canvas.delete("all")] *)
Definition delete_all (o : overlay) : overlay :=
  {| alpha := alpha o; exstyle := exstyle o;
     canvas := []; scheduled := scheduled o |}.

(** [root.attributes("-alpha", a)] *)
Definition set_alpha (a : Z) (o : overlay) : overlay :=
  {| alpha := a; exstyle := exstyle o;
     canvas := canvas o; scheduled := scheduled o |}.

(** [root.after(ms, self.update)] *)
Definition after (ms : Z) (o : overlay) : overlay :=
  {| alpha := alpha o; exstyle := exstyle o;
     canvas := canvas o; scheduled := scheduled o ++ [ms] |}.

Section WithOpenCV.
Context {cv : OpenCV}.

(** The body of the [try] of [update], on what [capture_screen] gives:
    an image, or [None] when the capture raises. An exception leaves
    the overlay as the statements before it have made it; [except]
    only prints. A tuple of four is true for [if line:]. *)
Definition update_try (screen : option image) (o : overlay) : overlay :=
  let o := set_alpha 0 o in
  match screen with
  | None => o
  | Some img =>
      let o := set_alpha 1 o in
      match Main.detect img with
      | Raises _ => o
      | Returns None => delete_all o
      | Returns (Some (x1, y1, x2, y2)) =>
          match extend_line_full x1 y1 x2 y2 with
          | Raises _ => o
          | Returns (ex1, ey1, ex2, ey2) => draw_line ex1 ey1 ex2 ey2 o
          end
      end
  end.

(** [update]: the [try] statement, then the next run is asked for. *)
Definition update (screen : option image) (o : overlay) : overlay :=
  after SCAN_INTERVAL_MS (update_try screen o).

End WithOpenCV.

End TrajectoryOverlay.

(** ** Notions used to state the properties of the overlay *)

(** A coordinate of a point on a screen: not negative and below [2^30],
    so that the squared length of a segment between two such points fits
    64 bits. *)
Definition screen_sized (z : Z) : Prop := 0 <= z < 2 ^ 30.

(** The segment with its two ends exchanged. *)
Definition reversed (s : TrajectoryOverlay.segment)
  : TrajectoryOverlay.segment :=
  let '(x1, y1, x2, y2) := s in (x2, y2, x1, y1).


(** The value of a finite binary64 number, times [2^1074]: an integer,
    since no exponent is below -1074. Zero for the zeros. *)
Definition scaled (x : Float64.float) : Z :=
  match x with
  | S754_finite s m e => cond_Zopp s (Zpos m * 2 ^ (e + 1074))
  | _ => 0
  end.

(** A zero, or a normal number (53 binary digits in the mantissa) with
    its exponent from [lo] to [hi]. *)
Definition regular (lo hi : Z) (x : Float64.float) : Prop :=
  match x with
  | S754_zero _ => True
  | S754_finite _ m e => Zpos (digits2_pos m) = 53 /\ lo <= e <= hi
  | _ => False
  end.

(** A coordinate of a point on a canvas: not negative and below [2^25],
    so that binary64 holds the squared length of a segment between two
    such points exactly. *)
Definition canvas_sized (z : Z) : Prop := 0 <= z < 2 ^ 25.

(** The coordinate [new] of an extended end lies at most [t] from the
    coordinate [old] of the end it comes from, on the side away from the
    coordinate [other] of the other end; where the two ends have one
    coordinate, it is kept. *)
Definition moved_away (t old other new : Z) : Prop :=
  (old <= other -> old - t <= new <= old)
  /\ (other <= old -> old <= new <= old + t).

(** A point of a canvas. *)
Definition canvas_point (p : point) : Prop :=
  canvas_sized (fst p) /\ canvas_sized (snd p).

(** The pixel [xy] lies at the distance [t] from the end [p] of a line,
    beyond it as seen from the other end [q]: along each axis at most [t]
    from [p], on the side away from [q]; and, on a line parallel to an
    axis, on that line and exactly [t] from [p]. *)
Definition beyond (t : Z) (p q : point) (xy : Z * Z) : Prop :=
  moved_away t (fst p) (fst q) (fst xy)
  /\ moved_away t (snd p) (snd q) (snd xy)
  /\ (snd p = snd q -> fst p < fst q -> fst xy = fst p - t)
  /\ (snd p = snd q -> fst q < fst p -> fst xy = fst p + t)
  /\ (fst p = fst q -> snd p < snd q -> snd xy = snd p - t)
  /\ (fst p = fst q -> snd q < snd p -> snd xy = snd p + t).


(** The termination check succeeded on the end points of a line, and one
    of them has a dark pixel ahead: a pixel the check samples at a distance
    [3 <= t < 20], inside the image and set in the dark mask, which lies
    beyond that end. *)
Definition ends_on_black (img : image) (l : LineFinder.DetectedLine) : Prop :=
  let p1 := (LineFinder.x1 l, LineFinder.y1 l) in
  let p2 := (LineFinder.x2 l, LineFinder.y2 l) in
  let d := (LineFinder.x2 l - LineFinder.x1 l,
            LineFinder.y2 l - LineFinder.y1 l) in
  LineFinder.check_black_at_ends img p1 p2 d 20 = Returns true
  /\ (end_succeeds img p1 (neg_direction (unit_direction d)) 20
      \/ end_succeeds img p2 (unit_direction d) 20)
  /\ exists t x y,
       3 <= t < 20 /\ dark_at img x y
       /\ (beyond t p1 p2 (x, y) \/ beyond t p2 p1 (x, y)).

(** The overlay after the runs of [update] that the event loop of Tk
    makes, one for each capture of the screen, in their order. *)
Definition run {cv : OpenCV} (screens : list (option image))
  (o : TrajectoryOverlay.overlay) : TrajectoryOverlay.overlay :=
  fold_left (fun o screen => TrajectoryOverlay.update screen o) screens o.

(* ================================================================== *)
(** * Part II: binary64 arithmetic *)
(* ================================================================== *)

(** ** Binary64 rounding never invents a zero or a NaN *)

Module Float64Facts.
Import Float64.

Lemma shr_1_m (mrs : shr_record) :
  0 <= shr_m mrs -> shr_m (shr_1 mrs) = shr_m mrs / 2.
Proof.
  destruct mrs as [m r s]; simpl; intros Hm.
  destruct m as [|p|p]; [reflexivity| |lia].
  destruct p as [p|p|]; simpl.
  - rewrite Pos2Z.inj_xI. apply Z.div_unique with (r := 1); lia.
  - rewrite Pos2Z.inj_xO. apply Z.div_unique with (r := 0); lia.
  - reflexivity.
Qed.

Lemma pow2_xO (p : positive) : 2 ^ Zpos p~0 = 2 ^ Zpos p * 2 ^ Zpos p.
Proof.
  replace (Zpos p~0) with (Zpos p + Zpos p) by lia.
  apply Z.pow_add_r; lia.
Qed.

Lemma pow2_xI (p : positive) :
  2 ^ Zpos p~1 = 2 * (2 ^ Zpos p * 2 ^ Zpos p).
Proof.
  replace (Zpos p~1) with (1 + (Zpos p + Zpos p)) by lia.
  rewrite !Z.pow_add_r by lia. reflexivity.
Qed.

Lemma iter_pos_shr_m (p : positive) :
  forall mrs, 0 <= shr_m mrs ->
    shr_m (iter_pos shr_1 p mrs) = shr_m mrs / 2 ^ Zpos p.
Proof.
  induction p as [p IH|p IH|]; intros mrs Hm; simpl iter_pos.
  - assert (H1 : 0 <= shr_m (shr_1 mrs))
      by (rewrite shr_1_m by assumption; apply Z.div_pos; lia).
    assert (H2 : 0 <= shr_m (iter_pos shr_1 p (shr_1 mrs)))
      by (rewrite IH by assumption; apply Z.div_pos; [lia|apply Z.pow_pos_nonneg; lia]).
    rewrite IH, IH, shr_1_m by assumption.
    assert (Hp : 0 < 2 ^ Zpos p) by (apply Z.pow_pos_nonneg; lia).
    rewrite !Z.div_div by lia.
    f_equal. rewrite pow2_xI. lia.
  - assert (H2 : 0 <= shr_m (iter_pos shr_1 p mrs))
      by (rewrite IH by assumption; apply Z.div_pos; [lia|apply Z.pow_pos_nonneg; lia]).
    rewrite IH, IH by assumption.
    assert (Hp : 0 < 2 ^ Zpos p) by (apply Z.pow_pos_nonneg; lia).
    rewrite !Z.div_div by lia.
    f_equal. symmetry. apply pow2_xO.
  - rewrite shr_1_m by assumption. reflexivity.
Qed.

Lemma digits2_pos_lower (m : positive) :
  2 ^ (Zpos (digits2_pos m) - 1) <= Zpos m.
Proof.
  induction m as [m IH|m IH|]; simpl digits2_pos.
  - rewrite Pos2Z.inj_succ.
    replace (Z.succ (Zpos (digits2_pos m)) - 1)
      with (Z.succ (Zpos (digits2_pos m) - 1)) by lia.
    rewrite Z.pow_succ_r by lia. lia.
  - rewrite Pos2Z.inj_succ.
    replace (Z.succ (Zpos (digits2_pos m)) - 1)
      with (Z.succ (Zpos (digits2_pos m) - 1)) by lia.
    rewrite Z.pow_succ_r by lia. lia.
  - simpl. lia.
Qed.

Lemma shr_record_of_loc_m (m : Z) (l : location) :
  shr_m (shr_record_of_loc m l) = m.
Proof. destruct l as [|[]]; reflexivity. Qed.

(** Shifting a positive mantissa down to the binary64 format keeps it
    positive, provided the exponent is not below that of the subnormals. *)
Lemma shr_fexp_pos (m e : Z) (l : location) :
  0 < m -> -1074 <= e ->
  0 < shr_m (fst (shr_fexp prec emax m e l))
  /\ e <= snd (shr_fexp prec emax m e l).
Proof.
  intros Hm He. unfold shr_fexp, shr.
  destruct m as [|p|p]; try lia.
  unfold Zdigits2, fexp, emin, prec, emax.
  pose proof (digits2_pos_lower p) as Hd.
  set (d := Zpos (digits2_pos p)) in *.
  destruct (Z.max (d + e - 53) (3 - 1024 - 53) - e) as [|q|q] eqn:Hn; simpl.
  - rewrite shr_record_of_loc_m. lia.
  - rewrite iter_pos_shr_m by (rewrite shr_record_of_loc_m; lia).
    rewrite shr_record_of_loc_m. split; [|lia].
    apply Z.div_str_pos. split; [apply Z.pow_pos_nonneg; lia|].
    apply Z.le_trans with (2 ^ (d - 1)); [|assumption].
    apply Z.pow_le_mono_r; lia.
  - rewrite shr_record_of_loc_m. lia.
Qed.

Lemma shr_fexp_nonneg (m e : Z) (l : location) :
  0 <= m -> 0 <= shr_m (fst (shr_fexp prec emax m e l)).
Proof.
  intros Hm. unfold shr_fexp, shr.
  destruct (fexp prec emax (Zdigits2 m + e) - e) as [|q|q]; simpl.
  - rewrite shr_record_of_loc_m. lia.
  - rewrite iter_pos_shr_m by (rewrite shr_record_of_loc_m; lia).
    rewrite shr_record_of_loc_m.
    apply Z.div_pos; [lia|apply Z.pow_pos_nonneg; lia].
  - rewrite shr_record_of_loc_m. lia.
Qed.

Lemma round_nearest_even_ge (m : Z) (l : location) :
  m <= round_nearest_even m l.
Proof.
  destruct l as [|[]]; simpl; try lia. destruct (Z.even m); lia.
Qed.

Lemma binary_round_aux_nonzero (sx : bool) (mx ex : Z) (lx : location) :
  0 < mx -> -1074 <= ex ->
  signed_nonzero sx (binary_round_aux prec emax sx mx ex lx).
Proof.
  intros Hm He. unfold binary_round_aux.
  pose proof (shr_fexp_pos mx ex lx Hm He) as [H1 H1e].
  destruct (shr_fexp prec emax mx ex lx) as [mrs' e'] eqn:E1. simpl in H1, H1e.
  pose proof (round_nearest_even_ge (shr_m mrs') (loc_of_shr_record mrs')) as Hr.
  set (m1 := round_nearest_even (shr_m mrs') (loc_of_shr_record mrs')) in *.
  assert (Hm1 : 0 < m1) by lia.
  assert (He1 : -1074 <= e') by lia.
  pose proof (shr_fexp_pos m1 e' loc_Exact Hm1 He1) as [H2 H2e].
  destruct (shr_fexp prec emax m1 e' loc_Exact) as [mrs'' e''] eqn:E2.
  simpl in H2, H2e.
  destruct (shr_m mrs'') as [|m|m]; try lia.
  destruct (e'' <=? emax - prec); simpl; [split; [reflexivity|lia]|reflexivity].
Qed.

Lemma binary_round_aux_not_nan (sx : bool) (mx ex : Z) (lx : location) :
  0 <= mx -> is_nan (binary_round_aux prec emax sx mx ex lx) = false.
Proof.
  intros Hm. unfold binary_round_aux.
  pose proof (shr_fexp_nonneg mx ex lx Hm) as H1.
  destruct (shr_fexp prec emax mx ex lx) as [mrs' e'] eqn:E1. simpl in H1.
  pose proof (round_nearest_even_ge (shr_m mrs') (loc_of_shr_record mrs')) as Hr.
  set (m1 := round_nearest_even (shr_m mrs') (loc_of_shr_record mrs')) in *.
  assert (Hm1 : 0 <= m1) by lia.
  pose proof (shr_fexp_nonneg m1 e' loc_Exact Hm1) as H2.
  destruct (shr_fexp prec emax m1 e' loc_Exact) as [mrs'' e''] eqn:E2.
  simpl in H2.
  destruct (shr_m mrs'') as [|m|m]; try lia; try reflexivity.
  destruct (e'' <=? emax - prec); reflexivity.
Qed.

Lemma shl_align_exp (mx : positive) (ex ex' : Z) :
  -1074 <= ex -> -1074 <= ex' -> -1074 <= snd (shl_align mx ex ex').
Proof.
  intros H1 H2. unfold shl_align. destruct (ex' - ex); simpl; lia.
Qed.

Lemma fexp_ge (e : Z) : -1074 <= fexp prec emax e.
Proof. unfold fexp, emin, prec, emax. lia. Qed.

Lemma binary_round_nonzero (sx : bool) (mx : positive) (ex : Z) :
  -1074 <= ex -> signed_nonzero sx (binary_round prec emax sx mx ex).
Proof.
  intros He. unfold binary_round.
  pose proof (shl_align_exp mx ex (fexp prec emax (Zpos (digits2_pos mx) + ex))
                He (fexp_ge _)) as H.
  destruct (shl_align mx ex (fexp prec emax (Zpos (digits2_pos mx) + ex)))
    as [mz ez]. simpl in H.
  apply binary_round_aux_nonzero; lia.
Qed.

(** The conversion of a non-zero integer is a non-zero float of its sign
    (possibly an infinity, for integers beyond the binary64 range). *)
Lemma of_int_nonzero (n : Z) :
  n <> 0 -> signed_nonzero (n <? 0) (of_int n).
Proof.
  intros Hn. unfold of_int, binary_normalize.
  destruct n as [|p|p]; [lia| |]; apply binary_round_nonzero; lia.
Qed.

Lemma of_int_not_nan (n : Z) : is_nan (of_int n) = false.
Proof.
  destruct (Z.eq_dec n 0) as [->|Hn]; [reflexivity|].
  pose proof (of_int_nonzero n Hn) as H.
  destruct (of_int n); simpl in *; tauto.
Qed.

Lemma sqrt_core_pos (m : positive) (e : Z) :
  -1074 <= e ->
  0 < fst (fst (SFsqrt_core_binary prec emax (Zpos m) e))
  /\ -1074 <= snd (fst (SFsqrt_core_binary prec emax (Zpos m) e)).
Proof.
  intros He. unfold SFsqrt_core_binary.
  set (e' := Z.min _ _).
  assert (He' : -1074 <= e' /\ 2 * e' <= e).
  { subst e'. pose proof (fexp_ge (Z.div2 (Zdigits2 (Zpos m) + e + 1))).
    rewrite (Z.div2_div e).
    pose proof (Z.mul_div_le e 2 ltac:(lia)).
    assert (-1074 <= e / 2) by (apply Z.div_le_lower_bound; lia).
    lia. }
  clearbody e'.
  set (m' := match e - 2 * e' with Z0 => Zpos m | Zpos _ => _ | Zneg _ => 0 end).
  assert (Hm' : 0 < m').
  { subst m'. destruct (e - 2 * e') as [|s|s] eqn:Hs; try lia.
    rewrite Z.shiftl_mul_pow2 by lia.
    apply Z.mul_pos_pos; [lia|apply Z.pow_pos_nonneg; lia]. }
  clearbody m'.
  pose proof (Z.sqrtrem_sqrt m') as Hq.
  pose proof (proj2 (Z.sqrt_pos m') Hm') as Hpos.
  destruct (Z.sqrtrem m') as [q r]. simpl in Hq. subst q. simpl. lia.
Qed.

(** The square root of a positive float is a positive float. *)
Lemma sqrt_nonzero (x : float) :
  signed_nonzero false x -> signed_nonzero false (sqrt x).
Proof.
  destruct x as [s|s| |s m e]; simpl; try tauto.
  - intros ->. reflexivity.
  - intros [-> He].
    pose proof (sqrt_core_pos m e He) as [Hq He'].
    unfold sqrt, SFsqrt.
    destruct (SFsqrt_core_binary prec emax (Zpos m) e) as [[mz ez] lz].
    simpl in Hq, He'. apply binary_round_aux_nonzero; assumption.
Qed.

Lemma sqrt_of_int_pos (n : Z) :
  0 < n -> signed_nonzero false (sqrt (of_int n)).
Proof.
  intros Hn. apply sqrt_nonzero.
  pose proof (of_int_nonzero n ltac:(lia)) as H.
  replace (n <? 0) with false in H by (symmetry; apply Z.ltb_ge; lia).
  exact H.
Qed.

Lemma nonzero_eqb_zero (s : bool) (x : float) :
  signed_nonzero s x -> eqb x (of_int 0) = false.
Proof.
  destruct x as [s'|s'| |s' m e]; simpl; try tauto.
  - intros ->. destruct s; reflexivity.
  - intros [-> _]. destruct s; reflexivity.
Qed.

Lemma positive_ltb_zero (x : float) :
  signed_nonzero false x -> ltb (of_int 0) x = true.
Proof.
  destruct x as [s'|s'| |s' m e]; simpl; try tauto.
  - intros ->. reflexivity.
  - intros [-> _]. reflexivity.
Qed.

(** The quotient by a finite non-zero float is never a NaN. *)
Lemma div_not_nan (a : float) (s : bool) (m : positive) (e : Z) :
  is_nan a = false -> is_nan (div a (S754_finite s m e)) = false.
Proof.
  destruct a as [sa|sa| |sa ma ea]; simpl; try reflexivity; try discriminate.
  intros _. unfold div, SFdiv, SFdiv_core_binary.
  set (m' := match _ - _ - _ with Z0 => Zpos ma | Zpos _ => _ | Zneg _ => 0 end).
  assert (Hm' : 0 <= m').
  { subst m'. destruct (_ - _ - _) as [|p|p]; try lia.
    apply Z.shiftl_nonneg. lia. }
  clearbody m'.
  pose proof (Z.div_pos m' (Zpos m) Hm' ltac:(lia)) as Hq.
  unfold Z.div in Hq.
  destruct (Z.div_eucl m' (Zpos m)) as [q r].
  apply binary_round_aux_not_nan. exact Hq.
Qed.

End Float64Facts.

(** ** The order of binary64 numbers *)

Module Float64Order.
Import Float64.

Ltac cases_compare :=
  repeat match goal with
    | H : context [Z.compare ?x ?y] |- _ =>
        destruct (Z.compare_spec x y); simpl in H
    | |- context [Z.compare ?x ?y] =>
        destruct (Z.compare_spec x y); simpl
    | H : context [Pos.compare_cont Eq ?x ?y] |- _ =>
        change (Pos.compare_cont Eq x y) with (Pos.compare x y) in H;
        destruct (Pos.compare_spec x y); simpl in H
    | |- context [Pos.compare_cont Eq ?x ?y] =>
        change (Pos.compare_cont Eq x y) with (Pos.compare x y);
        destruct (Pos.compare_spec x y); simpl
    end.

Ltac float_order :=
  unfold ltb, leb, eqb, SFltb, SFleb, SFeqb, is_nan in *;
  repeat match goal with
    | x : float |- _ => destruct x as [[]|[]| |[] ? ?]
    | x : spec_float |- _ => destruct x as [[]|[]| |[] ? ?]
    end;
  simpl in *; try discriminate; try reflexivity;
  cases_compare; subst; try discriminate; try reflexivity; try lia.

Lemma ltb_not_nan (a b : float) :
  ltb a b = true -> is_nan a = false /\ is_nan b = false.
Proof. intros H; split; float_order. Qed.

Lemma leb_not_nan (a b : float) :
  leb a b = true -> is_nan a = false /\ is_nan b = false.
Proof. intros H; split; float_order. Qed.

Lemma ltb_total (a b : float) :
  is_nan a = false -> is_nan b = false -> ltb a b = false -> leb b a = true.
Proof. intros Ha Hb H. float_order. Qed.

Lemma ltb_leb (a b : float) : ltb a b = true -> leb a b = true.
Proof. intros H. float_order. Qed.

Lemma leb_refl (a : float) : is_nan a = false -> leb a a = true.
Proof. intros H. float_order. Qed.

Lemma ltb_trans (a b c : float) :
  ltb a b = true -> ltb b c = true -> ltb a c = true.
Proof. intros H1 H2. float_order. Qed.

Lemma leb_ltb_trans (a b c : float) :
  leb a b = true -> ltb b c = true -> ltb a c = true.
Proof. intros H1 H2. float_order. Qed.

Lemma leb_trans (a b c : float) :
  leb a b = true -> leb b c = true -> leb a c = true.
Proof. intros H1 H2. float_order. Qed.

Lemma ltb_leb_false (a b : float) : ltb a b = true -> leb b a = false.
Proof. intros H. float_order. Qed.

End Float64Order.

(** ** Magnitudes: binary64 operations on small numbers stay finite *)

Module Float64Magnitude.
Import Float64.

Lemma digits2_pos_upper (m : positive) : Zpos m < 2 ^ Zpos (digits2_pos m).
Proof.
  induction m as [m IH|m IH|]; simpl digits2_pos.
  - rewrite Pos2Z.inj_succ, Z.pow_succ_r by lia. lia.
  - rewrite Pos2Z.inj_succ, Z.pow_succ_r by lia. lia.
  - simpl. lia.
Qed.

Lemma Zdigits2_nonneg (m : Z) : 0 <= Zdigits2 m.
Proof. destruct m; simpl; lia. Qed.

Lemma Zdigits2_upper (m : Z) : 0 <= m -> m < 2 ^ Zdigits2 m.
Proof.
  destruct m as [|p|p]; intros H; try lia; [simpl; lia|].
  apply digits2_pos_upper.
Qed.

Lemma Zdigits2_lower (m : Z) : 0 < m -> 2 ^ (Zdigits2 m - 1) <= m.
Proof.
  destruct m as [|p|p]; intros H; try lia.
  apply Float64Facts.digits2_pos_lower.
Qed.

Lemma Zdigits2_le (m k : Z) : 0 <= m -> 0 <= k -> m < 2 ^ k -> Zdigits2 m <= k.
Proof.
  intros Hm Hk H.
  destruct (Z.eq_dec m 0) as [->|Hne]; [simpl; lia|].
  pose proof (Zdigits2_lower m ltac:(lia)) as Hl.
  pose proof (Zdigits2_nonneg m) as Hd.
  assert (Hlt : 2 ^ (Zdigits2 m - 1) < 2 ^ k) by lia.
  destruct (Z_lt_le_dec (Zdigits2 m - 1) k) as [|Hge]; [lia|].
  apply (Z.pow_le_mono_r 2) in Hge; lia.
Qed.

Lemma Zdigits2_ge (m k : Z) : 0 < m -> 2 ^ (k - 1) <= m -> k <= Zdigits2 m.
Proof.
  intros Hm H.
  pose proof (Zdigits2_upper m ltac:(lia)) as Hu.
  pose proof (Zdigits2_nonneg m) as Hd.
  destruct (Z_lt_le_dec (Zdigits2 m) k) as [Hlt|]; [|lia].
  assert (Hle : Zdigits2 m <= k - 1) by lia.
  apply (Z.pow_le_mono_r 2) in Hle; lia.
Qed.

Lemma Zdigits2_mono (a b : Z) : 0 < a -> a <= b -> Zdigits2 a <= Zdigits2 b.
Proof.
  intros Ha Hab. apply Zdigits2_ge; [lia|].
  pose proof (Zdigits2_lower a Ha). lia.
Qed.

Lemma Zdigits2_succ (m : Z) : 0 <= m -> Zdigits2 (m + 1) <= Zdigits2 m + 1.
Proof.
  intros Hm. pose proof (Zdigits2_nonneg m).
  apply Zdigits2_le; [lia|lia|].
  pose proof (Zdigits2_upper m Hm).
  rewrite Z.pow_add_r by lia. simpl (2 ^ 1). lia.
Qed.

Lemma pow2_pos (k : Z) : 0 <= k -> 0 < 2 ^ k.
Proof. intros. apply Z.pow_pos_nonneg; lia. Qed.

(** The first component of [shr_fexp]: mantissa, exponent and their
    magnitude after the shift. *)
Lemma shr_fexp_upper (m e : Z) (l : location) :
  0 <= m ->
  0 <= shr_m (fst (shr_fexp prec emax m e l))
  /\ Zdigits2 (shr_m (fst (shr_fexp prec emax m e l)))
     + snd (shr_fexp prec emax m e l)
     <= Z.max (Zdigits2 m + e) (-1074)
  /\ snd (shr_fexp prec emax m e l) <= Z.max (Zdigits2 m + e) (-1074).
Proof.
  intros Hm.
  pose proof (Float64Facts.shr_fexp_nonneg m e l Hm) as Hn.
  split; [exact Hn|]. revert Hn. unfold shr_fexp, shr.
  pose proof (Zdigits2_nonneg m) as Hd.
  pose proof (Zdigits2_upper m Hm) as Hu.
  unfold fexp, emin, prec, emax.
  set (d := Zdigits2 m) in *.
  destruct (Z.max (d + e - 53) (3 - 1024 - 53) - e) as [|q|q] eqn:Hq;
    cbn [fst snd]; rewrite ?Float64Facts.shr_record_of_loc_m; fold d;
    try lia.
  intros Hn.
  rewrite Float64Facts.iter_pos_shr_m in *
    by (rewrite Float64Facts.shr_record_of_loc_m; lia).
  rewrite Float64Facts.shr_record_of_loc_m in *.
  split; [|lia].
  assert (Hk : Zdigits2 (m / 2 ^ Zpos q) <= Z.max (d - Zpos q) 0).
  { apply Zdigits2_le; [exact Hn|lia|].
    apply Z.div_lt_upper_bound; [apply pow2_pos; lia|].
    rewrite <- Z.pow_add_r by lia.
    apply Z.lt_le_trans with (2 ^ d); [exact Hu|].
    apply Z.pow_le_mono_r; lia. }
  lia.
Qed.

Lemma shr_fexp_lower (m e : Z) (l : location) :
  0 < m -> -1074 <= e ->
  Zdigits2 m + e
  <= Zdigits2 (shr_m (fst (shr_fexp prec emax m e l)))
     + snd (shr_fexp prec emax m e l).
Proof.
  intros Hm He. unfold shr_fexp, shr.
  pose proof (Zdigits2_nonneg m) as Hd.
  pose proof (Zdigits2_lower m Hm) as Hl.
  unfold fexp, emin, prec, emax.
  set (d := Zdigits2 m) in *.
  assert (Hd1 : 1 <= d).
  { subst d. destruct m; simpl in *; lia. }
  destruct (Z.max (d + e - 53) (3 - 1024 - 53) - e) as [|q|q] eqn:Hq;
    cbn [fst snd]; rewrite ?Float64Facts.shr_record_of_loc_m; fold d;
    try lia.
  rewrite Float64Facts.iter_pos_shr_m
    by (rewrite Float64Facts.shr_record_of_loc_m; lia).
  rewrite Float64Facts.shr_record_of_loc_m.
  assert (Hk : d - Zpos q <= Zdigits2 (m / 2 ^ Zpos q)).
  { assert (Hlow : 2 ^ (d - Zpos q - 1) <= m / 2 ^ Zpos q).
    { apply Z.div_le_lower_bound; [apply pow2_pos; lia|].
      rewrite <- Z.pow_add_r by lia.
      replace (Zpos q + (d - Zpos q - 1)) with (d - 1) by lia. exact Hl. }
    apply Zdigits2_ge; [|exact Hlow].
    pose proof (pow2_pos (d - Zpos q - 1) ltac:(lia)). lia. }
  lia.
Qed.

Lemma round_nearest_even_le (m : Z) (l : location) :
  round_nearest_even m l <= m + 1.
Proof.
  destruct l as [|[]]; simpl; try lia. destruct (Z.even m); lia.
Qed.

(** Rounding a mantissa of magnitude at most [B <= 970] gives a zero or a
    finite number of magnitude at most [B + 1]. *)
Lemma binary_round_aux_bounded (sx : bool) (mx ex : Z) (lx : location)
  (B : Z) :
  0 <= mx -> Zdigits2 mx + ex <= B -> -1074 <= B -> B <= 970 ->
  bounded (B + 1) (binary_round_aux prec emax sx mx ex lx).
Proof.
  intros Hm HB HB1 HB2. unfold binary_round_aux.
  pose proof (shr_fexp_upper mx ex lx Hm) as (H1 & M1 & E1).
  destruct (shr_fexp prec emax mx ex lx) as [mrs' e'].
  cbn [fst snd] in H1, M1, E1.
  pose proof (Float64Facts.round_nearest_even_ge (shr_m mrs')
                (loc_of_shr_record mrs')) as Hr1.
  pose proof (round_nearest_even_le (shr_m mrs')
                (loc_of_shr_record mrs')) as Hr2.
  set (m1 := round_nearest_even (shr_m mrs') (loc_of_shr_record mrs')) in *.
  assert (Hm1 : 0 <= m1) by lia.
  assert (D1 : Zdigits2 m1 <= Zdigits2 (shr_m mrs') + 1).
  { destruct (Z.eq_dec m1 0) as [->|Hne].
    - pose proof (Zdigits2_nonneg (shr_m mrs')). simpl. lia.
    - apply Z.le_trans with (Zdigits2 (shr_m mrs' + 1)).
      + apply Zdigits2_mono; lia.
      + apply Zdigits2_succ, H1. }
  pose proof (shr_fexp_upper m1 e' loc_Exact Hm1) as (H2 & M2 & E2).
  destruct (shr_fexp prec emax m1 e' loc_Exact) as [mrs'' e''].
  cbn [fst snd] in H2, M2, E2.
  destruct (shr_m mrs'') as [|m|m] eqn:Em; [exact I| |lia].
  unfold emax, prec.
  replace (e'' <=? 1024 - 53) with true by (symmetry; apply Z.leb_le; lia).
  unfold bounded, magnitude. simpl Zdigits2 in M2. lia.
Qed.

(** Rounding a positive mantissa keeps its magnitude or raises it by
    one. *)
Lemma binary_round_aux_between (sx : bool) (mx ex : Z) (lx : location) :
  0 < mx -> -1074 <= ex -> Zdigits2 mx + ex <= 970 ->
  finite_between (Zdigits2 mx + ex) (Zdigits2 mx + ex + 1)
    (binary_round_aux prec emax sx mx ex lx).
Proof.
  intros Hm He HB.
  pose proof (binary_round_aux_bounded sx mx ex lx (Zdigits2 mx + ex)
                ltac:(lia) ltac:(lia)) as Hup.
  pose proof (Zdigits2_nonneg mx) as Hd.
  specialize (Hup ltac:(lia) HB).
  pose proof (Float64Facts.binary_round_aux_nonzero sx mx ex lx Hm He) as Hnz.
  revert Hup Hnz. unfold binary_round_aux.
  pose proof (shr_fexp_lower mx ex lx Hm He) as L1.
  pose proof (Float64Facts.shr_fexp_pos mx ex lx Hm He) as [P1 Q1].
  destruct (shr_fexp prec emax mx ex lx) as [mrs' e'].
  cbn [fst snd] in L1, P1, Q1.
  pose proof (Float64Facts.round_nearest_even_ge (shr_m mrs')
                (loc_of_shr_record mrs')) as Hr1.
  set (m1 := round_nearest_even (shr_m mrs') (loc_of_shr_record mrs')) in *.
  assert (D1 : Zdigits2 (shr_m mrs') <= Zdigits2 m1)
    by (apply Zdigits2_mono; lia).
  pose proof (shr_fexp_lower m1 e' loc_Exact ltac:(lia) ltac:(lia)) as L2.
  pose proof (Float64Facts.shr_fexp_pos m1 e' loc_Exact ltac:(lia)
                ltac:(lia)) as [P2 Q2].
  destruct (shr_fexp prec emax m1 e' loc_Exact) as [mrs'' e''].
  cbn [fst snd] in L2, P2, Q2.
  destruct (shr_m mrs'') as [|m|m] eqn:Em; try lia.
  destruct (e'' <=? emax - prec); cbn [bounded signed_nonzero finite_between];
    [|tauto].
  unfold magnitude. simpl Zdigits2 in L2. intros Hup _. lia.
Qed.

Lemma digits2_iter_xO (m d : positive) :
  Zpos (digits2_pos (Pos.iter xO m d)) = Zpos (digits2_pos m) + Zpos d.
Proof.
  induction d as [|d IH] using Pos.peano_ind.
  - simpl. lia.
  - rewrite Pos.iter_succ. simpl digits2_pos. lia.
Qed.

Lemma shl_align_magnitude (mx : positive) (ex ex' : Z) :
  magnitude (fst (shl_align mx ex ex')) (snd (shl_align mx ex ex'))
  = magnitude mx ex
  /\ snd (shl_align mx ex ex') = Z.min ex ex'.
Proof.
  unfold shl_align, magnitude.
  destruct (ex' - ex) as [|d|d] eqn:E; cbn [fst snd]; try lia.
  rewrite digits2_iter_xO. lia.
Qed.

Lemma binary_round_bounded (sx : bool) (mx : positive) (ex B : Z) :
  magnitude mx ex <= B -> -1074 <= B -> B <= 970 ->
  bounded (B + 1) (binary_round prec emax sx mx ex).
Proof.
  intros HB H1 H2. unfold binary_round.
  pose proof (shl_align_magnitude mx ex
                (fexp prec emax (Zpos (digits2_pos mx) + ex))) as [Hm _].
  destruct (shl_align mx ex _) as [mz ez]. cbn [fst snd] in Hm.
  apply binary_round_aux_bounded; try lia.
  unfold magnitude in *. simpl Zdigits2. lia.
Qed.

Lemma binary_round_between (sx : bool) (mx : positive) (ex : Z) :
  -1074 <= ex -> magnitude mx ex <= 970 ->
  finite_between (magnitude mx ex) (magnitude mx ex + 1)
    (binary_round prec emax sx mx ex).
Proof.
  intros He HB. unfold binary_round.
  pose proof (shl_align_magnitude mx ex
                (fexp prec emax (Zpos (digits2_pos mx) + ex))) as [Hm Hs].
  pose proof (Float64Facts.fexp_ge (Zpos (digits2_pos mx) + ex)) as Hf.
  destruct (shl_align mx ex _) as [mz ez]. cbn [fst snd] in Hm, Hs.
  rewrite <- Hm. unfold magnitude.
  change (Zpos (digits2_pos mz)) with (Zdigits2 (Zpos mz)).
  apply binary_round_aux_between; try lia.
  unfold magnitude in *. simpl Zdigits2. lia.
Qed.

Lemma of_int_bounded (n k : Z) :
  0 <= k -> k <= 970 -> Z.abs n < 2 ^ k -> bounded (k + 1) (of_int n).
Proof.
  intros Hk1 Hk2 Hn. unfold of_int, binary_normalize.
  destruct n as [|p|p]; [exact I| |];
    (apply binary_round_bounded; [|lia|lia]);
    unfold magnitude; rewrite Z.add_0_r;
    change (Zpos (digits2_pos p)) with (Zdigits2 (Zpos p));
    apply Zdigits2_le; lia.
Qed.

Lemma of_int_between (n k : Z) :
  0 < n -> k <= 970 -> n < 2 ^ k ->
  exists m e, of_int n = S754_finite false m e
              /\ 1 <= magnitude m e <= k + 1 /\ -1074 <= e.
Proof.
  intros Hn Hk Hlt.
  assert (Hk0 : 0 <= k).
  { destruct (Z_lt_le_dec k 0) as [Hneg|]; [|lia].
    rewrite Z.pow_neg_r in Hlt by lia. lia. }
  pose proof (Float64Facts.of_int_nonzero n ltac:(lia)) as Hs.
  replace (n <? 0) with false in Hs by (symmetry; apply Z.ltb_ge; lia).
  revert Hs. unfold of_int, binary_normalize.
  destruct n as [|p|p]; try lia.
  assert (Hd : Zdigits2 (Zpos p) <= k) by (apply Zdigits2_le; lia).
  pose proof (binary_round_between false p 0 ltac:(lia)) as Hb.
  unfold magnitude in Hb. rewrite Z.add_0_r in Hb.
  simpl Zdigits2 in Hd. specialize (Hb ltac:(lia)).
  destruct (binary_round prec emax false p 0) as [s|s| |s m e];
    cbn [finite_between signed_nonzero] in *; try tauto.
  intros [-> _]. exists m, e. split; [reflexivity|].
  pose proof (Pos2Z.is_pos (digits2_pos p)). lia.
Qed.

Lemma neg_bounded (B : Z) (x : float) : bounded B x -> bounded B (neg x).
Proof. destruct x; simpl; auto. Qed.

Lemma bounded_weaken (B B' : Z) (x : float) :
  B <= B' -> bounded B x -> bounded B' x.
Proof. destruct x; simpl; auto. lia. Qed.

Lemma mul_bounded (x y : float) (B1 B2 : Z) :
  bounded B1 x -> bounded B2 y ->
  -1074 <= B1 + B2 -> B1 + B2 <= 970 ->
  bounded (B1 + B2 + 1) (mul x y).
Proof.
  destruct x as [sx|sx| |sx mx ex], y as [sy|sy| |sy my ey];
    cbn [bounded mul SFmul]; try tauto.
  intros H1 H2 Hl Hu. unfold mul, SFmul.
  apply binary_round_aux_bounded; try lia.
  unfold magnitude in *.
  assert (Hd : Zdigits2 (Zpos (mx * my))
               <= Zpos (digits2_pos mx) + Zpos (digits2_pos my)).
  { apply Zdigits2_le; try lia.
    rewrite Pos2Z.inj_mul, Z.pow_add_r by lia.
    pose proof (digits2_pos_upper mx). pose proof (digits2_pos_upper my).
    apply Z.mul_lt_mono_nonneg; lia. }
  lia.
Qed.

Lemma aligned_upper (m : positive) (e ez B : Z) :
  ez <= e -> magnitude m e <= B ->
  Zpos (fst (shl_align m e ez)) < 2 ^ (B - ez).
Proof.
  intros He HB.
  pose proof (shl_align_magnitude m e ez) as [Hm Hs].
  destruct (shl_align m e ez) as [a ea]. cbn [fst snd] in *.
  unfold magnitude in *.
  pose proof (digits2_pos_upper a) as Hu.
  apply Z.lt_le_trans with (2 ^ Zpos (digits2_pos a)); [exact Hu|].
  apply Z.pow_le_mono_r; lia.
Qed.

Lemma binary_normalize_bounded (z ez B : Z) :
  Z.abs z < 2 ^ (B - ez + 1) -> 0 <= B - ez + 1 ->
  -1074 <= B + 1 -> B + 1 <= 970 ->
  bounded (B + 2) (binary_normalize prec emax z ez false).
Proof.
  intros Hz H0 H1 H2. unfold binary_normalize.
  destruct z as [|p|p]; [exact I| |];
    (replace (B + 2) with (B + 1 + 1) by lia;
     apply binary_round_bounded; [|lia|lia]);
    unfold magnitude;
    change (Zpos (digits2_pos p)) with (Zdigits2 (Zpos p));
    (assert (Zdigits2 (Zpos p) <= B - ez + 1)
       by (apply Zdigits2_le; lia)); lia.
Qed.

Lemma add_bounded (x y : float) (B : Z) :
  bounded B x -> bounded B y -> -1074 <= B -> B <= 968 ->
  bounded (B + 2) (add x y).
Proof.
  destruct x as [sx|sx| |sx mx ex], y as [sy|sy| |sy my ey];
    cbn [bounded]; try tauto; intros H1 H2 Hl Hu.
  - destruct sx, sy; exact I.
  - unfold add, SFadd. cbn [bounded]. lia.
  - unfold add, SFadd. cbn [bounded]. lia.
  - unfold add, SFadd.
    pose proof (aligned_upper mx ex (Z.min ex ey) B ltac:(lia) H1) as A1.
    pose proof (aligned_upper my ey (Z.min ex ey) B ltac:(lia) H2) as A2.
    assert (Hpos : 0 < B - Z.min ex ey).
    { unfold magnitude in *.
      pose proof (Pos2Z.is_pos (digits2_pos mx)).
      pose proof (Pos2Z.is_pos (digits2_pos my)). lia. }
    apply binary_normalize_bounded; try lia.
    replace (B - Z.min ex ey + 1) with (1 + (B - Z.min ex ey)) by lia.
    rewrite Z.pow_add_r by lia. simpl (2 ^ 1).
    set (a1 := Zpos (fst (shl_align mx ex (Z.min ex ey)))) in *.
    set (a2 := Zpos (fst (shl_align my ey (Z.min ex ey)))) in *.
    assert (0 < a1) by (subst a1; lia).
    assert (0 < a2) by (subst a2; lia).
    unfold cond_Zopp. destruct sx, sy; lia.
Qed.

Lemma div_core_bounded (m1 m2 : positive) (e1 e2 : Z) :
  let r := SFdiv_core_binary prec emax (Zpos m1) e1 (Zpos m2) e2 in
  0 <= fst (fst r)
  /\ Zdigits2 (fst (fst r)) + snd (fst r)
     <= Z.max (magnitude m1 e1 - magnitude m2 e2 + 1) (-1074).
Proof.
  unfold SFdiv_core_binary, magnitude.
  change (Zdigits2 (Zpos m1)) with (Zpos (digits2_pos m1)).
  change (Zdigits2 (Zpos m2)) with (Zpos (digits2_pos m2)).
  pose proof (digits2_pos_upper m1) as U1.
  pose proof (Float64Facts.digits2_pos_lower m2) as L2.
  set (d1 := Zpos (digits2_pos m1)) in *.
  set (d2 := Zpos (digits2_pos m2)) in *.
  assert (Hd1 : 0 < d1) by (subst d1; lia).
  assert (Hd2 : 0 < d2) by (subst d2; lia).
  set (e' := Z.min (fexp prec emax (d1 + e1 - (d2 + e2))) (e1 - e2)).
  assert (He' : e' <= e1 - e2 /\ e' <= Z.max (d1 + e1 - (d2 + e2) - 53) (-1074)).
  { subst e'. unfold fexp, emin, prec, emax. lia. }
  clearbody e'.
  set (s := e1 - e2 - e') in *.
  assert (Hs : 0 <= s) by (subst s; lia).
  set (m' := match s with Z0 => Zpos m1 | Zpos _ => _ | Zneg _ => 0 end).
  assert (Hm' : 0 <= m' < 2 ^ (d1 + s)).
  { subst m'. destruct s as [|p|p] eqn:Es; try lia.
    - rewrite Z.add_0_r. lia.
    - rewrite Z.shiftl_mul_pow2 by lia.
      rewrite Z.pow_add_r by lia.
      pose proof (pow2_pos (Zpos p) ltac:(lia)). nia. }
  clearbody m'.
  pose proof (Z.div_pos m' (Zpos m2) ltac:(lia) ltac:(lia)) as Hq.
  assert (Hk : m' / Zpos m2 < 2 ^ Z.max (d1 + s - d2 + 1) 0).
  { apply Z.div_lt_upper_bound; [lia|].
    apply Z.lt_le_trans with (2 ^ (d1 + s)); [lia|].
    apply Z.le_trans
      with (2 ^ (d2 - 1) * 2 ^ Z.max (d1 + s - d2 + 1) 0).
    - rewrite <- Z.pow_add_r by lia. apply Z.pow_le_mono_r; lia.
    - apply Z.mul_le_mono_nonneg_r; [|exact L2].
      apply Z.lt_le_incl, pow2_pos. lia. }
  unfold Z.div in Hq, Hk.
  destruct (Z.div_eucl m' (Zpos m2)) as [q r]. cbn [fst snd].
  split; [exact Hq|].
  assert (Zdigits2 q <= Z.max (d1 + s - d2 + 1) 0)
    by (apply Zdigits2_le; lia).
  lia.
Qed.

Lemma div_bounded (x y : float) (B L L' : Z) :
  bounded B x -> finite_between L L' y ->
  -1074 <= B - L + 1 -> B - L + 1 <= 970 ->
  bounded (B - L + 2) (div x y).
Proof.
  destruct x as [sx|sx| |sx mx ex], y as [sy|sy| |sy my ey];
    cbn [bounded finite_between]; try tauto; intros H1 [H2 _] Hl Hu;
    try exact I.
  unfold div, SFdiv.
  pose proof (div_core_bounded mx my ex ey) as [Hq Hm]. cbv zeta in Hq, Hm.
  destruct (SFdiv_core_binary prec emax (Zpos mx) ex (Zpos my) ey)
    as [[q e'] l]. cbn [fst snd] in Hq, Hm.
  replace (B - L + 2) with (B - L + 1 + 1) by lia.
  apply binary_round_aux_bounded; lia.
Qed.

Lemma sqrt_core_magnitude (m : positive) (e : Z) :
  -1074 <= e ->
  let r := SFsqrt_core_binary prec emax (Zpos m) e in
  Zdigits2 (fst (fst r)) + snd (fst r) = (magnitude m e + 1) / 2.
Proof.
  intros He. unfold SFsqrt_core_binary, magnitude.
  change (Zdigits2 (Zpos m)) with (Zpos (digits2_pos m)).
  pose proof (digits2_pos_upper m) as U.
  pose proof (Float64Facts.digits2_pos_lower m) as L.
  set (d := Zpos (digits2_pos m)) in *.
  assert (Hd : 0 < d) by (subst d; lia).
  set (e' := Z.min _ _).
  assert (He' : 2 * e' <= e).
  { subst e'. rewrite (Z.div2_div e).
    pose proof (Z.mul_div_le e 2 ltac:(lia)). lia. }
  clearbody e'.
  set (s := e - 2 * e') in *.
  assert (Hs : 0 <= s) by (subst s; lia).
  set (m' := match s with Z0 => Zpos m | Zpos _ => _ | Zneg _ => 0 end).
  assert (Hm' : 2 ^ (d + s - 1) <= m' < 2 ^ (d + s)).
  { subst m'. destruct s as [|p|p] eqn:Es; try lia.
    - rewrite !Z.add_0_r. lia.
    - rewrite Z.shiftl_mul_pow2 by lia.
      replace (d + Zpos p - 1) with (d - 1 + Zpos p) by lia.
      rewrite !Z.pow_add_r by lia.
      pose proof (pow2_pos (Zpos p) ltac:(lia)). nia. }
  clearbody m'.
  assert (Hm0 : 0 < m')
    by (pose proof (pow2_pos (d + s - 1) ltac:(lia)); lia).
  pose proof (Z.sqrtrem_spec m' ltac:(lia)) as Hspec.
  destruct (Z.sqrtrem m') as [q r]. cbn [fst snd].
  destruct Hspec as [Hqr Hr].
  assert (Hq0 : 0 < q) by nia.
  set (k := (d + s + 1) / 2).
  set (j := (d + s - 1) / 2).
  assert (Hk : 0 <= j /\ j + 1 = k /\ d + s <= 2 * k /\ 2 * j <= d + s - 1).
  { subst k j.
    pose proof (Z.div_mod (d + s + 1) 2 ltac:(lia)).
    pose proof (Z.mod_pos_bound (d + s + 1) 2 ltac:(lia)).
    pose proof (Z.div_mod (d + s - 1) 2 ltac:(lia)).
    pose proof (Z.mod_pos_bound (d + s - 1) 2 ltac:(lia)).
    lia. }
  assert (Hup : q < 2 ^ k).
  { destruct (Z_lt_le_dec q (2 ^ k)) as [|Hge]; [assumption|exfalso].
    assert (H1 : 2 ^ (d + s) <= 2 ^ (k + k))
      by (apply Z.pow_le_mono_r; lia).
    rewrite (Z.pow_add_r 2 k k) in H1 by lia.
    pose proof (pow2_pos k ltac:(lia)) as Hp.
    assert (H2 : 2 ^ k * 2 ^ k <= q * q)
      by (apply Z.mul_le_mono_nonneg; lia).
    lia. }
  assert (Hlo : 2 ^ j <= q).
  { destruct (Z_lt_le_dec q (2 ^ j)) as [Hlt|]; [exfalso|assumption].
    assert (H1 : 2 ^ (j + j) <= 2 ^ (d + s - 1))
      by (apply Z.pow_le_mono_r; lia).
    rewrite (Z.pow_add_r 2 j j) in H1 by lia.
    pose proof (pow2_pos j ltac:(lia)) as Hp.
    assert (H2 : (q + 1) * (q + 1) <= 2 ^ j * 2 ^ j)
      by (apply Z.mul_le_mono_nonneg; lia).
    lia. }
  assert (D1 : Zdigits2 q <= k) by (apply Zdigits2_le; lia).
  assert (D2 : k <= Zdigits2 q).
  { apply Zdigits2_ge; [lia|]. replace (k - 1) with j by lia. exact Hlo. }
  clear Hup Hlo Hqr Hr Hm' U L.
  pose proof (Z.div_mod (d + e + 1) 2 ltac:(lia)).
  pose proof (Z.mod_pos_bound (d + e + 1) 2 ltac:(lia)).
  lia.
Qed.

(** The square root of a finite positive number of magnitude at least 1
    is finite, of about half the magnitude. *)
Lemma sqrt_between (m : positive) (e B : Z) :
  -1074 <= e -> 1 <= magnitude m e -> magnitude m e <= B -> B <= 970 ->
  finite_between 1 ((B + 1) / 2 + 1) (sqrt (S754_finite false m e)).
Proof.
  intros He H1 H2 HB. unfold sqrt, SFsqrt.
  pose proof (Float64Facts.sqrt_core_pos m e He) as [Hq He'].
  pose proof (sqrt_core_magnitude m e He) as Hm. cbv zeta in Hm.
  destruct (SFsqrt_core_binary prec emax (Zpos m) e) as [[q e'] l].
  cbn [fst snd] in *.
  pose proof (binary_round_aux_between false q e' l Hq He') as Hb.
  pose proof (Z.div_mod (magnitude m e + 1) 2 ltac:(lia)).
  pose proof (Z.mod_pos_bound (magnitude m e + 1) 2 ltac:(lia)).
  pose proof (Z.div_mod (B + 1) 2 ltac:(lia)).
  pose proof (Z.mod_pos_bound (B + 1) 2 ltac:(lia)).
  rewrite Hm in Hb. specialize (Hb ltac:(lia)).
  destruct (binary_round_aux prec emax false q e' l);
    cbn [finite_between] in *; try tauto.
  lia.
Qed.

Lemma to_int_bounded (B : Z) (x : float) :
  bounded B x -> exists z, to_int x = Returns z.
Proof.
  destruct x; cbn [bounded to_int]; try tauto; intros _; eexists;
    reflexivity.
Qed.

End Float64Magnitude.

(** ** The binary64 square root of a 31-bit integer, in closed form *)

Module Float64Sqrt.
Import Float64.

Lemma iter_xO_value (p k : positive) :
  Zpos (Pos.iter xO p k) = Zpos p * 2 ^ Zpos k.
Proof.
  induction k as [|k IH] using Pos.peano_ind.
  - simpl Pos.iter. change (2 ^ 1) with 2. lia.
  - rewrite Pos.iter_succ, Pos2Z.inj_xO, IH, Pos2Z.inj_succ.
    rewrite Z.pow_succ_r by lia. lia.
Qed.

Lemma loc_of_shr_record_of_loc (m : Z) (l : location) :
  loc_of_shr_record (shr_record_of_loc m l) = l.
Proof. destruct l as [|[]]; reflexivity. Qed.

(** A mantissa of 53 binary digits is not shifted. *)
Lemma shr_fexp_canonical (m e : Z) (l : location) :
  Zdigits2 m = 53 -> -1074 <= e ->
  shr_fexp prec emax m e l = (shr_record_of_loc m l, e).
Proof.
  intros Hd He. unfold shr_fexp. rewrite Hd.
  replace (fexp prec emax (53 + e) - e) with 0
    by (unfold fexp, emin, prec, emax; lia).
  reflexivity.
Qed.

(** Rounding a mantissa of 53 digits that stays at 53 digits keeps the
    exponent. *)
Lemma binary_round_aux_canonical (s : bool) (q e : Z) (l : location) :
  0 < q -> Zdigits2 q = 53 -> Zdigits2 (round_nearest_even q l) = 53 ->
  -1074 <= e -> e <= 971 ->
  exists m,
    binary_round_aux prec emax s q e l = S754_finite s m e
    /\ Zpos m = round_nearest_even q l.
Proof.
  intros Hq0 Hq Hr He1 He2. unfold binary_round_aux.
  pose proof (Float64Facts.round_nearest_even_ge q l) as Hge.
  rewrite (shr_fexp_canonical q e l Hq He1).
  rewrite loc_of_shr_record_of_loc, Float64Facts.shr_record_of_loc_m.
  rewrite (shr_fexp_canonical _ e loc_Exact Hr He1).
  rewrite Float64Facts.shr_record_of_loc_m.
  destruct (round_nearest_even q l) as [|m|m] eqn:E; try lia.
  unfold emax, prec.
  replace (e <=? 1024 - 53) with true by (symmetry; apply Z.leb_le; lia).
  exists m. split; reflexivity.
Qed.

(** The conversion of a positive integer below [2^53] is exact: the
    integer shifted to 53 digits. *)
Lemma of_int_canonical (n : Z) :
  0 < n -> n < 2 ^ 52 ->
  exists m,
    of_int n = S754_finite false m (Zdigits2 n - 53)
    /\ Zpos m = n * 2 ^ (53 - Zdigits2 n)
    /\ Zpos (digits2_pos m) = 53.
Proof.
  intros Hn Hlt. destruct n as [|p|p]; try lia.
  assert (Hd : Zdigits2 (Zpos p) <= 52)
    by (apply Float64Magnitude.Zdigits2_le; lia).
  simpl Zdigits2 in *.
  set (d := Zpos (digits2_pos p)) in *.
  assert (Hd1 : 0 < d) by (subst d; lia).
  unfold of_int, binary_normalize, binary_round, shl_align.
  rewrite Z.add_0_r. fold d.
  replace (fexp prec emax d) with (d - 53)
    by (unfold fexp, emin, prec, emax; lia).
  destruct (d - 53 - 0) as [|k|k] eqn:Ek; try lia.
  assert (Hdig : Zpos (digits2_pos (Pos.iter xO p k)) = 53)
    by (rewrite Float64Magnitude.digits2_iter_xO; fold d; lia).
  destruct (binary_round_aux_canonical false (Zpos (Pos.iter xO p k))
              (d - 53) loc_Exact) as (m & Em & Vm); try lia;
    try exact Hdig.
  simpl round_nearest_even in Vm. injection Vm as ->.
  exists (Pos.iter xO p k). split; [exact Em|]. split; [|exact Hdig].
  rewrite iter_xO_value. f_equal. f_equal. lia.
Qed.

Lemma half_facts (x : Z) : 2 * (x / 2) <= x < 2 * (x / 2) + 2.
Proof.
  pose proof (Z.div_mod x 2 ltac:(lia)).
  pose proof (Z.mod_pos_bound x 2 ltac:(lia)). lia.
Qed.

(** The integer square root the core computes, its exponent, for a
    canonical mantissa of magnitude [d]. *)
Lemma sqrt_core_form (m : positive) (d : Z) :
  Zpos (digits2_pos m) = 53 -> 1 <= d -> d <= 52 ->
  exists l,
    SFsqrt_core_binary prec emax (Zpos m) (d - 53)
    = (Z.sqrt (Zpos m * 2 ^ (d + 53 - 2 * ((d + 1) / 2))),
       (d + 1) / 2 - 53, l).
Proof.
  intros Hm Hd1 Hd2. unfold SFsqrt_core_binary.
  change (Zdigits2 (Zpos m)) with (Zpos (digits2_pos m)). rewrite Hm.
  pose proof (half_facts (d + 1)) as Hk.
  pose proof (half_facts (d - 53)) as He.
  set (k := (d + 1) / 2) in *.
  replace (53 + (d - 53) + 1) with (d + 1) by lia.
  rewrite !Z.div2_div. fold k.
  replace (Z.min (fexp prec emax k) ((d - 53) / 2)) with (k - 53)
    by (unfold fexp, emin, prec, emax; lia).
  destruct (d - 53 - 2 * (k - 53)) as [|s|s] eqn:Es; try lia.
  replace (d + 53 - 2 * k) with (Zpos s) by lia.
  rewrite Z.shiftl_mul_pow2 by lia.
  pose proof (Z.sqrtrem_sqrt (Zpos m * 2 ^ Zpos s)) as Hq.
  destruct (Z.sqrtrem (Zpos m * 2 ^ Zpos s)) as [q r].
  cbn [fst] in Hq. subst q. eexists. reflexivity.
Qed.

(** The square root of an integer [0 < n < 2^31]: with [k] half the
    number of binary digits of [n], rounded up, the mantissa is the
    integer square root of [n * 2^(106 - 2k)], or one more, and the
    exponent is [k - 53]. *)
Lemma sqrt_of_int_form (n : Z) :
  0 < n -> n < 2 ^ 31 ->
  exists m,
    sqrt (of_int n)
    = S754_finite false m ((Zdigits2 n + 1) / 2 - 53)
    /\ Z.sqrt (n * 2 ^ (106 - 2 * ((Zdigits2 n + 1) / 2))) <= Zpos m
    /\ Zpos m
       <= Z.sqrt (n * 2 ^ (106 - 2 * ((Zdigits2 n + 1) / 2))) + 1
    /\ Zpos m < 2 ^ 53.
Proof.
  intros Hn Hlt.
  assert (Hd : Zdigits2 n <= 31)
    by (apply Float64Magnitude.Zdigits2_le; lia).
  assert (Hd1 : 1 <= Zdigits2 n).
  { destruct n; simpl; lia. }
  pose proof (Float64Magnitude.Zdigits2_upper n ltac:(lia)) as Hup.
  set (d := Zdigits2 n) in *.
  pose proof (half_facts (d + 1)) as Hk.
  set (k := (d + 1) / 2) in *.
  destruct (of_int_canonical n Hn) as (m0 & E0 & V0 & D0).
  { apply Z.lt_trans with (2 ^ 31); [exact Hlt|].
    apply Z.pow_lt_mono_r; lia. }
  fold d in E0, V0. rewrite E0.
  destruct (sqrt_core_form m0 d D0 Hd1 ltac:(lia)) as (l & Ec).
  fold k in Ec.
  pose proof (Float64Magnitude.sqrt_core_magnitude m0 (d - 53)
                ltac:(lia)) as Hmag.
  cbv zeta in Hmag. rewrite Ec in Hmag. cbn [fst snd] in Hmag.
  unfold magnitude in Hmag. rewrite D0 in Hmag.
  replace (53 + (d - 53) + 1) with (d + 1) in Hmag by lia.
  fold k in Hmag.
  assert (EA : Zpos m0 * 2 ^ (d + 53 - 2 * k) = n * 2 ^ (106 - 2 * k)).
  { rewrite V0, <- Z.mul_assoc, <- Z.pow_add_r by lia.
    f_equal. f_equal. lia. }
  rewrite EA in Ec, Hmag.
  set (A := n * 2 ^ (106 - 2 * k)) in *.
  set (q := Z.sqrt A) in *.
  assert (Hq53 : Zdigits2 q = 53) by lia.
  assert (Hq0 : 0 < q).
  { pose proof (Z.sqrt_nonneg A) as Hs0. fold q in Hs0.
    destruct (Z.eq_dec q 0) as [Ez|]; [|lia].
    rewrite Ez in Hq53. discriminate Hq53. }
  (* no carry: q + 1 < 2^53 *)
  assert (Hnc : q + 1 < 2 ^ 53).
  { assert (HA0 : 0 <= A).
    { subst A. apply Z.mul_nonneg_nonneg; [lia|].
      apply Z.lt_le_incl, Float64Magnitude.pow2_pos. lia. }
    pose proof (Z.sqrt_spec A HA0) as [Hs _]. fold q in Hs.
    assert (HP : 2 ^ 74 <= 2 ^ (106 - 2 * k))
      by (apply Z.pow_le_mono_r; lia).
    assert (HQ : 2 ^ d <= 2 ^ (2 * k)) by (apply Z.pow_le_mono_r; lia).
    assert (HPQ : 2 ^ (2 * k) * 2 ^ (106 - 2 * k) = 2 ^ 106)
      by (rewrite <- Z.pow_add_r by lia; f_equal; lia).
    assert (HAle : A <= 2 ^ 106 - 2 ^ 74).
    { subst A.
      assert (n * 2 ^ (106 - 2 * k)
              <= (2 ^ (2 * k) - 1) * 2 ^ (106 - 2 * k))
        by (apply Z.mul_le_mono_nonneg_r; lia).
      lia. }
    destruct (Z_lt_le_dec (q + 1) (2 ^ 53)) as [|Hge]; [assumption|].
    exfalso.
    assert (Hsq : (2 ^ 53 - 1) * (2 ^ 53 - 1) <= q * q)
      by (apply Z.mul_le_mono_nonneg; lia).
    change (2 ^ 53) with 9007199254740992 in Hsq.
    change (2 ^ 106) with 81129638414606681695789005144064 in HAle.
    change (2 ^ 74) with 18889465931478580854784 in HAle.
    lia. }
  assert (Hlow : 2 ^ 52 <= q).
  { pose proof (Float64Magnitude.Zdigits2_lower q Hq0) as H.
    rewrite Hq53 in H. exact H. }
  pose proof (Float64Facts.round_nearest_even_ge q l) as Hge.
  pose proof (Float64Magnitude.round_nearest_even_le q l) as Hle.
  assert (Hr53 : Zdigits2 (round_nearest_even q l) = 53).
  { apply Z.le_antisymm.
    - apply Float64Magnitude.Zdigits2_le; lia.
    - apply Float64Magnitude.Zdigits2_ge; [lia|].
      change (53 - 1) with 52. lia. }
  unfold sqrt, SFsqrt. rewrite Ec.
  destruct (binary_round_aux_canonical false q (k - 53) l Hq0 Hq53 Hr53)
    as (m & Em & Vm); try lia.
  exists m. split; [exact Em|]. lia.
Qed.

(** Among integers below [2^31] the binary64 square root is strictly
    increasing: rounding never merges two of them. *)
Lemma sqrt_of_int_lt (a b : Z) :
  0 <= a -> a < b -> b < 2 ^ 31 ->
  ltb (sqrt (of_int a)) (sqrt (of_int b)) = true.
Proof.
  intros Ha Hab Hb.
  destruct (Z.eq_dec a 0) as [->|Hnz].
  { change (sqrt (of_int 0)) with (of_int 0).
    apply Float64Facts.positive_ltb_zero, Float64Facts.sqrt_of_int_pos.
    lia. }
  destruct (sqrt_of_int_form a ltac:(lia) ltac:(lia))
    as (ma & Ea & La & Ua & Ba).
  destruct (sqrt_of_int_form b ltac:(lia) Hb) as (mb & Eb & Lb & Ub & _).
  rewrite Ea, Eb.
  pose proof (Float64Magnitude.Zdigits2_mono a b ltac:(lia) ltac:(lia))
    as Hmono.
  assert (Hdb : Zdigits2 b <= 31)
    by (apply Float64Magnitude.Zdigits2_le; lia).
  assert (Hda : 1 <= Zdigits2 a) by (destruct a; simpl; lia).
  pose proof (half_facts (Zdigits2 a + 1)) as Hka.
  pose proof (half_facts (Zdigits2 b + 1)) as Hkb.
  set (ka := (Zdigits2 a + 1) / 2) in *.
  set (kb := (Zdigits2 b + 1) / 2) in *.
  assert (Hk : ka <= kb) by (apply Z.div_le_mono; lia).
  unfold ltb, SFltb, SFcompare.
  destruct (Z.compare_spec (ka - 53) (kb - 53)) as [Ek|Ek|Ek];
    [|reflexivity|lia].
  assert (Ekk : kb = ka) by lia. rewrite Ekk in Lb, Ub.
  set (P := 2 ^ (106 - 2 * ka)) in *.
  assert (HP : 2 ^ 74 <= P) by (apply Z.pow_le_mono_r; lia).
  assert (HA0 : 0 <= a * P) by (apply Z.mul_nonneg_nonneg; lia).
  assert (HB0 : 0 <= b * P) by (apply Z.mul_nonneg_nonneg; lia).
  pose proof (Z.sqrt_spec (a * P) HA0) as [Hsa _].
  pose proof (Z.sqrt_spec (b * P) HB0) as [_ Hsb].
  pose proof (Z.sqrt_nonneg (a * P)) as Hqa0.
  pose proof (Z.sqrt_nonneg (b * P)) as Hqb0.
  set (qa := Z.sqrt (a * P)) in *. set (qb := Z.sqrt (b * P)) in *.
  assert (Hqa : qa < 2 ^ 53) by lia.
  assert (Hgap : qa + 2 <= qb).
  { destruct (Z_le_gt_dec (qa + 2) qb) as [|Hgt]; [assumption|].
    exfalso.
    assert (Hab' : a * P + P <= b * P).
    { replace (a * P + P) with ((a + 1) * P) by ring.
      apply Z.mul_le_mono_nonneg_r; lia. }
    assert (Hsq : Z.succ qb * Z.succ qb <= (qa + 2) * (qa + 2))
      by (apply Z.mul_le_mono_nonneg; lia).
    change (2 ^ 74) with 18889465931478580854784 in HP.
    change (2 ^ 53) with 9007199254740992 in Hqa.
    lia. }
  assert (Hlt : (ma < mb)%positive) by lia.
  unfold Pos.lt in Hlt. rewrite Pos.compare_cont_spec, Hlt. reflexivity.
Qed.

End Float64Sqrt.

(** ** Signs in binary64 arithmetic *)

Module Float64Sign.
Import Float64.

Lemma binary_round_aux_opp (s : bool) (m e : Z) (l : location) :
  binary_round_aux prec emax (negb s) m e l
  = neg (binary_round_aux prec emax s m e l).
Proof.
  unfold binary_round_aux.
  destruct (shr_fexp prec emax m e l) as [mrs' e'].
  destruct (shr_fexp prec emax _ e' loc_Exact) as [mrs'' e''].
  destruct (shr_m mrs'') as [|p|p]; [reflexivity| |reflexivity].
  destruct (e'' <=? emax - prec); reflexivity.
Qed.

Lemma xorb_negb_l (a b : bool) : xorb (negb a) b = negb (xorb a b).
Proof. destruct a, b; reflexivity. Qed.

Lemma neg_neg (x : float) : neg (neg x) = x.
Proof. destruct x as [s|s| |s m e]; cbn; rewrite ?negb_involutive; reflexivity. Qed.

Lemma div_neg_l (a b : float) : div (neg a) b = neg (div a b).
Proof.
  destruct a as [sa|sa| |sa ma ea], b as [sb|sb| |sb mb eb];
    cbn [neg SFopp div SFdiv]; rewrite ?xorb_negb_l; try reflexivity.
  destruct (SFdiv_core_binary prec emax (Zpos ma) ea (Zpos mb) eb)
    as [[mz ez] lz].
  apply binary_round_aux_opp.
Qed.

Lemma mul_neg_l (a b : float) : mul (neg a) b = neg (mul a b).
Proof.
  destruct a as [sa|sa| |sa ma ea], b as [sb|sb| |sb mb eb];
    cbn [neg SFopp mul SFmul]; rewrite ?xorb_negb_l; try reflexivity.
  apply binary_round_aux_opp.
Qed.

(** [a - b] is [a + (-b)], to the bit. *)
Lemma sub_add_neg (a b : float) : sub a b = add a (neg b).
Proof.
  destruct a as [sa|sa| |sa ma ea], b as [sb|sb| |sb mb eb];
    cbn [neg SFopp sub SFsub add SFadd]; try reflexivity;
    destruct sa, sb; reflexivity.
Qed.

Lemma add_sub_neg (a b : float) : add a b = sub a (neg b).
Proof. rewrite sub_add_neg, neg_neg. reflexivity. Qed.

Lemma binary_round_opp (s : bool) (m : positive) (e : Z) :
  binary_round prec emax (negb s) m e
  = neg (binary_round prec emax s m e).
Proof.
  unfold binary_round.
  destruct (shl_align m e _) as [mz ez]. apply binary_round_aux_opp.
Qed.

(** The conversion of an integer other than zero commutes with the
    change of sign. *)
Lemma of_int_opp (z : Z) : z <> 0 -> of_int (- z) = neg (of_int z).
Proof.
  intros Hz. unfold of_int, binary_normalize.
  destruct z as [|p|p]; [congruence| |]; cbn [Z.opp].
  - apply (binary_round_opp false).
  - rewrite (binary_round_opp false), neg_neg. reflexivity.
Qed.

End Float64Sign.

(** ** Rounding to nearest, on the scaled values *)

Module Float64Round.
Import Float64.

Lemma multiple_of (m n : Z) : 0 < n -> m mod n = 0 -> exists k, m = k * n.
Proof.
  intros Hn Hm. exists (m / n).
  pose proof (Z.div_mod m n ltac:(lia)). lia.
Qed.

Lemma shr_1_exact (mrs : shr_record) :
  shr_r mrs = false -> shr_s mrs = false -> 0 <= shr_m mrs ->
  shr_m mrs mod 2 = 0 ->
  shr_r (shr_1 mrs) = false /\ shr_s (shr_1 mrs) = false.
Proof.
  destruct mrs as [m r s]; cbn [shr_r shr_s shr_m]. intros -> -> Hm Hd.
  destruct m as [|[q|q|]|q]; cbn; try lia; auto.
  - rewrite Pos2Z.inj_xI in Hd.
    rewrite Z.add_comm, Z.mul_comm, Z.mod_add in Hd by lia.
    discriminate Hd.
  - discriminate Hd.
Qed.

(** Shifting out zeros is exact. *)
Lemma iter_pos_shr_exact (p : positive) :
  forall mrs,
    shr_r mrs = false -> shr_s mrs = false -> 0 <= shr_m mrs ->
    shr_m mrs mod 2 ^ Zpos p = 0 ->
    shr_r (iter_pos shr_1 p mrs) = false
    /\ shr_s (iter_pos shr_1 p mrs) = false.
Proof.
  induction p as [p IH|p IH|]; intros mrs Hr Hs Hm Hd.
  - pose proof (Float64Magnitude.pow2_pos (Zpos p) ltac:(lia)) as HP.
    rewrite Float64Facts.pow2_xI in Hd.
    apply multiple_of in Hd as [k Hk]; [|lia].
    set (P := 2 ^ Zpos p) in *.
    assert (Hk0 : 0 <= k) by nia.
    cbn [iter_pos].
    destruct (shr_1_exact mrs Hr Hs Hm) as [R1 S1].
    { rewrite Hk. replace (k * (2 * (P * P))) with (k * P * P * 2) by ring.
      apply Z.mod_mul. lia. }
    assert (M1 : shr_m (shr_1 mrs) = k * P * P).
    { rewrite Float64Facts.shr_1_m by exact Hm. rewrite Hk.
      replace (k * (2 * (P * P))) with (k * P * P * 2) by ring.
      apply Z.div_mul. lia. }
    destruct (IH (shr_1 mrs) R1 S1) as [R2 S2].
    { rewrite M1. nia. }
    { rewrite M1. apply Z.mod_mul. lia. }
    assert (M2 : shr_m (iter_pos shr_1 p (shr_1 mrs)) = k * P).
    { rewrite Float64Facts.iter_pos_shr_m by (rewrite M1; nia).
      rewrite M1. apply Z.div_mul. lia. }
    apply IH; try assumption.
    + rewrite M2. nia.
    + rewrite M2. apply Z.mod_mul. lia.
  - pose proof (Float64Magnitude.pow2_pos (Zpos p) ltac:(lia)) as HP.
    rewrite Float64Facts.pow2_xO in Hd.
    apply multiple_of in Hd as [k Hk]; [|lia].
    set (P := 2 ^ Zpos p) in *.
    assert (Hk0 : 0 <= k) by nia.
    cbn [iter_pos].
    destruct (IH mrs Hr Hs Hm) as [R2 S2].
    { rewrite Hk. replace (k * (P * P)) with (k * P * P) by ring.
      apply Z.mod_mul. lia. }
    assert (M2 : shr_m (iter_pos shr_1 p mrs) = k * P).
    { rewrite Float64Facts.iter_pos_shr_m by exact Hm.
      rewrite Hk. replace (k * (P * P)) with (k * P * P) by ring.
      apply Z.div_mul. lia. }
    apply IH; try assumption.
    + rewrite M2. nia.
    + rewrite M2. apply Z.mod_mul. lia.
  - apply shr_1_exact; assumption.
Qed.

(** The first shift of [binary_round_aux], for a mantissa of
    [53 + n] digits: [n] bits are shifted out. *)
Lemma shr_fexp_long (q e : Z) (l : location) :
  0 < q -> 0 <= Zdigits2 q - 53 -> -1074 <= e ->
  exists mrs,
    shr_fexp prec emax q e l = (mrs, e + (Zdigits2 q - 53))
    /\ shr_m mrs = q / 2 ^ (Zdigits2 q - 53)
    /\ (l = loc_Exact -> q mod 2 ^ (Zdigits2 q - 53) = 0 ->
        loc_of_shr_record mrs = loc_Exact).
Proof.
  intros Hq Hn He. unfold shr_fexp.
  replace (fexp prec emax (Zdigits2 q + e) - e) with (Zdigits2 q - 53)
    by (unfold fexp, emin, prec, emax; lia).
  destruct (Zdigits2 q - 53) as [|p|p] eqn:En; [| |lia].
  - exists (shr_record_of_loc q l). cbn [shr].
    rewrite Z.add_0_r, Float64Facts.shr_record_of_loc_m, Z.div_1_r.
    repeat split. intros -> _. reflexivity.
  - exists (iter_pos shr_1 p (shr_record_of_loc q l)). cbn [shr].
    split; [reflexivity|]. split.
    + rewrite Float64Facts.iter_pos_shr_m
        by (rewrite Float64Facts.shr_record_of_loc_m; lia).
      rewrite Float64Facts.shr_record_of_loc_m. reflexivity.
    + intros -> Hd.
      destruct (iter_pos_shr_exact p (shr_record_of_loc q loc_Exact))
        as [R S]; try reflexivity.
      * cbn. lia.
      * exact Hd.
      * destruct (iter_pos shr_1 p _) as [m r s0].
        cbn [shr_r shr_s] in R, S. subst. reflexivity.
Qed.

Lemma shifted_digits (q n : Z) :
  0 < q -> 0 <= n -> Zdigits2 q = 53 + n ->
  2 ^ 52 <= q / 2 ^ n < 2 ^ 53.
Proof.
  intros Hq Hn Hd.
  pose proof (Float64Magnitude.Zdigits2_lower q Hq) as L.
  pose proof (Float64Magnitude.Zdigits2_upper q ltac:(lia)) as U.
  pose proof (Float64Magnitude.pow2_pos n Hn) as HP.
  rewrite Hd in L, U.
  replace (53 + n - 1) with (52 + n) in L by lia.
  rewrite Z.pow_add_r in L, U by lia.
  split.
  - apply Z.div_le_lower_bound; lia.
  - apply Z.div_lt_upper_bound; lia.
Qed.

(** Rounding a mantissa of [53 + n] digits to 53: the result lies on
    the grid of step [2^n] just below or just above the mantissa, and
    is the mantissa itself when that is exact and on the grid. *)
Lemma binary_round_aux_grid (s : bool) (q e : Z) (l : location) :
  0 < q -> 0 <= Zdigits2 q - 53 -> -1074 <= e ->
  e + (Zdigits2 q - 53) <= 970 ->
  exists (m : positive) (k : Z),
    binary_round_aux prec emax s q e l
    = S754_finite s m (e + (Zdigits2 q - 53) + k)
    /\ 0 <= k <= 1
    /\ Zpos (digits2_pos m) = 53
    /\ q / 2 ^ (Zdigits2 q - 53) * 2 ^ (Zdigits2 q - 53)
       <= Zpos m * 2 ^ (Zdigits2 q - 53 + k)
    /\ Zpos m * 2 ^ (Zdigits2 q - 53 + k)
       <= (q / 2 ^ (Zdigits2 q - 53) + 1) * 2 ^ (Zdigits2 q - 53)
    /\ (l = loc_Exact -> q mod 2 ^ (Zdigits2 q - 53) = 0 ->
        Zpos m * 2 ^ (Zdigits2 q - 53 + k) = q).
Proof.
  intros Hq Hn He Hhi.
  destruct (shr_fexp_long q e l Hq Hn He) as (mrs & E1 & M1 & X1).
  set (n := Zdigits2 q - 53) in *.
  pose proof (shifted_digits q n Hq Hn ltac:(subst n; lia)) as [L1 U1].
  pose proof (Float64Magnitude.pow2_pos n Hn) as HP.
  unfold binary_round_aux. rewrite E1.
  pose proof (Float64Facts.round_nearest_even_ge (shr_m mrs)
                (loc_of_shr_record mrs)) as Rge.
  pose proof (Float64Magnitude.round_nearest_even_le (shr_m mrs)
                (loc_of_shr_record mrs)) as Rle.
  set (m0 := round_nearest_even (shr_m mrs) (loc_of_shr_record mrs)) in *.
  rewrite M1 in Rge, Rle.
  set (q1 := q / 2 ^ n) in *.
  assert (P52 : 2 ^ 52 = 4503599627370496) by reflexivity.
  assert (P53 : 2 ^ 53 = 9007199254740992) by reflexivity.
  assert (Hex : l = loc_Exact -> q mod 2 ^ n = 0 -> m0 = q1 /\ q1 * 2 ^ n = q).
  { intros Hl Hd. split.
    - subst m0. rewrite (X1 Hl Hd). cbn [round_nearest_even]. exact M1.
    - pose proof (Z.div_mod q (2 ^ n) ltac:(lia)). subst q1. lia. }
  destruct (Z_lt_le_dec m0 (2 ^ 53)) as [Hlt|Hge].
  - (* no carry *)
    assert (D0 : Zdigits2 m0 = 53).
    { apply Z.le_antisymm.
      - apply Float64Magnitude.Zdigits2_le; lia.
      - apply Float64Magnitude.Zdigits2_ge; [lia|].
        change (53 - 1) with 52. lia. }
    rewrite (Float64Sqrt.shr_fexp_canonical m0 (e + n) loc_Exact D0)
      by lia.
    rewrite Float64Facts.shr_record_of_loc_m.
    destruct m0 as [|m|m] eqn:Em; try lia.
    unfold emax, prec.
    replace (e + n <=? 1024 - 53) with true
      by (symmetry; apply Z.leb_le; lia).
    exists m, 0. rewrite !Z.add_0_r.
    split; [reflexivity|]. split; [lia|]. split; [exact D0|].
    split; [|split].
    + apply Z.mul_le_mono_nonneg_r; lia.
    + apply Z.mul_le_mono_nonneg_r; lia.
    + intros Hl Hd. destruct (Hex Hl Hd) as [A B]. rewrite A. exact B.
  - (* carry: the rounded mantissa is 2^53 *)
    assert (Em : m0 = 2 ^ 53) by lia.
    assert (Eq1 : q1 = 2 ^ 53 - 1) by lia.
    rewrite Em. unfold shr_fexp.
    change (Zdigits2 (2 ^ 53)) with 54.
    replace (fexp prec emax (54 + (e + n)) - (e + n)) with 1
      by (unfold fexp, emin, prec, emax; lia).
    cbn [shr iter_pos shr_record_of_loc].
    change (shr_m (shr_1 {| shr_m := 2 ^ 53; shr_r := false;
                             shr_s := false |}))
      with (Zpos 4503599627370496).
    cbv iota beta.
    unfold emax, prec.
    replace (e + n + 1 <=? 1024 - 53) with true
      by (symmetry; apply Z.leb_le; lia).
    exists 4503599627370496%positive, 1.
    split; [reflexivity|]. split; [lia|]. split; [reflexivity|].
    rewrite Z.pow_add_r by lia. change (2 ^ 1) with 2.
    split; [|split].
    + rewrite Eq1. nia.
    + rewrite Eq1. nia.
    + intros Hl Hd. destruct (Hex Hl Hd) as [A B]. lia.
Qed.

(** A canonical mantissa times a power of two, against the grid. *)
Lemma below_grid (mA eA g : Z) :
  0 < mA < 2 ^ 53 -> -1074 <= eA -> eA < g ->
  mA * 2 ^ (eA + 1074) < 2 ^ 52 * 2 ^ (g + 1074).
Proof.
  intros Hm He Hg.
  replace (g + 1074) with ((g - 1 - eA) + 1 + (eA + 1074)) by lia.
  rewrite (Z.pow_add_r 2 (g - 1 - eA + 1) (eA + 1074)) by lia.
  rewrite (Z.pow_add_r 2 (g - 1 - eA) 1) by lia. change (2 ^ 1) with 2.
  pose proof (Float64Magnitude.pow2_pos (eA + 1074) ltac:(lia)) as H1.
  pose proof (Float64Magnitude.pow2_pos (g - 1 - eA) ltac:(lia)) as H2.
  change (2 ^ 53) with (2 ^ 52 * 2) in Hm.
  assert (P52 : 0 < 2 ^ 52) by reflexivity.
  set (A := 2 ^ (eA + 1074)) in *. set (B := 2 ^ (g - 1 - eA)) in *.
  set (C := 2 ^ 52) in *.
  assert (mA * A < C * 2 * A) by (apply Z.mul_lt_mono_pos_r; lia).
  assert (C * 2 * A * 1 <= C * 2 * A * B)
    by (apply Z.mul_le_mono_nonneg_l; nia).
  nia.
Qed.

Lemma on_grid (mA eA g : Z) :
  -1074 <= g -> g <= eA ->
  mA * 2 ^ (eA + 1074) = mA * 2 ^ (eA - g) * 2 ^ (g + 1074).
Proof.
  intros Hg He.
  replace (eA + 1074) with ((eA - g) + (g + 1074)) by lia.
  rewrite Z.pow_add_r by lia. ring.
Qed.

(** Rounding to nearest is monotone against the normal numbers. The
    value rounded lies from [q * 2^e] to below [(q + 1) * 2^e], and is
    [q * 2^e] when the location is exact: the result of
    [binary_round_aux] is at least any normal number below
    [(q + 1) * 2^e], and at most any normal number that is at least
    [q * 2^e], and more than it when the location is not exact. *)
Lemma round_sandwich (s : bool) (q e : Z) (l : location) :
  0 < q -> 0 <= Zdigits2 q - 53 -> -1074 <= e ->
  e + (Zdigits2 q - 53) <= 970 ->
  exists (m : positive) (e' : Z),
    binary_round_aux prec emax s q e l = S754_finite s m e'
    /\ Zpos (digits2_pos m) = 53
    /\ e + (Zdigits2 q - 53) <= e' <= e + (Zdigits2 q - 53) + 1
    /\ (forall (mA : positive) (eA : Z),
          Zpos (digits2_pos mA) = 53 -> -1074 <= eA ->
          Zpos mA * 2 ^ (eA + 1074) < (q + 1) * 2 ^ (e + 1074) ->
          Zpos mA * 2 ^ (eA + 1074) <= Zpos m * 2 ^ (e' + 1074))
    /\ (forall (mB : positive) (eB : Z),
          Zpos (digits2_pos mB) = 53 -> -1074 <= eB ->
          q * 2 ^ (e + 1074) <= Zpos mB * 2 ^ (eB + 1074) ->
          (l <> loc_Exact ->
           q * 2 ^ (e + 1074) < Zpos mB * 2 ^ (eB + 1074)) ->
          Zpos m * 2 ^ (e' + 1074) <= Zpos mB * 2 ^ (eB + 1074)).
Proof.
  intros Hq Hn He Hhi.
  destruct (binary_round_aux_grid s q e l Hq Hn He Hhi)
    as (m & k & Er & Hk & Dm & Wlo & Whi & Wex).
  set (n := Zdigits2 q - 53) in *.
  pose proof (shifted_digits q n Hq Hn ltac:(subst n; lia)) as [L1 U1].
  pose proof (Float64Magnitude.pow2_pos n Hn) as HG.
  pose proof (Float64Magnitude.pow2_pos (e + 1074) ltac:(lia)) as HE.
  pose proof (Z.div_mod q (2 ^ n) ltac:(lia)) as Hdm.
  pose proof (Z.mod_pos_bound q (2 ^ n) ltac:(lia)) as Hmb.
  set (q1 := q / 2 ^ n) in *.
  set (W := Zpos m * 2 ^ (n + k)) in *.
  assert (EV : Zpos m * 2 ^ (e + n + k + 1074) = W * 2 ^ (e + 1074)).
  { subst W. replace (e + n + k + 1074) with ((n + k) + (e + 1074)) by lia.
    rewrite Z.pow_add_r by lia. ring. }
  assert (EU : 2 ^ (e + n + 1074) = 2 ^ n * 2 ^ (e + 1074)).
  { replace (e + n + 1074) with (n + (e + 1074)) by lia.
    apply Z.pow_add_r; lia. }
  set (G := 2 ^ n) in *. set (E := 2 ^ (e + 1074)) in *.
  exists m, (e + n + k). split; [exact Er|]. split; [exact Dm|].
  split; [lia|]. rewrite EV. split.
  - intros mA eA DA HeA HA.
    pose proof (Float64Facts.digits2_pos_lower mA) as LA.
    pose proof (Float64Magnitude.digits2_pos_upper mA) as UA.
    rewrite DA in LA, UA. change (53 - 1) with 52 in LA.
    destruct (Z_lt_le_dec eA (e + n)) as [Hlt|Hge].
    + pose proof (below_grid (Zpos mA) eA (e + n) ltac:(lia) HeA Hlt) as Hb.
      rewrite EU in Hb.
      assert (2 ^ 52 * (G * E) <= q1 * G * E).
      { rewrite Z.mul_assoc.
        apply Z.mul_le_mono_nonneg_r; [lia|].
        apply Z.mul_le_mono_nonneg_r; lia. }
      assert (q1 * G * E <= W * E)
        by (apply Z.mul_le_mono_nonneg_r; lia).
      lia.
    + rewrite (on_grid (Zpos mA) eA (e + n)) in * by lia.
      rewrite EU in *.
      set (c := Zpos mA * 2 ^ (eA - (e + n))) in *.
      assert (Hc : c * G < q + 1).
      { apply Z.mul_lt_mono_pos_r with (p := E); [exact HE|]. lia. }
      assert (Hc1 : c <= q1) by nia.
      assert (c * G <= q1 * G) by (apply Z.mul_le_mono_nonneg_r; lia).
      assert (c * G * E <= W * E)
        by (apply Z.mul_le_mono_nonneg_r; lia).
      lia.
  - intros mB eB DB HeB HB Hstrict.
    pose proof (Float64Facts.digits2_pos_lower mB) as LB.
    pose proof (Float64Magnitude.digits2_pos_upper mB) as UB.
    rewrite DB in LB, UB. change (53 - 1) with 52 in LB.
    destruct (Z_lt_le_dec eB (e + n)) as [Hlt|Hge].
    + exfalso.
      pose proof (below_grid (Zpos mB) eB (e + n) ltac:(lia) HeB Hlt) as Hb.
      rewrite EU in Hb.
      assert (2 ^ 52 * (G * E) <= q1 * G * E).
      { rewrite Z.mul_assoc.
        apply Z.mul_le_mono_nonneg_r; [lia|].
        apply Z.mul_le_mono_nonneg_r; lia. }
      assert (q1 * G * E <= q * E)
        by (apply Z.mul_le_mono_nonneg_r; lia).
      lia.
    + rewrite (on_grid (Zpos mB) eB (e + n)) in * by lia.
      rewrite EU in *.
      set (c := Zpos mB * 2 ^ (eB - (e + n))) in *.
      assert (Hc : q <= c * G).
      { apply Z.mul_le_mono_pos_r with (p := E); [exact HE|]. lia. }
      destruct (Z.eq_dec q (c * G)) as [Eq|Ne].
      * assert (Hl : l = loc_Exact).
        { destruct l as [|c0]; [reflexivity|]. exfalso.
          assert (q * E < c * (G * E)) by (apply Hstrict; discriminate).
          rewrite Eq in *. lia. }
        assert (Hd : q mod G = 0) by (rewrite Eq; apply Z.mod_mul; lia).
        rewrite (Wex Hl Hd), Eq. lia.
      * assert (Hc1 : q1 + 1 <= c) by nia.
        assert ((q1 + 1) * G <= c * G)
          by (apply Z.mul_le_mono_nonneg_r; lia).
        assert (W * E <= c * G * E)
          by (apply Z.mul_le_mono_nonneg_r; lia).
        lia.
Qed.

End Float64Round.

(** ** The operations of binary64 on scaled values *)

Module Float64Value.
Import Float64.

Lemma scaled_neg (x : float) : scaled (neg x) = - scaled x.
Proof.
  destruct x as [s|s| |s m e]; cbn; try reflexivity.
  destruct s; cbn; lia.
Qed.

Lemma regular_neg (lo hi : Z) (x : float) :
  regular lo hi x -> regular lo hi (neg x).
Proof. destruct x as [s|s| |s m e]; cbn; auto. Qed.

Lemma regular_weaken (lo hi lo' hi' : Z) (x : float) :
  lo' <= lo -> hi <= hi' -> regular lo hi x -> regular lo' hi' x.
Proof.
  intros H1 H2. destruct x as [s|s| |s m e]; cbn; auto.
  intros [D R]. split; [exact D|lia].
Qed.

(** An integer below [2^52] in absolute value is converted exactly. *)
Lemma of_int_positive (z : Z) :
  0 < z -> z < 2 ^ 52 ->
  exists m e,
    of_int z = S754_finite false m e
    /\ Zpos (digits2_pos m) = 53 /\ -52 <= e <= -1
    /\ Zpos m * 2 ^ (e + 1074) = z * 2 ^ 1074.
Proof.
  intros Hz Hlt.
  destruct (Float64Sqrt.of_int_canonical z Hz Hlt) as (m & E & V & D).
  assert (Hd : Zdigits2 z <= 52)
    by (apply Float64Magnitude.Zdigits2_le; lia).
  assert (Hd1 : 1 <= Zdigits2 z) by (destruct z; simpl; lia).
  exists m, (Zdigits2 z - 53). split; [exact E|]. split; [exact D|].
  split; [lia|]. rewrite V, <- Z.mul_assoc, <- Z.pow_add_r by lia.
  f_equal. f_equal. lia.
Qed.

Lemma of_int_scaled (z : Z) :
  Z.abs z < 2 ^ 52 ->
  regular (-52) (-1) (of_int z) /\ scaled (of_int z) = z * 2 ^ 1074.
Proof.
  intros Hz. destruct z as [|p|p].
  - split; reflexivity.
  - destruct (of_int_positive (Zpos p) ltac:(lia) ltac:(lia))
      as (m & e & E & D & R & V).
    rewrite E. cbn [regular scaled cond_Zopp]. auto.
  - destruct (of_int_positive (Zpos p) ltac:(lia) ltac:(lia))
      as (m & e & E & D & R & V).
    change (Zneg p) with (- Zpos p).
    rewrite (Float64Sign.of_int_opp (Zpos p)) by lia.
    rewrite E. cbn [neg SFopp negb regular scaled cond_Zopp].
    split; [auto|]. rewrite V. ring.
Qed.

(** [int(x)] of a finite number between two integers lies between
    them. *)
Lemma to_int_between (lo hi : Z) (x : float) (A B : Z) :
  -1074 <= lo -> regular lo hi x ->
  A * 2 ^ 1074 <= scaled x -> scaled x <= B * 2 ^ 1074 ->
  exists z, to_int x = Returns z /\ A <= z <= B.
Proof.
  intros Hlo Hr HA HB.
  assert (HK : 0 < 2 ^ 1074) by (apply Float64Magnitude.pow2_pos; lia).
  destruct x as [s|s| |s m e]; cbn in Hr; try destruct Hr.
  - exists 0. split; [reflexivity|]. cbn in HA, HB. nia.
  - cbn [to_int]. eexists. split; [reflexivity|].
    cbn [scaled] in HA, HB.
    assert (EV : Z.shiftl (Zpos m) e = Zpos m * 2 ^ (e + 1074) / 2 ^ 1074).
    { destruct (Z_lt_le_dec e 0) as [Hneg|Hpos].
      - rewrite Z.shiftl_div_pow2 by lia.
        replace 1074 with ((e + 1074) + - e) at 2 by lia.
        rewrite (Z.pow_add_r 2 (e + 1074) (- e)) by lia.
        pose proof (Float64Magnitude.pow2_pos (e + 1074) ltac:(lia)).
        pose proof (Float64Magnitude.pow2_pos (- e) ltac:(lia)).
        rewrite (Z.mul_comm (Zpos m)).
        rewrite Z.div_mul_cancel_l by lia. reflexivity.
      - rewrite Z.shiftl_mul_pow2 by lia.
        rewrite (Z.pow_add_r 2 e 1074) by lia.
        rewrite Z.mul_assoc. rewrite Z.div_mul by lia. reflexivity. }
    rewrite EV. set (M := Zpos m * 2 ^ (e + 1074)) in *.
    assert (HM : 0 <= M).
    { subst M. apply Z.mul_nonneg_nonneg; [lia|].
      apply Z.lt_le_incl, Float64Magnitude.pow2_pos. lia. }
    pose proof (Z.div_mod M (2 ^ 1074) ltac:(lia)) as Hdm.
    pose proof (Z.mod_pos_bound M (2 ^ 1074) HK) as Hmb.
    destruct s; cbn [cond_Zopp] in HA, HB; nia.
Qed.

Lemma new_location_zero (n : Z) : new_location n 0 = loc_Exact.
Proof.
  unfold new_location, new_location_even, new_location_odd.
  destruct (Z.even n); reflexivity.
Qed.

Lemma normal_range (m : positive) :
  Zpos (digits2_pos m) = 53 -> 2 ^ 52 <= Zpos m < 2 ^ 53.
Proof.
  intros D.
  pose proof (Float64Facts.digits2_pos_lower m) as L.
  pose proof (Float64Magnitude.digits2_pos_upper m) as U.
  rewrite D in L, U. change (53 - 1) with 52 in L. lia.
Qed.

(** The quotient of two positive normal numbers, against normal
    numbers. *)
Lemma div_sandwich (m1 m2 : positive) (e1 e2 : Z) :
  Zpos (digits2_pos m1) = 53 -> Zpos (digits2_pos m2) = 53 ->
  -500 <= e1 <= 400 -> -500 <= e2 <= 400 ->
  exists m e,
    div (S754_finite false m1 e1) (S754_finite false m2 e2)
    = S754_finite false m e
    /\ Zpos (digits2_pos m) = 53
    /\ e1 - e2 - 53 <= e <= e1 - e2 - 51
    /\ (forall (mA : positive) (eA : Z),
          Zpos (digits2_pos mA) = 53 -> -1074 <= eA ->
          Zpos mA * 2 ^ (eA + 1074) * (Zpos m2 * 2 ^ (e2 + 1074))
          <= Zpos m1 * 2 ^ (e1 + 1074) * 2 ^ 1074 ->
          Zpos mA * 2 ^ (eA + 1074) <= Zpos m * 2 ^ (e + 1074))
    /\ (forall (mB : positive) (eB : Z),
          Zpos (digits2_pos mB) = 53 -> -1074 <= eB ->
          Zpos m1 * 2 ^ (e1 + 1074) * 2 ^ 1074
          <= Zpos mB * 2 ^ (eB + 1074) * (Zpos m2 * 2 ^ (e2 + 1074)) ->
          Zpos m * 2 ^ (e + 1074) <= Zpos mB * 2 ^ (eB + 1074)).
Proof.
  intros D1 D2 He1 He2.
  pose proof (normal_range m1 D1) as R1.
  pose proof (normal_range m2 D2) as R2.
  assert (P52 : 2 ^ 52 = 4503599627370496) by reflexivity.
  assert (P53 : 2 ^ 53 = 9007199254740992) by reflexivity.
  assert (P54 : 2 ^ 54 = 18014398509481984) by reflexivity.
  unfold div, SFdiv, SFdiv_core_binary. cbn [xorb].
  change (Zdigits2 (Zpos m1)) with (Zpos (digits2_pos m1)).
  change (Zdigits2 (Zpos m2)) with (Zpos (digits2_pos m2)).
  rewrite D1, D2.
  replace (Z.min (fexp prec emax (53 + e1 - (53 + e2))) (e1 - e2))
    with (e1 - e2 - 53) by (unfold fexp, emin, prec, emax; lia).
  replace (e1 - e2 - (e1 - e2 - 53)) with 53 by lia.
  rewrite Z.shiftl_mul_pow2 by lia.
  pose proof (Z_div_mod (Zpos m1 * 2 ^ 53) (Zpos m2) ltac:(lia)) as Hdm.
  destruct (Z.div_eucl (Zpos m1 * 2 ^ 53) (Zpos m2)) as [q r].
  destruct Hdm as [Eq Hr].
  assert (Hq52 : 2 ^ 52 <= q) by nia.
  assert (Hq54 : q < 2 ^ 54) by nia.
  assert (Hd53 : 53 <= Zdigits2 q)
    by (apply Float64Magnitude.Zdigits2_ge; [lia|]; change (53 - 1) with 52;
        lia).
  assert (Hd54 : Zdigits2 q <= 54)
    by (apply Float64Magnitude.Zdigits2_le; lia).
  destruct (Float64Round.round_sandwich false q (e1 - e2 - 53)
              (new_location (Zpos m2) r))
    as (m & e & E & Dm & Re & Hlo & Hup); try lia.
  rewrite E. exists m, e. split; [reflexivity|]. split; [exact Dm|].
  split; [lia|].
  (* the scaled values, over the common factor F *)
  pose proof (Float64Magnitude.pow2_pos (e1 - e2 - 53 + 1074) ltac:(lia))
    as HE.
  pose proof (Float64Magnitude.pow2_pos (e2 + 1074) ltac:(lia)) as HE2.
  assert (HK : 2 ^ (e1 + 1074) * 2 ^ 1074
               = 2 ^ 53 * (2 ^ (e1 - e2 - 53 + 1074) * 2 ^ (e2 + 1074))).
  { rewrite <- !Z.pow_add_r by lia. f_equal. lia. }
  set (E' := 2 ^ (e1 - e2 - 53 + 1074)) in *.
  set (E2 := 2 ^ (e2 + 1074)) in *.
  assert (HX : Zpos m1 * 2 ^ (e1 + 1074) * 2 ^ 1074
               = Zpos m1 * 2 ^ 53 * (E' * E2)).
  { rewrite <- Z.mul_assoc, HK. ring. }
  assert (HF : 0 < E' * E2) by (apply Z.mul_pos_pos; assumption).
  split.
  - intros mA eA DA HeA H. apply Hlo; try assumption.
    rewrite HX in H.
    set (VA := Zpos mA * 2 ^ (eA + 1074)) in *.
    assert (H1 : VA * Zpos m2 * (E' * E2)
                 < (q + 1) * E' * Zpos m2 * E2 * E').
    { apply Z.le_lt_trans with (Zpos m1 * 2 ^ 53 * (E' * E2) * E').
      - replace (VA * Zpos m2 * (E' * E2))
          with (VA * (Zpos m2 * E2) * E') by ring.
        apply Z.mul_le_mono_nonneg_r; lia.
      - replace ((q + 1) * E' * Zpos m2 * E2 * E')
          with ((q + 1) * Zpos m2 * (E' * E2) * E') by ring.
        apply Z.mul_lt_mono_pos_r; [lia|].
        apply Z.mul_lt_mono_pos_r; [lia|]. lia. }
    replace ((q + 1) * E' * Zpos m2 * E2 * E')
      with ((q + 1) * E' * Zpos m2 * (E' * E2)) in H1 by ring.
    apply Z.mul_lt_mono_pos_r in H1; [|lia].
    apply Z.mul_lt_mono_pos_r in H1; [|lia]. exact H1.
  - intros mB eB DB HeB H.
    rewrite HX in H.
    set (VB := Zpos mB * 2 ^ (eB + 1074)) in *.
    assert (H1 : q * Zpos m2 * (E' * E2) <= VB * (Zpos m2 * E2)).
    { apply Z.le_trans with (Zpos m1 * 2 ^ 53 * (E' * E2)); [|exact H].
      apply Z.mul_le_mono_nonneg_r; lia. }
    apply Hup; try assumption.
    + replace (q * Zpos m2 * (E' * E2)) with (q * E' * (Zpos m2 * E2))
        in H1 by ring.
      apply Z.mul_le_mono_pos_r in H1; [exact H1|lia].
    + intros Hl.
      assert (Hr0 : r <> 0)
        by (intros ->; apply Hl, new_location_zero).
      assert (H2 : q * Zpos m2 * (E' * E2) < VB * (Zpos m2 * E2)).
      { apply Z.lt_le_trans with (Zpos m1 * 2 ^ 53 * (E' * E2));
          [|exact H].
        apply Z.mul_lt_mono_pos_r; lia. }
      replace (q * Zpos m2 * (E' * E2)) with (q * E' * (Zpos m2 * E2))
        in H2 by ring.
      apply Z.mul_lt_mono_pos_r in H2; [exact H2|lia].
Qed.

(** The product of two positive normal numbers, against normal
    numbers. *)
Lemma mul_sandwich (m1 m2 : positive) (e1 e2 : Z) :
  Zpos (digits2_pos m1) = 53 -> Zpos (digits2_pos m2) = 53 ->
  -500 <= e1 <= 400 -> -500 <= e2 <= 400 ->
  exists m e,
    mul (S754_finite false m1 e1) (S754_finite false m2 e2)
    = S754_finite false m e
    /\ Zpos (digits2_pos m) = 53
    /\ e1 + e2 + 52 <= e <= e1 + e2 + 54
    /\ (forall (mA : positive) (eA : Z),
          Zpos (digits2_pos mA) = 53 -> -1074 <= eA ->
          Zpos mA * 2 ^ (eA + 1074) * 2 ^ 1074
          <= Zpos m1 * 2 ^ (e1 + 1074) * (Zpos m2 * 2 ^ (e2 + 1074)) ->
          Zpos mA * 2 ^ (eA + 1074) <= Zpos m * 2 ^ (e + 1074))
    /\ (forall (mB : positive) (eB : Z),
          Zpos (digits2_pos mB) = 53 -> -1074 <= eB ->
          Zpos m1 * 2 ^ (e1 + 1074) * (Zpos m2 * 2 ^ (e2 + 1074))
          <= Zpos mB * 2 ^ (eB + 1074) * 2 ^ 1074 ->
          Zpos m * 2 ^ (e + 1074) <= Zpos mB * 2 ^ (eB + 1074)).
Proof.
  intros D1 D2 He1 He2.
  pose proof (normal_range m1 D1) as R1.
  pose proof (normal_range m2 D2) as R2.
  assert (P52 : 2 ^ 52 = 4503599627370496) by reflexivity.
  assert (P53 : 2 ^ 53 = 9007199254740992) by reflexivity.
  assert (P104 : 2 ^ 104 = 2 ^ 52 * 2 ^ 52) by reflexivity.
  assert (P106 : 2 ^ 106 = 2 ^ 53 * 2 ^ 53) by reflexivity.
  unfold mul, SFmul. cbn [xorb].
  rewrite Pos2Z.inj_mul.
  set (q := Zpos m1 * Zpos m2) in *.
  assert (Hq104 : 2 ^ 104 <= q) by (rewrite P104; subst q; nia).
  assert (Hq106 : q < 2 ^ 106) by (rewrite P106; subst q; nia).
  assert (Hd105 : 105 <= Zdigits2 q)
    by (apply Float64Magnitude.Zdigits2_ge; [lia|];
        change (105 - 1) with 104; lia).
  assert (Hd106 : Zdigits2 q <= 106)
    by (apply Float64Magnitude.Zdigits2_le; lia).
  destruct (Float64Round.round_sandwich false q (e1 + e2) loc_Exact)
    as (m & e & E & Dm & Re & Hlo & Hup); try lia.
  rewrite E. exists m, e. split; [reflexivity|]. split; [exact Dm|].
  split; [lia|].
  assert (HK : 0 < 2 ^ 1074) by (apply Float64Magnitude.pow2_pos; lia).
  assert (HP : 2 ^ (e1 + 1074) * 2 ^ (e2 + 1074)
               = 2 ^ (e1 + e2 + 1074) * 2 ^ 1074)
    by (rewrite <- !Z.pow_add_r by lia; f_equal; lia).
  assert (HV : Zpos m1 * 2 ^ (e1 + 1074) * (Zpos m2 * 2 ^ (e2 + 1074))
               = q * 2 ^ (e1 + e2 + 1074) * 2 ^ 1074).
  { subst q.
    transitivity (Zpos m1 * Zpos m2
                  * (2 ^ (e1 + 1074) * 2 ^ (e2 + 1074))); [ring|].
    rewrite HP. ring. }
  rewrite HV. split.
  - intros mA eA DA HeA H. apply Hlo; try assumption.
    pose proof (Float64Magnitude.pow2_pos (e1 + e2 + 1074) ltac:(lia)).
    assert (Zpos mA * 2 ^ (eA + 1074) <= q * 2 ^ (e1 + e2 + 1074))
      by (apply Z.mul_le_mono_pos_r with (p := 2 ^ 1074); assumption).
    lia.
  - intros mB eB DB HeB H. apply Hup; try assumption.
    + apply Z.mul_le_mono_pos_r with (p := 2 ^ 1074); assumption.
    + congruence.
Qed.

Lemma shl_align_value (m : positive) (e e' : Z) :
  e' <= e ->
  Zpos (fst (shl_align m e e')) = Zpos m * 2 ^ (e - e')
  /\ snd (shl_align m e e') = e'.
Proof.
  intros H. unfold shl_align.
  destruct (e' - e) as [|d|d] eqn:E; try lia.
  - cbn [fst snd]. replace (e - e') with 0 by lia.
    rewrite Z.mul_1_r. split; [reflexivity|lia].
  - cbn [fst snd]. rewrite Float64Sqrt.iter_xO_value.
    replace (e - e') with (Zpos d) by lia. split; reflexivity.
Qed.

Lemma shl_align_same (m : positive) (e e' : Z) :
  e <= e' -> shl_align m e e' = (m, e).
Proof.
  intros H. unfold shl_align.
  destruct (e' - e) as [|d|d] eqn:E; try lia; reflexivity.
Qed.

(** [binary_round], against normal numbers. *)
Lemma binary_round_sandwich (s : bool) (p : positive) (e : Z) :
  -1074 <= e ->
  -1021 <= Zpos (digits2_pos p) + e -> Zpos (digits2_pos p) + e <= 1023 ->
  exists (m : positive) (e' : Z),
    binary_round prec emax s p e = S754_finite s m e'
    /\ Zpos (digits2_pos m) = 53
    /\ Zpos (digits2_pos p) + e - 53 <= e'
    /\ e' <= Zpos (digits2_pos p) + e - 52
    /\ (forall (mA : positive) (eA : Z),
          Zpos (digits2_pos mA) = 53 -> -1074 <= eA ->
          Zpos mA * 2 ^ (eA + 1074) <= Zpos p * 2 ^ (e + 1074) ->
          Zpos mA * 2 ^ (eA + 1074) <= Zpos m * 2 ^ (e' + 1074))
    /\ (forall (mB : positive) (eB : Z),
          Zpos (digits2_pos mB) = 53 -> -1074 <= eB ->
          Zpos p * 2 ^ (e + 1074) <= Zpos mB * 2 ^ (eB + 1074) ->
          Zpos m * 2 ^ (e' + 1074) <= Zpos mB * 2 ^ (eB + 1074)).
Proof.
  intros He Hlo Hhi. unfold binary_round.
  set (d := Zpos (digits2_pos p)) in *.
  replace (fexp prec emax (d + e)) with (d + e - 53)
    by (unfold fexp, emin, prec, emax; lia).
  destruct (Z_lt_le_dec (d + e - 53) e) as [Hsh|Hno].
  - (* the mantissa is shifted left to 53 digits *)
    destruct (shl_align_value p e (d + e - 53) ltac:(lia)) as [V S].
    destruct (shl_align p e (d + e - 53)) as [mz ez] eqn:Ea.
    cbn [fst snd] in V, S. subst ez.
    assert (Dz : Zdigits2 (Zpos mz) = 53).
    { change (Zdigits2 (Zpos mz)) with (Zpos (digits2_pos mz)).
      unfold shl_align in Ea.
      destruct (d + e - 53 - e) as [|k|k] eqn:Ek; try lia.
      injection Ea as <-.
      rewrite Float64Magnitude.digits2_iter_xO. fold d. lia. }
    destruct (Float64Round.round_sandwich s (Zpos mz) (d + e - 53)
                loc_Exact)
      as (m & e' & E & Dm & Re & Lo & Up); try lia.
    rewrite Dz in Re.
    assert (EV : Zpos mz * 2 ^ (d + e - 53 + 1074)
                 = Zpos p * 2 ^ (e + 1074)).
    { rewrite V, <- Z.mul_assoc, <- Z.pow_add_r by lia.
      f_equal. f_equal. lia. }
    rewrite EV in Up.
    exists m, e'. split; [exact E|]. split; [exact Dm|].
    split; [lia|]. split; [lia|]. split.
    + intros mA eA DA HA H. apply Lo; try assumption.
      pose proof (Float64Magnitude.pow2_pos (d + e - 53 + 1074)
                    ltac:(lia)).
      rewrite Z.mul_add_distr_r, EV. lia.
    + intros mB eB DB HB H. apply Up; try assumption. congruence.
  - rewrite (shl_align_same p e (d + e - 53) Hno).
    destruct (Float64Round.round_sandwich s (Zpos p) e loc_Exact)
      as (m & e' & E & Dm & Re & Lo & Up);
      try (change (Zdigits2 (Zpos p)) with d; lia).
    change (Zdigits2 (Zpos p)) with d in Re.
    exists m, e'. split; [exact E|]. split; [exact Dm|].
    split; [lia|]. split; [lia|]. split.
    + intros mA eA DA HA H. apply Lo; try assumption.
      pose proof (Float64Magnitude.pow2_pos (e + 1074) ltac:(lia)).
      lia.
    + intros mB eB DB HB H. apply Up; try assumption. congruence.
Qed.

(** [binary_normalize], against zeros and normal numbers of either
    sign. *)
Lemma normalize_sandwich (z e : Z) (a b : float) :
  -1074 <= e -> z <> 0 ->
  -1021 <= Zdigits2 z + e -> Zdigits2 z + e <= 1023 ->
  regular (-1074) 971 a -> regular (-1074) 971 b ->
  scaled a <= z * 2 ^ (e + 1074) -> z * 2 ^ (e + 1074) <= scaled b ->
  regular (Zdigits2 z + e - 53) (Zdigits2 z + e - 52)
    (binary_normalize prec emax z e false)
  /\ scaled a <= scaled (binary_normalize prec emax z e false)
  /\ scaled (binary_normalize prec emax z e false) <= scaled b.
Proof.
  intros He Hz Hlo Hhi Ra Rb Ha Hb.
  pose proof (Float64Magnitude.pow2_pos (e + 1074) ltac:(lia)) as HE.
  destruct z as [|p|p]; [congruence| |]; cbn [binary_normalize].
  - destruct (binary_round_sandwich false p e He Hlo Hhi)
      as (m & e' & E & Dm & R1 & R2 & Lo & Up).
    rewrite E. cbn [regular scaled cond_Zopp].
    change (Zdigits2 (Zpos p)) with (Zpos (digits2_pos p)).
    assert (Hv : 0 < Zpos m * 2 ^ (e' + 1074)).
    { apply Z.mul_pos_pos; [lia|]. apply Float64Magnitude.pow2_pos.
      change (Zdigits2 (Zpos p)) with (Zpos (digits2_pos p)) in Hlo. lia. }
    split; [split; [exact Dm|lia]|]. split.
    + destruct a as [sa|sa| |sa mA eA]; cbn [regular scaled] in Ra, Ha |- *;
        try lia; try (destruct Ra; fail).
      destruct Ra as [DA RA].
      pose proof (Float64Magnitude.pow2_pos (eA + 1074) ltac:(lia)).
      destruct sa; cbn [cond_Zopp] in Ha |- *; [nia|].
      apply Lo; try assumption; lia.
    + destruct b as [sb|sb| |sb mB eB]; cbn [regular scaled] in Rb, Hb |- *;
        try nia; try (destruct Rb; fail).
      destruct Rb as [DB RB].
      pose proof (Float64Magnitude.pow2_pos (eB + 1074) ltac:(lia)).
      destruct sb; cbn [cond_Zopp] in Hb |- *; [nia|].
      apply Up; try assumption; lia.
  - destruct (binary_round_sandwich true p e He Hlo Hhi)
      as (m & e' & E & Dm & R1 & R2 & Lo & Up).
    rewrite E. cbn [regular scaled cond_Zopp].
    change (Zdigits2 (Zneg p)) with (Zpos (digits2_pos p)).
    assert (Hv : 0 < Zpos m * 2 ^ (e' + 1074)).
    { apply Z.mul_pos_pos; [lia|]. apply Float64Magnitude.pow2_pos.
      change (Zdigits2 (Zneg p)) with (Zpos (digits2_pos p)) in Hlo. lia. }
    assert (Hn : Zneg p * 2 ^ (e + 1074) = - (Zpos p * 2 ^ (e + 1074)))
      by (rewrite <- Pos2Z.opp_pos; ring).
    rewrite Hn in Ha, Hb.
    assert (Hp : 0 < Zpos p * 2 ^ (e + 1074))
      by (apply Z.mul_pos_pos; lia).
    split; [split; [exact Dm|lia]|]. split.
    + destruct a as [sa|sa| |sa mA eA]; cbn [regular scaled] in Ra, Ha |- *;
        try lia; try (destruct Ra; fail).
      destruct Ra as [DA RA].
      pose proof (Float64Magnitude.pow2_pos (eA + 1074) ltac:(lia)).
      destruct sa; cbn [cond_Zopp] in Ha |- *; [|nia].
      assert (Zpos m * 2 ^ (e' + 1074) <= Zpos mA * 2 ^ (eA + 1074))
        by (apply Up; try assumption; lia).
      lia.
    + destruct b as [sb|sb| |sb mB eB]; cbn [regular scaled] in Rb, Hb |- *;
        try lia; try (destruct Rb; fail).
      destruct Rb as [DB RB].
      pose proof (Float64Magnitude.pow2_pos (eB + 1074) ltac:(lia)).
      destruct sb; cbn [cond_Zopp] in Hb |- *; [|nia].
      assert (Zpos mB * 2 ^ (eB + 1074) <= Zpos m * 2 ^ (e' + 1074))
        by (apply Lo; try assumption; lia).
      lia.
Qed.

Lemma scaled_aligned (s : bool) (m : positive) (e ez : Z) :
  -1074 <= ez -> ez <= e ->
  scaled (S754_finite s m e)
  = cond_Zopp s (Zpos (fst (shl_align m e ez))) * 2 ^ (ez + 1074).
Proof.
  intros H1 H2. destruct (shl_align_value m e ez H2) as [V _].
  rewrite V. cbn [scaled].
  assert (E : Zpos m * 2 ^ (e + 1074)
              = Zpos m * 2 ^ (e - ez) * 2 ^ (ez + 1074)).
  { rewrite <- Z.mul_assoc, <- Z.pow_add_r by lia.
    f_equal. f_equal. lia. }
  destruct s; cbn [cond_Zopp]; rewrite E; ring.
Qed.

Lemma Zdigits2_abs (z : Z) : Zdigits2 z = Zdigits2 (Z.abs z).
Proof. destruct z; reflexivity. Qed.

(** The sum of two numbers, each a zero or normal, against zeros and
    normal numbers. *)
Lemma add_sandwich (lo hi : Z) (x y a b : float) :
  -1000 <= lo -> hi <= 900 ->
  regular lo hi x -> regular lo hi y ->
  regular (-1074) 971 a -> regular (-1074) 971 b ->
  scaled a <= scaled x + scaled y -> scaled x + scaled y <= scaled b ->
  regular (lo - 52) (hi + 2) (add x y)
  /\ scaled a <= scaled (add x y) /\ scaled (add x y) <= scaled b.
Proof.
  intros Hlo Hhi Rx Ry Ra Rb Ha Hb.
  destruct x as [sx|sx| |sx mx ex]; try (destruct Rx; fail);
    destruct y as [sy|sy| |sy my ey]; try (destruct Ry; fail).
  - assert (E : scaled (add (S754_zero sx) (S754_zero sy)) = 0)
      by (destruct sx, sy; reflexivity).
    rewrite E. cbn [scaled] in Ha, Hb.
    split; [destruct sx, sy; exact I|lia].
  - cbn [add SFadd]. cbn [scaled] in Ha, Hb |- *.
    split; [|lia].
    apply regular_weaken with (lo := lo) (hi := hi); [lia|lia|exact Ry].
  - cbn [add SFadd]. cbn [scaled] in Ha, Hb |- *.
    split; [|lia].
    apply regular_weaken with (lo := lo) (hi := hi); [lia|lia|exact Rx].
  - destruct Rx as [Dx Rx], Ry as [Dy Ry].
    unfold add, SFadd.
    set (ez := Z.min ex ey).
    assert (Hez : lo <= ez <= hi) by (subst ez; lia).
    rewrite (scaled_aligned sx mx ex ez) in Ha, Hb by (subst ez; lia).
    rewrite (scaled_aligned sy my ey ez) in Ha, Hb by (subst ez; lia).
    pose proof (Float64Magnitude.aligned_upper mx ex ez (53 + hi)
                  ltac:(subst ez; lia)
                  ltac:(unfold magnitude; lia)) as Ux.
    pose proof (Float64Magnitude.aligned_upper my ey ez (53 + hi)
                  ltac:(subst ez; lia)
                  ltac:(unfold magnitude; lia)) as Uy.
    set (Mx := Zpos (fst (shl_align mx ex ez))) in *.
    set (My := Zpos (fst (shl_align my ey ez))) in *.
    set (z := cond_Zopp sx Mx + cond_Zopp sy My) in *.
    rewrite <- Z.mul_add_distr_r in Ha, Hb. fold z in Ha, Hb.
    destruct (Z.eq_dec z 0) as [Ez|Nz].
    + rewrite Ez in *. cbn [binary_normalize regular scaled].
      split; [exact I|lia].
    + assert (Habs : Z.abs z < 2 ^ (54 + hi - ez)).
      { replace (54 + hi - ez) with (1 + (53 + hi - ez)) by lia.
        rewrite Z.pow_add_r by lia. change (2 ^ 1) with 2.
        assert (0 < Mx) by (subst Mx; lia).
        assert (0 < My) by (subst My; lia).
        subst z. destruct sx, sy; cbn [cond_Zopp]; lia. }
      assert (D1 : 1 <= Zdigits2 z) by (destruct z; simpl; lia).
      assert (D2 : Zdigits2 z <= 54 + hi - ez).
      { rewrite Zdigits2_abs.
        apply Float64Magnitude.Zdigits2_le; lia. }
      destruct (normalize_sandwich z ez a b) as (R & L & U);
        try assumption; try lia.
      split; [|split; assumption].
      eapply regular_weaken; [| |exact R]; lia.
Qed.

Lemma sub_sandwich (lo hi : Z) (x y a b : float) :
  -1000 <= lo -> hi <= 900 ->
  regular lo hi x -> regular lo hi y ->
  regular (-1074) 971 a -> regular (-1074) 971 b ->
  scaled a <= scaled x - scaled y -> scaled x - scaled y <= scaled b ->
  regular (lo - 52) (hi + 2) (sub x y)
  /\ scaled a <= scaled (sub x y) /\ scaled (sub x y) <= scaled b.
Proof.
  intros Hlo Hhi Rx Ry Ra Rb Ha Hb.
  rewrite Float64Sign.sub_add_neg.
  apply add_sandwich; try assumption.
  - apply regular_neg, Ry.
  - rewrite scaled_neg. lia.
  - rewrite scaled_neg. lia.
Qed.

(** The core of the square root on a normal mantissa: the integer
    square root, with its location. *)
Lemma sqrt_core_located (m : positive) (d : Z) :
  Zpos (digits2_pos m) = 53 -> 1 <= d -> d <= 52 ->
  exists q l,
    SFsqrt_core_binary prec emax (Zpos m) (d - 53)
    = (q, (d + 1) / 2 - 53, l)
    /\ 0 <= q
    /\ q * q <= Zpos m * 2 ^ (d + 53 - 2 * ((d + 1) / 2))
    /\ Zpos m * 2 ^ (d + 53 - 2 * ((d + 1) / 2)) < (q + 1) * (q + 1)
    /\ (l <> loc_Exact ->
        q * q < Zpos m * 2 ^ (d + 53 - 2 * ((d + 1) / 2))).
Proof.
  intros Hm Hd1 Hd2. unfold SFsqrt_core_binary.
  change (Zdigits2 (Zpos m)) with (Zpos (digits2_pos m)). rewrite Hm.
  pose proof (Float64Sqrt.half_facts (d + 1)) as Hk.
  pose proof (Float64Sqrt.half_facts (d - 53)) as He.
  set (k := (d + 1) / 2) in *.
  replace (53 + (d - 53) + 1) with (d + 1) by lia.
  rewrite !Z.div2_div. fold k.
  replace (Z.min (fexp prec emax k) ((d - 53) / 2)) with (k - 53)
    by (unfold fexp, emin, prec, emax; lia).
  destruct (d - 53 - 2 * (k - 53)) as [|s|s] eqn:Es; try lia.
  replace (d + 53 - 2 * k) with (Zpos s) by lia.
  rewrite Z.shiftl_mul_pow2 by lia.
  assert (H0 : 0 <= Zpos m * 2 ^ Zpos s)
    by (apply Z.mul_nonneg_nonneg; [lia|];
        apply Z.lt_le_incl, Float64Magnitude.pow2_pos; lia).
  pose proof (Z.sqrtrem_spec (Zpos m * 2 ^ Zpos s) H0) as Hs.
  destruct (Z.sqrtrem (Zpos m * 2 ^ Zpos s)) as [q r].
  destruct Hs as [Eq Hr].
  exists q. eexists. split; [reflexivity|].
  split; [lia|]. split; [lia|]. split; [lia|].
  destruct (r =? 0) eqn:Er; [congruence|].
  apply Z.eqb_neq in Er. intros _. lia.
Qed.

(** The square root of an integer below [2^52], against the integers
    whose squares enclose it. *)
Lemma sqrt_of_int_sandwich (n : Z) :
  0 < n -> n < 2 ^ 52 ->
  exists m e,
    sqrt (of_int n) = S754_finite false m e
    /\ Zpos (digits2_pos m) = 53
    /\ -52 <= e <= -26
    /\ (forall a, 0 < a -> a * a <= n ->
        a * 2 ^ 1074 <= Zpos m * 2 ^ (e + 1074))
    /\ (forall b, 0 < b -> b < 2 ^ 52 -> n <= b * b ->
        Zpos m * 2 ^ (e + 1074) <= b * 2 ^ 1074).
Proof.
  intros Hn Hlt.
  assert (Hd : Zdigits2 n <= 52)
    by (apply Float64Magnitude.Zdigits2_le; lia).
  assert (Hd1 : 1 <= Zdigits2 n) by (destruct n; simpl; lia).
  destruct (Float64Sqrt.of_int_canonical n Hn Hlt) as (m0 & E0 & V0 & D0).
  set (d := Zdigits2 n) in *.
  pose proof (Float64Sqrt.half_facts (d + 1)) as Hk.
  destruct (sqrt_core_located m0 d D0 Hd1 Hd)
    as (q & l & Ec & Hq0 & Hlo & Hhi & Hstrict).
  set (k := (d + 1) / 2) in *.
  set (j := 53 - k).
  assert (Hj : 27 <= j <= 52) by (subst j; lia).
  pose proof (Float64Magnitude.pow2_pos j ltac:(lia)) as HJ.
  pose proof (normal_range m0 D0) as R0.
  assert (EM : Zpos m0 * 2 ^ (d + 53 - 2 * k) = n * (2 ^ j * 2 ^ j)).
  { rewrite V0, <- Z.mul_assoc, <- !Z.pow_add_r by lia.
    f_equal. f_equal. lia. }
  assert (HS : 52 <= d + 53 - 2 * k <= 53) by lia.
  assert (P52 : 2 ^ 52 = 4503599627370496) by reflexivity.
  assert (P53 : 2 ^ 53 = 9007199254740992) by reflexivity.
  assert (Hm' : 2 ^ 52 * 2 ^ 52 <= Zpos m0 * 2 ^ (d + 53 - 2 * k)
                /\ Zpos m0 * 2 ^ (d + 53 - 2 * k) < 2 ^ 53 * 2 ^ 53).
  { destruct (Z.eq_dec (d + 53 - 2 * k) 52) as [->|Ne].
    - lia.
    - replace (d + 53 - 2 * k) with 53 by lia. lia. }
  rewrite EM in *.
  set (J := 2 ^ j) in *.
  assert (Hq52 : 2 ^ 52 <= q) by nia.
  assert (Hq53 : q < 2 ^ 53) by nia.
  assert (Dq : Zdigits2 q = 53).
  { apply Z.le_antisymm.
    - apply Float64Magnitude.Zdigits2_le; lia.
    - apply Float64Magnitude.Zdigits2_ge; [lia|].
      change (53 - 1) with 52. lia. }
  unfold sqrt, SFsqrt. rewrite E0, Ec.
  destruct (Float64Round.round_sandwich false q (k - 53) l)
    as (m & e & E & Dm & Re & Lo & Up); try lia.
  rewrite Dq in Re.
  rewrite E. exists m, e. split; [reflexivity|]. split; [exact Dm|].
  split; [lia|].
  assert (HK : 2 ^ 1074 = J * 2 ^ (k - 53 + 1074)).
  { subst J. rewrite <- Z.pow_add_r by lia. f_equal. lia. }
  pose proof (Float64Magnitude.pow2_pos (k - 53 + 1074) ltac:(lia)) as HE.
  set (F := 2 ^ (k - 53 + 1074)) in *.
  split.
  - intros a Ha Hsq.
    assert (Ha52 : a < 2 ^ 52) by nia.
    destruct (of_int_positive a Ha Ha52) as (mA & eA & _ & DA & RA & VA).
    rewrite <- VA. apply Lo; [exact DA|lia|].
    rewrite VA, HK.
    assert (a * J < q + 1) by nia.
    rewrite Z.mul_assoc. apply Z.mul_lt_mono_pos_r; lia.
  - intros b Hb Hb52 Hsq.
    destruct (of_int_positive b Hb Hb52) as (mB & eB & _ & DB & RB & VB).
    rewrite <- VB.
    assert (Hqb : q <= b * J) by nia.
    apply Up; [exact DB|lia| |].
    + rewrite VB, HK, Z.mul_assoc. apply Z.mul_le_mono_nonneg_r; lia.
    + intros Hl. specialize (Hstrict Hl).
      rewrite VB, HK, Z.mul_assoc. apply Z.mul_lt_mono_pos_r; [lia|].
      nia.
Qed.

End Float64Value.

(** ** The pixels sampled along a direction *)

Section Sampling.
Import Float64.

Lemma py_range_In (a b t : Z) : In t (py_range a b) <-> a <= t < b.
Proof.
  unfold py_range. rewrite in_map_iff. split.
  - intros (i & <- & Hi). apply in_seq in Hi. lia.
  - intros Ht. exists (Z.to_nat (t - a)). split; [lia|].
    apply in_seq. lia.
Qed.

Lemma hits_true (black_mask : mask) (h w x y : Z) :
  hits black_mask h w (x, y) = true
  <-> (0 <= x < w) /\ (0 <= y < h) /\ 0 < mask_at black_mask y x.
Proof.
  unfold hits; simpl.
  rewrite !andb_true_iff, !Z.leb_le, !Z.ltb_lt. tauto.
Qed.

Lemma length_nonzero (dx dy : Z) :
  (dx, dy) <> (0, 0) ->
  eqb (sqrt (of_int (dx * dx + dy * dy))) (of_int 0) = false.
Proof.
  intros Hd.
  apply Float64Facts.nonzero_eqb_zero with (s := false).
  apply Float64Facts.sqrt_of_int_pos.
  assert (dx <> 0 \/ dy <> 0)
    by (destruct (Z.eq_dec dx 0), (Z.eq_dec dy 0); subst; auto;
        exfalso; apply Hd; reflexivity).
  nia.
Qed.

(** The normalised direction of a coordinate-sized vector has both
    components finite, below [2^34]. *)
Lemma unit_direction_bounded (d : Z * Z) :
  d <> (0, 0) -> point_sized d ->
  bounded 34 (fst (unit_direction d)) /\ bounded 34 (snd (unit_direction d)).
Proof.
  destruct d as [dx dy]. unfold point_sized, coordinate_sized.
  cbn [fst snd]. intros Hd [Hx Hy].
  assert (P32 : 2 ^ 32 = 4294967296) by reflexivity.
  assert (P65 : 2 ^ 65 = 36893488147419103232) by reflexivity.
  assert (Hn : 0 < dx * dx + dy * dy < 2 ^ 65).
  { assert (dx <> 0 \/ dy <> 0)
      by (destruct (Z.eq_dec dx 0), (Z.eq_dec dy 0); subst; auto;
          exfalso; apply Hd; reflexivity).
    nia. }
  destruct (Float64Magnitude.of_int_between (dx * dx + dy * dy) 65
              ltac:(lia) ltac:(lia) ltac:(lia))
    as (m & e & En & Hm & He).
  pose proof (Float64Magnitude.sqrt_between m e 66 He ltac:(lia)
                ltac:(lia) ltac:(lia)) as Hlen.
  change ((66 + 1) / 2 + 1) with 34 in Hlen.
  unfold unit_direction. cbn [fst snd]. rewrite En.
  split.
  - change 34 with (33 - 1 + 2).
    apply Float64Magnitude.div_bounded with (L' := 34);
      [|exact Hlen|lia|lia].
    apply (Float64Magnitude.of_int_bounded dx 32); lia.
  - change 34 with (33 - 1 + 2).
    apply Float64Magnitude.div_bounded with (L' := 34);
      [|exact Hlen|lia|lia].
    apply (Float64Magnitude.of_int_bounded dy 32); lia.
Qed.

(** [int(px + dir * t)] returns for coordinate-sized integers and a
    bounded direction. *)
Lemma stepped_coordinate_returns (px t : Z) (dir : float) :
  coordinate_sized px -> coordinate_sized t -> bounded 34 dir ->
  exists z, to_int (add (of_int px) (mul dir (of_int t))) = Returns z.
Proof.
  unfold coordinate_sized. intros Hp Ht Hd.
  apply Float64Magnitude.to_int_bounded with (B := 68 + 2).
  apply Float64Magnitude.add_bounded; [| |lia|lia].
  - apply Float64Magnitude.bounded_weaken with (B := 32 + 1); [lia|].
    apply Float64Magnitude.of_int_bounded; lia.
  - change 68 with (34 + 33 + 1).
    apply Float64Magnitude.mul_bounded; [exact Hd| |lia|lia].
    apply (Float64Magnitude.of_int_bounded t 32); lia.
Qed.

Lemma sample_returns (p : point) (dir : float * float) (t : Z) :
  point_sized p -> coordinate_sized t ->
  bounded 34 (fst dir) -> bounded 34 (snd dir) ->
  exists xy, sample (fst p) (snd p) (fst dir) (snd dir) t = Returns xy.
Proof.
  intros [Hx Hy] Ht H1 H2. unfold sample.
  destruct (stepped_coordinate_returns (fst p) t (fst dir) Hx Ht H1)
    as [x ->].
  destruct (stepped_coordinate_returns (snd p) t (snd dir) Hy Ht H2)
    as [y ->].
  eexists. reflexivity.
Qed.

Lemma samples_defined_bounded (p : point) (dir : float * float) (r : Z) :
  point_sized p -> r <= 2 ^ 32 ->
  bounded 34 (fst dir) -> bounded 34 (snd dir) ->
  samples_defined p dir r = true.
Proof.
  intros Hp Hr H1 H2. unfold samples_defined.
  apply forallb_forall. intros t Ht. apply py_range_In in Ht.
  destruct (sample_returns p dir t Hp) as [xy ->]; try assumption;
    [|reflexivity].
  unfold coordinate_sized. lia.
Qed.

(** No sample raises when the end point and the direction are
    coordinate-sized. *)
Lemma samples_defined_sized (p : point) (d : Z * Z) (r : Z) :
  point_sized p -> d <> (0, 0) -> point_sized d -> r <= 2 ^ 32 ->
  samples_defined p (unit_direction d) r = true
  /\ samples_defined p (neg_direction (unit_direction d)) r = true.
Proof.
  intros Hp Hd Hs Hr.
  destruct (unit_direction_bounded d Hd Hs) as [H1 H2].
  split; apply samples_defined_bounded; try assumption;
    unfold neg_direction; cbn [fst snd];
    apply Float64Magnitude.neg_bounded; assumption.
Qed.

Lemma bind_sample (px py : Z) (ux uy : float) (t : Z)
  (A : Type) (k : Z -> Z -> outcome A) :
  (x <- to_int (add (of_int px) (mul ux (of_int t))) ;;
   y <- to_int (add (of_int py) (mul uy (of_int t))) ;;
   k x y)
  = (p <- sample px py ux uy t ;; k (fst p) (snd p)).
Proof.
  unfold sample.
  destruct (to_int (add (of_int px) (mul ux (of_int t)))) as [x|]; cbn;
    [|reflexivity].
  destruct (to_int (add (of_int py) (mul uy (of_int t)))) as [y|]; cbn;
    reflexivity.
Qed.

Lemma sub_mul_as_add (a u c : float) :
  sub a (mul u c) = add a (mul (neg u) c).
Proof.
  rewrite Float64Sign.sub_add_neg, Float64Sign.mul_neg_l. reflexivity.
Qed.

Lemma direction_zero (x1 y1 x2 y2 : Z) :
  (x1 =? x2) && (y1 =? y2) = true <-> (x2 - x1, y2 - y1) = (0, 0).
Proof.
  rewrite andb_true_iff, !Z.eqb_eq. split.
  - intros [-> ->]. rewrite !Z.sub_diag. reflexivity.
  - intros E. injection E as E1 E2. lia.
Qed.

Lemma add_of_int_zero (x : Z) (s : bool) :
  add (of_int x) (S754_zero s) = of_int x.
Proof.
  pose proof (Float64Facts.of_int_not_nan x) as Hn.
  destruct x as [|p|p].
  - destruct s; reflexivity.
  - pose proof (Float64Facts.of_int_nonzero (Zpos p) ltac:(lia)) as H.
    destruct (of_int (Zpos p)) as [s'|s'| |s' m e]; try reflexivity;
      destruct H.
  - pose proof (Float64Facts.of_int_nonzero (Zneg p) ltac:(lia)) as H.
    destruct (of_int (Zneg p)) as [s'|s'| |s' m e]; try reflexivity;
      destruct H.
Qed.

(** A step along a component of the direction that is zero does not
    move, whatever the sign of the zero. *)
Lemma step_zero (x : Z) (s s' : bool) (c : float) :
  add (of_int x) (mul (S754_zero s) c)
  = add (of_int x) (mul (S754_zero s') c).
Proof.
  destruct c as [sc|sc| |sc mc ec]; cbn [mul SFmul];
    rewrite ?add_of_int_zero; reflexivity.
Qed.

Lemma div_zero_length (n : Z) :
  0 < n -> div (of_int 0) (sqrt (of_int n)) = S754_zero false.
Proof.
  intros Hn. pose proof (Float64Facts.sqrt_of_int_pos n Hn) as H.
  destruct (sqrt (of_int n)) as [s|s| |s m e]; cbn in H.
  - destruct H.
  - subst s. reflexivity.
  - destruct H.
  - destruct H as [-> _]. reflexivity.
Qed.

(** The step along the component [d / length] of a direction and the
    step along that of the opposite direction, negated, are one. *)
Lemma step_opp (x d n : Z) (c : float) :
  0 < n ->
  add (of_int x) (mul (div (of_int (- d)) (sqrt (of_int n))) c)
  = add (of_int x) (mul (neg (div (of_int d) (sqrt (of_int n)))) c).
Proof.
  intros Hn. destruct (Z.eq_dec d 0) as [->|Hd].
  - cbn [Z.opp]. rewrite (div_zero_length n Hn). cbn [neg SFopp negb].
    apply step_zero.
  - rewrite (Float64Sign.of_int_opp d Hd), Float64Sign.div_neg_l.
    reflexivity.
Qed.

Lemma sample_opp (px py dx dy : Z) (t : Z) :
  (dx, dy) <> (0, 0) ->
  sample px py (fst (unit_direction (- dx, - dy)))
    (snd (unit_direction (- dx, - dy))) t
  = sample px py (fst (neg_direction (unit_direction (dx, dy))))
      (snd (neg_direction (unit_direction (dx, dy)))) t.
Proof.
  intros Hd.
  assert (Hn : 0 < dx * dx + dy * dy).
  { assert (dx <> 0 \/ dy <> 0)
      by (destruct (Z.eq_dec dx 0), (Z.eq_dec dy 0); subst; auto;
          exfalso; apply Hd; reflexivity).
    nia. }
  unfold sample, unit_direction, neg_direction. cbn [fst snd].
  replace (- dx * - dx + - dy * - dy) with (dx * dx + dy * dy) by ring.
  rewrite !(step_opp _ _ _ _ Hn). reflexivity.
Qed.

Lemma sample_opp_neg (px py dx dy : Z) (t : Z) :
  (dx, dy) <> (0, 0) ->
  sample px py (fst (neg_direction (unit_direction (- dx, - dy))))
    (snd (neg_direction (unit_direction (- dx, - dy)))) t
  = sample px py (fst (unit_direction (dx, dy)))
      (snd (unit_direction (dx, dy))) t.
Proof.
  intros Hd.
  assert (Hd' : (- dx, - dy) <> (0, 0))
    by (intros E; injection E as E1 E2; apply Hd; f_equal; lia).
  rewrite <- (sample_opp px py (- dx) (- dy) t Hd').
  rewrite !Z.opp_involutive. reflexivity.
Qed.

End Sampling.

(** ** How far a step along a unit direction moves *)

Section Steps.
Import Float64.

(** The step [dx / length * T] along a component [a] of the direction
    that is not negative: at most [T], exactly [T] when the direction
    has no other component, and zero when this one is zero. *)
Lemma unit_step (a n T : Z) :
  0 <= a -> a * a <= n -> 0 < n -> n < 2 ^ 52 -> 0 < T -> T < 2 ^ 31 ->
  regular (-79) 53 (mul (div (of_int a) (sqrt (of_int n))) (of_int T))
  /\ 0 <= scaled (mul (div (of_int a) (sqrt (of_int n))) (of_int T))
  /\ scaled (mul (div (of_int a) (sqrt (of_int n))) (of_int T))
     <= T * 2 ^ 1074
  /\ (a * a = n ->
      scaled (mul (div (of_int a) (sqrt (of_int n))) (of_int T))
      = T * 2 ^ 1074)
  /\ (a = 0 ->
      scaled (mul (div (of_int a) (sqrt (of_int n))) (of_int T)) = 0).
Proof.
  intros Ha Hsq Hn Hn52 HT HT31.
  assert (HK : 0 < 2 ^ 1074) by (apply Float64Magnitude.pow2_pos; lia).
  assert (HT52 : T < 2 ^ 52)
    by (apply Z.lt_trans with (2 ^ 31); [exact HT31|reflexivity]).
  destruct (Float64Value.of_int_positive T HT HT52)
    as (mT & eT & ET & DT & RT & VT).
  destruct (Z.eq_dec a 0) as [->|Ha0].
  - rewrite (div_zero_length n Hn), ET. cbn [mul SFmul xorb regular scaled].
    repeat split; try lia; nia.
  - destruct (Float64Value.of_int_positive a ltac:(lia) ltac:(nia))
      as (mA & eA & EA & DA & RA & VA).
    destruct (Float64Value.sqrt_of_int_sandwich n Hn Hn52)
      as (mL & eL & EL & DL & RL & LoL & UpL).
    rewrite EA, EL, ET.
    destruct (Float64Value.div_sandwich mA mL eA eL DA DL
                ltac:(lia) ltac:(lia))
      as (mu & eu & Eu & Du & Ru & LoU & UpU).
    rewrite Eu.
    destruct (Float64Value.mul_sandwich mu mT eu eT Du DT
                ltac:(lia) ltac:(lia))
      as (mt & et & Et & Dt & Rt & LoT & UpT).
    rewrite Et. cbn [regular scaled cond_Zopp].
    pose proof (Float64Magnitude.pow2_pos (et + 1074) ltac:(lia)) as HEt.
    pose proof (LoL a ltac:(lia) Hsq) as HaL.
    assert (Vu : Zpos mu * 2 ^ (eu + 1074) <= 2 ^ 1074).
    { change (2 ^ 1074) with (Zpos 4503599627370496 * 2 ^ (-52 + 1074)).
      apply UpU; [reflexivity|lia|].
      change (Zpos 4503599627370496 * 2 ^ (-52 + 1074)) with (2 ^ 1074).
      rewrite VA, (Z.mul_comm (2 ^ 1074)).
      apply Z.mul_le_mono_nonneg_r; lia. }
    assert (Vt : Zpos mt * 2 ^ (et + 1074) <= T * 2 ^ 1074).
    { rewrite <- VT. apply UpT; [exact DT|lia|].
      rewrite (Z.mul_comm (Zpos mu * 2 ^ (eu + 1074))).
      apply Z.mul_le_mono_nonneg_l; [|exact Vu]. rewrite VT. lia. }
    split; [split; [exact Dt|lia]|]. split; [nia|]. split; [exact Vt|].
    split; [|intros; lia].
    intros Heq.
    pose proof (UpL a ltac:(lia) ltac:(nia) ltac:(lia)) as HLa.
    assert (Vu' : 2 ^ 1074 <= Zpos mu * 2 ^ (eu + 1074)).
    { change (2 ^ 1074) with (Zpos 4503599627370496 * 2 ^ (-52 + 1074)) at 1.
      apply LoU; [reflexivity|lia|].
      change (Zpos 4503599627370496 * 2 ^ (-52 + 1074)) with (2 ^ 1074).
      rewrite VA, (Z.mul_comm (2 ^ 1074)).
      apply Z.mul_le_mono_nonneg_r; lia. }
    assert (Vt' : T * 2 ^ 1074 <= Zpos mt * 2 ^ (et + 1074)).
    { rewrite <- VT. apply LoT; [exact DT|lia|].
      rewrite (Z.mul_comm (Zpos mu * 2 ^ (eu + 1074))).
      apply Z.mul_le_mono_nonneg_l; [|exact Vu']. rewrite VT. lia. }
    lia.
Qed.

(** [int(x + t)] for an integer [x] and a step [t] between two
    integers. *)
Lemma add_between (x : Z) (t : float) (A B : Z) :
  Z.abs x < 2 ^ 51 -> Z.abs A < 2 ^ 52 -> Z.abs B < 2 ^ 52 ->
  regular (-79) 53 t ->
  (A - x) * 2 ^ 1074 <= scaled t -> scaled t <= (B - x) * 2 ^ 1074 ->
  exists z, to_int (add (of_int x) t) = Returns z /\ A <= z <= B.
Proof.
  intros Hx HA HB Rt Lo Up.
  assert (P : 2 ^ 51 < 2 ^ 52) by reflexivity.
  destruct (Float64Value.of_int_scaled x ltac:(lia)) as [Rx Vx].
  destruct (Float64Value.of_int_scaled A HA) as [RA VA].
  destruct (Float64Value.of_int_scaled B HB) as [RB VB].
  destruct (Float64Value.add_sandwich (-79) 53 (of_int x) t
              (of_int A) (of_int B)) as (R & L & U); try lia.
  - apply Float64Value.regular_weaken with (lo := -52) (hi := -1);
      [lia|lia|exact Rx].
  - exact Rt.
  - apply Float64Value.regular_weaken with (lo := -52) (hi := -1);
      [lia|lia|exact RA].
  - apply Float64Value.regular_weaken with (lo := -52) (hi := -1);
      [lia|lia|exact RB].
  - rewrite VA in L. rewrite VB in U.
    apply (Float64Value.to_int_between (-79 - 52) (53 + 2)
             (add (of_int x) t) A B); try lia.
    exact R.
Qed.

(** The two coordinates [extend_line_full] computes along one axis,
    from the coordinates [x] and [x'] of the two ends and the
    component [d] of the direction. *)
Lemma component_moves (x x' d n T : Z) :
  Z.abs x < 2 ^ 50 -> Z.abs x' < 2 ^ 50 ->
  d * d <= n -> 0 < n -> n < 2 ^ 52 -> 0 < T -> T < 2 ^ 31 ->
  exists z z',
    to_int (sub (of_int x)
              (mul (div (of_int d) (sqrt (of_int n))) (of_int T)))
    = Returns z
    /\ to_int (add (of_int x')
                 (mul (div (of_int d) (sqrt (of_int n))) (of_int T)))
       = Returns z'
    /\ (0 <= d -> x - T <= z <= x /\ x' <= z' <= x' + T)
    /\ (d <= 0 -> x <= z <= x + T /\ x' - T <= z' <= x')
    /\ (d * d = n -> 0 < d -> z = x - T /\ z' = x' + T)
    /\ (d * d = n -> d < 0 -> z = x + T /\ z' = x' - T).
Proof.
  intros Hx Hx' Hsq Hn Hn52 HT HT31.
  assert (P31 : 2 ^ 31 = 2147483648) by reflexivity.
  assert (P50 : 2 ^ 50 = 1125899906842624) by reflexivity.
  assert (P51 : 2 ^ 51 = 2251799813685248) by reflexivity.
  assert (P52 : 2 ^ 52 = 4503599627370496) by reflexivity.
  assert (HK : 0 < 2 ^ 1074) by (apply Float64Magnitude.pow2_pos; lia).
  destruct (Z_le_gt_dec 0 d) as [Hd|Hd].
  - (* the component is not negative *)
    destruct (unit_step d n T Hd Hsq Hn Hn52 HT HT31)
      as (Rt & T0 & T1 & Tex & Tz).
    set (t := mul (div (of_int d) (sqrt (of_int n))) (of_int T)) in *.
    rewrite Float64Sign.sub_add_neg.
    assert (Rn : regular (-79) 53 (neg t))
      by (apply Float64Value.regular_neg, Rt).
    pose proof (Float64Value.scaled_neg t) as Sn.
    destruct (Z.eq_dec (d * d) n) as [Heq|Hne];
      [destruct (Z.eq_dec d 0) as [Hd0|Hd0]|].
    + (* d = 0 = n: excluded *)
      subst d. lia.
    + specialize (Tex Heq).
      destruct (add_between x (neg t) (x - T) (x - T)) as (z & Ez & Bz);
        try lia; try exact Rn.
      destruct (add_between x' t (x' + T) (x' + T)) as (z' & Ez' & Bz');
        try lia; try exact Rt.
      exists z, z'. repeat split; try assumption; try lia.
    + destruct (add_between x (neg t) (x - T) x) as (z & Ez & Bz);
        try lia; try exact Rn.
      destruct (add_between x' t x' (x' + T)) as (z' & Ez' & Bz');
        try lia; try exact Rt.
      exists z, z'. split; [exact Ez|]. split; [exact Ez'|].
      split; [intros _; lia|].
      split; [intros Hd'; assert (d = 0) by lia; subst d|].
      * specialize (Tz eq_refl).
        destruct (add_between x (neg t) x x) as (w & Ew & Bw);
          try lia; try exact Rn.
        destruct (add_between x' t x' x') as (w' & Ew' & Bw');
          try lia; try exact Rt.
        rewrite Ez in Ew. rewrite Ez' in Ew'.
        injection Ew as ->. injection Ew' as ->. lia.
      * split; intros; lia.
  - (* the component is negative *)
    destruct (unit_step (- d) n T ltac:(lia) ltac:(nia) Hn Hn52 HT HT31)
      as (Rt & T0 & T1 & Tex & _).
    assert (Eo : of_int d = neg (of_int (- d))).
    { rewrite <- (Float64Sign.of_int_opp (- d)) by lia.
      f_equal. lia. }
    rewrite Eo, Float64Sign.div_neg_l, Float64Sign.mul_neg_l.
    set (t := mul (div (of_int (- d)) (sqrt (of_int n))) (of_int T)) in *.
    rewrite <- Float64Sign.add_sub_neg.
    assert (Rn : regular (-79) 53 (neg t))
      by (apply Float64Value.regular_neg, Rt).
    pose proof (Float64Value.scaled_neg t) as Sn.
    destruct (Z.eq_dec (d * d) n) as [Heq|Hne].
    + specialize (Tex ltac:(nia)).
      destruct (add_between x t (x + T) (x + T)) as (z & Ez & Bz);
        try lia; try exact Rt.
      destruct (add_between x' (neg t) (x' - T) (x' - T))
        as (z' & Ez' & Bz'); try lia; try exact Rn.
      exists z, z'. repeat split; try assumption; try lia.
    + destruct (add_between x t x (x + T)) as (z & Ez & Bz);
        try lia; try exact Rt.
      destruct (add_between x' (neg t) (x' - T) x') as (z' & Ez' & Bz');
        try lia; try exact Rn.
      exists z, z'. repeat split; try assumption; try lia.
Qed.

End Steps.

(** ** How far a step along the longer component reaches *)

Section Reach.
Import Float64.

(** Along a component [a] that is at least half the length (as that of
    the longer of the two always is), the step [a / length * T] is at
    least half of [T]. *)
Lemma unit_step_dominant (a n T H : Z) :
  0 < a -> a * a <= n -> n <= 4 * (a * a) -> n < 2 ^ 52 ->
  0 < H -> T = 2 * H -> T < 2 ^ 31 ->
  H * 2 ^ 1074
  <= scaled (mul (div (of_int a) (sqrt (of_int n))) (of_int T)).
Proof.
  intros Ha Hsq Hdom Hn52 HH HT HT31.
  assert (P31 : 2 ^ 31 = 2147483648) by reflexivity.
  assert (P52 : 2 ^ 52 = 4503599627370496) by reflexivity.
  assert (HK : 0 < 2 ^ 1074) by (apply Float64Magnitude.pow2_pos; lia).
  assert (Hn : 0 < n) by nia.
  assert (Ha26 : a < 67108864) by nia.
  destruct (Float64Value.of_int_positive T ltac:(lia) ltac:(lia))
    as (mT & eT & ET & DT & RT & VT).
  destruct (Float64Value.of_int_positive H HH ltac:(lia))
    as (mH & eH & EH & DH & RH & VH).
  destruct (Float64Value.of_int_positive a Ha ltac:(lia))
    as (mA & eA & EA & DA & RA & VA).
  destruct (Float64Value.sqrt_of_int_sandwich n Hn Hn52)
    as (mL & eL & EL & DL & RL & LoL & UpL).
  rewrite EA, EL, ET.
  destruct (Float64Value.div_sandwich mA mL eA eL DA DL
              ltac:(lia) ltac:(lia))
    as (mu & eu & Eu & Du & Ru & LoU & UpU).
  rewrite Eu.
  destruct (Float64Value.mul_sandwich mu mT eu eT Du DT
              ltac:(lia) ltac:(lia))
    as (mt & et & Et & Dt & Rt & LoT & UpT).
  rewrite Et. cbn [scaled cond_Zopp].
  pose proof (UpL (2 * a) ltac:(lia) ltac:(lia) ltac:(nia)) as HL.
  assert (E1073 : 2 * 2 ^ 1073 = 2 ^ 1074)
    by (change 1074 with (Z.succ 1073); rewrite Z.pow_succ_r by lia;
        reflexivity).
  assert (HK' : 0 < 2 ^ 1073) by (apply Float64Magnitude.pow2_pos; lia).
  (* the unit component is at least one half *)
  assert (Vu : 2 ^ 1073 <= Zpos mu * 2 ^ (eu + 1074)).
  { change (2 ^ 1073) with (Zpos 4503599627370496 * 2 ^ (-53 + 1074)) at 1.
    apply LoU; [reflexivity|lia|].
    change (Zpos 4503599627370496 * 2 ^ (-53 + 1074)) with (2 ^ 1073).
    rewrite VA.
    apply Z.le_trans with (2 ^ 1073 * (2 * a * 2 ^ 1074)).
    - apply Z.mul_le_mono_nonneg_l; [lia|exact HL].
    - rewrite <- E1073 at 2. apply Z.eq_le_incl. ring. }
  rewrite <- VH. apply LoT; [exact DH|lia|].
  rewrite VH, VT, HT.
  apply Z.le_trans with (2 ^ 1073 * (2 * H * 2 ^ 1074)).
  - rewrite <- E1073 at 2. apply Z.eq_le_incl. ring.
  - apply Z.mul_le_mono_nonneg_r; [|exact Vu].
    apply Z.mul_nonneg_nonneg; lia.
Qed.

(** The two coordinates [extend_line_full] computes along the axis of
    the longer component [d] of the direction: each end is carried at
    least half of [T] away from the other. *)
Lemma component_reaches (x x' d n T H : Z) :
  Z.abs x < 2 ^ 50 -> Z.abs x' < 2 ^ 50 ->
  d <> 0 -> d * d <= n -> n <= 4 * (d * d) -> n < 2 ^ 52 ->
  0 < H -> T = 2 * H -> T < 2 ^ 31 ->
  exists z z',
    to_int (sub (of_int x)
              (mul (div (of_int d) (sqrt (of_int n))) (of_int T)))
    = Returns z
    /\ to_int (add (of_int x')
                 (mul (div (of_int d) (sqrt (of_int n))) (of_int T)))
       = Returns z'
    /\ (0 < d -> x - T <= z <= x - H /\ x' + H <= z' <= x' + T)
    /\ (d < 0 -> x + H <= z <= x + T /\ x' - T <= z' <= x' - H).
Proof.
  intros Hx Hx' Hd0 Hsq Hdom Hn52 HH HT HT31.
  assert (P31 : 2 ^ 31 = 2147483648) by reflexivity.
  assert (P50 : 2 ^ 50 = 1125899906842624) by reflexivity.
  assert (P51 : 2 ^ 51 = 2251799813685248) by reflexivity.
  assert (P52 : 2 ^ 52 = 4503599627370496) by reflexivity.
  assert (HK : 0 < 2 ^ 1074) by (apply Float64Magnitude.pow2_pos; lia).
  assert (Hn : 0 < n) by nia.
  destruct (Z_lt_le_dec 0 d) as [Hd|Hd].
  - (* the component is positive *)
    destruct (unit_step d n T ltac:(lia) Hsq Hn Hn52 ltac:(lia) HT31)
      as (Rt & T0 & T1 & _).
    pose proof (unit_step_dominant d n T H Hd Hsq Hdom Hn52 HH HT HT31)
      as T2.
    set (t := mul (div (of_int d) (sqrt (of_int n))) (of_int T)) in *.
    rewrite Float64Sign.sub_add_neg.
    assert (Rn : regular (-79) 53 (neg t))
      by (apply Float64Value.regular_neg, Rt).
    pose proof (Float64Value.scaled_neg t) as Sn.
    destruct (add_between x (neg t) (x - T) (x - H)) as (z & Ez & Bz);
      try lia; try exact Rn.
    destruct (add_between x' t (x' + H) (x' + T)) as (z' & Ez' & Bz');
      try lia; try exact Rt.
    exists z, z'. split; [exact Ez|]. split; [exact Ez'|].
    split; intros; lia.
  - (* the component is negative *)
    assert (Hneg : 0 < - d) by lia.
    destruct (unit_step (- d) n T ltac:(lia) ltac:(nia) Hn Hn52
                ltac:(lia) HT31)
      as (Rt & T0 & T1 & _).
    pose proof (unit_step_dominant (- d) n T H Hneg ltac:(nia) ltac:(nia)
                  Hn52 HH HT HT31) as T2.
    assert (Eo : of_int d = neg (of_int (- d))).
    { rewrite <- (Float64Sign.of_int_opp (- d)) by lia.
      f_equal. lia. }
    rewrite Eo, Float64Sign.div_neg_l, Float64Sign.mul_neg_l.
    set (t := mul (div (of_int (- d)) (sqrt (of_int n))) (of_int T)) in *.
    rewrite <- Float64Sign.add_sub_neg.
    assert (Rn : regular (-79) 53 (neg t))
      by (apply Float64Value.regular_neg, Rt).
    pose proof (Float64Value.scaled_neg t) as Sn.
    destruct (add_between x t (x + H) (x + T)) as (z & Ez & Bz);
      try lia; try exact Rt.
    destruct (add_between x' (neg t) (x' - T) (x' - H)) as (z' & Ez' & Bz');
      try lia; try exact Rn.
    exists z, z'. split; [exact Ez|]. split; [exact Ez'|].
    split; intros; lia.
Qed.

End Reach.

(** ** Where the sampled pixels lie *)

Section Samples.
Import Float64.

(** The pixel sampled at the distance [t] from a point along a
    direction, and the one sampled against it: each coordinate moves
    by at most [t], to the side the direction points to, and by
    exactly [t] along a direction parallel to an axis. *)
Lemma sample_along (px py dx dy t : Z) :
  Z.abs px < 2 ^ 50 -> Z.abs py < 2 ^ 50 ->
  - 2 ^ 25 < dx < 2 ^ 25 -> - 2 ^ 25 < dy < 2 ^ 25 ->
  (dx, dy) <> (0, 0) -> 0 < t -> t < 2 ^ 31 ->
  exists x y x' y',
    sample px py (fst (unit_direction (dx, dy)))
      (snd (unit_direction (dx, dy))) t = Returns (x, y)
    /\ sample px py (fst (neg_direction (unit_direction (dx, dy))))
         (snd (neg_direction (unit_direction (dx, dy)))) t
       = Returns (x', y')
    /\ (0 <= dx -> px <= x <= px + t /\ px - t <= x' <= px)
    /\ (dx <= 0 -> px - t <= x <= px /\ px <= x' <= px + t)
    /\ (0 <= dy -> py <= y <= py + t /\ py - t <= y' <= py)
    /\ (dy <= 0 -> py - t <= y <= py /\ py <= y' <= py + t)
    /\ (dy = 0 -> 0 < dx -> x = px + t /\ x' = px - t)
    /\ (dy = 0 -> dx < 0 -> x = px - t /\ x' = px + t)
    /\ (dx = 0 -> 0 < dy -> y = py + t /\ y' = py - t)
    /\ (dx = 0 -> dy < 0 -> y = py - t /\ y' = py + t).
Proof.
  intros Hx Hy Bx By Hd Ht Ht31.
  change (2 ^ 25) with 33554432 in Bx, By.
  assert (Hnz : dx <> 0 \/ dy <> 0)
    by (destruct (Z.eq_dec dx 0) as [E1|], (Z.eq_dec dy 0) as [E2|]; auto;
        exfalso; apply Hd; rewrite E1, E2; reflexivity).
  pose proof (Z.square_nonneg dx) as Sx.
  pose proof (Z.square_nonneg dy) as Sy.
  assert (Ux : dx * dx < 33554432 * 33554432) by nia.
  assert (Uy : dy * dy < 33554432 * 33554432) by nia.
  assert (Hn : 0 < dx * dx + dy * dy).
  { destruct Hnz as [N|N].
    - assert (0 < dx * dx) by nia. lia.
    - assert (0 < dy * dy) by nia. lia. }
  assert (Hn52 : dx * dx + dy * dy < 2 ^ 52)
    by (change (2 ^ 52) with 4503599627370496; lia).
  set (n := dx * dx + dy * dy) in *.
  destruct (component_moves px px dx n t Hx Hx ltac:(subst n; lia)
              Hn Hn52 Ht Ht31)
    as (x' & x & Ex' & Ex & Xp & Xn & Xep & Xen).
  destruct (component_moves py py dy n t Hy Hy ltac:(subst n; lia)
              Hn Hn52 Ht Ht31)
    as (y' & y & Ey' & Ey & Yp & Yn & Yep & Yen).
  exists x, y, x', y'.
  unfold sample, unit_direction, neg_direction. cbn [fst snd]. fold n.
  rewrite <- !sub_mul_as_add.
  rewrite Ex, Ey, Ex', Ey'. cbn [bind].
  split; [reflexivity|]. split; [reflexivity|].
  split; [intros H; specialize (Xp H); lia|].
  split; [intros H; specialize (Xn H); lia|].
  split; [intros H; specialize (Yp H); lia|].
  split; [intros H; specialize (Yn H); lia|].
  split; [|split; [|split]]; intros E H.
  - destruct (Xep ltac:(subst n; rewrite E; ring) H). lia.
  - destruct (Xen ltac:(subst n; rewrite E; ring) H). lia.
  - destruct (Yep ltac:(subst n; rewrite E; ring) H). lia.
  - destruct (Yen ltac:(subst n; rewrite E; ring) H). lia.
Qed.

Lemma canvas_sizes (x1 y1 x2 y2 : Z) :
  canvas_sized x1 -> canvas_sized y1 ->
  canvas_sized x2 -> canvas_sized y2 ->
  Z.abs x1 < 2 ^ 50 /\ Z.abs y1 < 2 ^ 50
  /\ Z.abs x2 < 2 ^ 50 /\ Z.abs y2 < 2 ^ 50
  /\ - 2 ^ 25 < x2 - x1 < 2 ^ 25 /\ - 2 ^ 25 < y2 - y1 < 2 ^ 25
  /\ point_sized (x1, y1) /\ point_sized (x2, y2)
  /\ point_sized (x2 - x1, y2 - y1).
Proof.
  unfold canvas_sized, point_sized, coordinate_sized. cbn [fst snd].
  change (2 ^ 25) with 33554432. change (2 ^ 50) with 1125899906842624.
  change (2 ^ 32) with 4294967296. lia.
Qed.

Lemma sample_horizontal (px py dx t : Z) :
  Z.abs px < 2 ^ 50 -> Z.abs py < 2 ^ 50 ->
  0 < dx -> dx < 2 ^ 25 -> 0 < t -> t < 2 ^ 31 ->
  sample px py (fst (unit_direction (dx, 0)))
    (snd (unit_direction (dx, 0))) t = Returns (px + t, py)
  /\ sample px py (fst (neg_direction (unit_direction (dx, 0))))
       (snd (neg_direction (unit_direction (dx, 0)))) t
     = Returns (px - t, py).
Proof.
  intros Hx Hy Hd Hd25 Ht Ht31.
  assert (P : 2 ^ 25 = 33554432) by reflexivity.
  destruct (sample_along px py dx 0 t Hx Hy ltac:(lia) ltac:(lia)
              ltac:(intros E; injection E as E; lia) Ht Ht31)
    as (x & y & x' & y' & E & E' & _ & _ & Yp & Yn & Xe & _).
  destruct (Xe eq_refl Hd) as [-> ->].
  destruct (Yp ltac:(lia)), (Yn ltac:(lia)).
  assert (y = py) by lia. assert (y' = py) by lia. subst y y'.
  split; assumption.
Qed.

Lemma sample_vertical (px py dy t : Z) :
  Z.abs px < 2 ^ 50 -> Z.abs py < 2 ^ 50 ->
  0 < dy -> dy < 2 ^ 25 -> 0 < t -> t < 2 ^ 31 ->
  sample px py (fst (unit_direction (0, dy)))
    (snd (unit_direction (0, dy))) t = Returns (px, py + t)
  /\ sample px py (fst (neg_direction (unit_direction (0, dy))))
       (snd (neg_direction (unit_direction (0, dy)))) t
     = Returns (px, py - t).
Proof.
  intros Hx Hy Hd Hd25 Ht Ht31.
  assert (P : 2 ^ 25 = 33554432) by reflexivity.
  destruct (sample_along px py 0 dy t Hx Hy ltac:(lia) ltac:(lia)
              ltac:(intros E; injection E as E; lia) Ht Ht31)
    as (x & y & x' & y' & E & E' & Xp & Xn & _ & _ & _ & _ & Ye & _).
  destruct (Ye eq_refl Hd) as [-> ->].
  destruct (Xp ltac:(lia)), (Xn ltac:(lia)).
  assert (x = px) by lia. assert (x' = px) by lia. subst x x'.
  split; assumption.
Qed.

End Samples.

(* ================================================================== *)
(** * Part III: the pipeline *)
(* ================================================================== *)

(** ** Masks *)

Section Masks.

Lemma zip_with_map {A B C D : Type} (f : B -> C -> D) (g : A -> B)
  (h : A -> C) (l : list A) :
  zip_with f (map g l) (map h l) = map (fun a => f (g a) (h a)) l.
Proof.
  induction l as [|a l IH]; simpl; [reflexivity|]. now rewrite IH.
Qed.

(** A mask built plane by plane is the image mapped pixel by pixel. *)
Lemma threshold_mask_map (t1 t2 t3 : Z -> bool) (img : image) :
  to_uint8_mask
    (plane_and
       (plane_and (map (map t1) (map (map (fun p : pixel => snd p)) img))
                  (map (map t2) (map (map (fun p : pixel => snd (fst p))) img)))
       (map (map t3) (map (map (fun p : pixel => fst (fst p))) img)))
  = map (map (fun p : pixel =>
                (if t1 (snd p) && t2 (snd (fst p)) && t3 (fst (fst p))
                 then 255 else 0) mod 256)) img.
Proof.
  unfold to_uint8_mask, plane_and.
  rewrite !map_map, zip_with_map, zip_with_map, map_map.
  apply map_ext; intros row.
  rewrite !map_map, zip_with_map, zip_with_map, map_map.
  reflexivity.
Qed.

Lemma pixel_at_In (img : image) (y x : Z) (p : pixel) :
  pixel_at img y x = Some p -> exists row, In row img /\ In p row.
Proof.
  unfold pixel_at.
  destruct (nth_error img (Z.to_nat y)) as [row|] eqn:E; [|discriminate].
  intros H. exists row. split; eapply nth_error_In; eassumption.
Qed.

(** An image that has a pixel at some place has pixels. *)
Lemma pixel_at_pixel_count (img : image) (y x : Z) (p : pixel) :
  pixel_at img y x = Some p -> pixel_count img <> 0.
Proof.
  intros H. apply pixel_at_In in H as (row & Hrow & Hp).
  assert (Hin : In p (concat img))
    by (apply in_concat; exists row; split; assumption).
  unfold pixel_count, len.
  destruct (concat img); [destruct Hin|simpl; lia].
Qed.

(** With pixels, the masks are returned, and are the image mapped pixel
    by pixel. *)
Lemma get_white_mask_returns (img : image) :
  pixel_count img <> 0 ->
  LineFinder.get_white_mask img = Returns (bright_mask img).
Proof.
  intros H. apply Z.eqb_neq in H.
  unfold LineFinder.get_white_mask, split. rewrite H.
  cbn [unpack3 bind]. unfold plane_ge, bright_mask.
  rewrite threshold_mask_map. f_equal.
  apply map_ext; intros row. apply map_ext; intros [[b g] r].
  unfold is_bright, WHITE_MIN; simpl.
  destruct ((240 <=? r) && (240 <=? g) && (240 <=? b)); reflexivity.
Qed.

Lemma get_black_mask_returns (img : image) :
  pixel_count img <> 0 ->
  LineFinder.get_black_mask img = Returns (dark_mask img).
Proof.
  intros H. apply Z.eqb_neq in H.
  unfold LineFinder.get_black_mask, split. rewrite H.
  cbn [unpack3 bind]. unfold plane_le, dark_mask.
  rewrite threshold_mask_map. f_equal.
  apply map_ext; intros row. apply map_ext; intros [[b g] r].
  unfold is_dark, BLACK_MAX; simpl.
  destruct ((r <=? 40) && (g <=? 40) && (b <=? 40)); reflexivity.
Qed.

(** Without pixels, the unpacking of the planes raises. *)
Lemma get_white_mask_raises (img : image) :
  pixel_count img = 0 ->
  LineFinder.get_white_mask img = Raises ValueError.
Proof.
  intros H. apply Z.eqb_eq in H.
  unfold LineFinder.get_white_mask, split. rewrite H. reflexivity.
Qed.

Lemma get_black_mask_raises (img : image) :
  pixel_count img = 0 ->
  LineFinder.get_black_mask img = Raises ValueError.
Proof.
  intros H. apply Z.eqb_eq in H.
  unfold LineFinder.get_black_mask, split. rewrite H. reflexivity.
Qed.

Lemma get_white_mask_inv (img : image) (m : mask) :
  LineFinder.get_white_mask img = Returns m ->
  pixel_count img <> 0 /\ m = bright_mask img.
Proof.
  intros H. destruct (Z.eq_dec (pixel_count img) 0) as [E|E].
  - rewrite (get_white_mask_raises img E) in H. discriminate.
  - rewrite (get_white_mask_returns img E) in H.
    split; [exact E|congruence].
Qed.

Lemma get_black_mask_inv (img : image) (m : mask) :
  LineFinder.get_black_mask img = Returns m ->
  pixel_count img <> 0 /\ m = dark_mask img.
Proof.
  intros H. destruct (Z.eq_dec (pixel_count img) 0) as [E|E].
  - rewrite (get_black_mask_raises img E) in H. discriminate.
  - rewrite (get_black_mask_returns img E) in H.
    split; [exact E|congruence].
Qed.

Lemma mask_at_map (f : pixel -> Z) (img : image) (y x : Z) :
  mask_at (map (map f) img) y x
  = match pixel_at img y x with Some p => f p | None => 0 end.
Proof.
  unfold mask_at, pixel_at.
  generalize (Z.to_nat y) as i. generalize (Z.to_nat x) as j. clear y x.
  intros j i. revert img.
  induction i as [|i IH]; intros [|row img]; simpl;
    try (destruct j; reflexivity).
  - revert row. induction j as [|j IHj]; intros [|p row]; simpl;
      try reflexivity. apply IHj.
  - apply IH.
Qed.

Lemma bright_mask_at (img : image) (y x : Z) :
  mask_at (bright_mask img) y x
  = match pixel_at img y x with
    | Some p => if is_bright p then 255 else 0
    | None => 0
    end.
Proof. apply mask_at_map. Qed.

Lemma dark_mask_at (img : image) (y x : Z) :
  mask_at (dark_mask img) y x
  = match pixel_at img y x with
    | Some p => if is_dark p then 255 else 0
    | None => 0
    end.
Proof. apply mask_at_map. Qed.

Lemma bright_not_dark (p : pixel) : is_bright p && is_dark p = false.
Proof.
  destruct p as [[b g] r]; unfold is_bright, is_dark.
  destruct (240 <=? r) eqn:H1; simpl; [|reflexivity].
  destruct (r <=? 40) eqn:H2; simpl; [|now rewrite andb_false_r].
  apply Z.leb_le in H1. apply Z.leb_le in H2. lia.
Qed.

Lemma main_white_mask (img : image) :
  Main.get_white_mask img = LineFinder.get_white_mask img.
Proof. reflexivity. Qed.

Lemma main_black_mask (img : image) :
  Main.get_black_mask img = LineFinder.get_black_mask img.
Proof. reflexivity. Qed.

(** A dark pixel, in terms of the mask taken pixel by pixel. *)
Lemma dark_at_dark_mask (img : image) (x y : Z) :
  dark_at img x y
  <-> pixel_count img <> 0
      /\ (0 <= x < snd (shape (dark_mask img)))
      /\ (0 <= y < fst (shape (dark_mask img)))
      /\ 0 < mask_at (dark_mask img) y x.
Proof.
  unfold dark_at. split.
  - intros (m & Hm & H). apply get_black_mask_inv in Hm as [Hp ->].
    split; assumption.
  - intros (Hp & H). exists (dark_mask img).
    split; [apply get_black_mask_returns, Hp|exact H].
Qed.

(** The bright masks of no bright pixel is zero everywhere. *)
Lemma bright_mask_empty (img : image) :
  forallb (forallb (fun p => negb (is_bright p))) img = true ->
  forall y x, mask_at (bright_mask img) y x = 0.
Proof.
  intros H y x. rewrite bright_mask_at.
  destruct (pixel_at img y x) as [p|] eqn:E; [|reflexivity].
  apply pixel_at_In in E as (row & Hrow & Hp).
  rewrite forallb_forall in H. specialize (H row Hrow).
  rewrite forallb_forall in H. specialize (H p Hp).
  apply negb_true_iff in H. now rewrite H.
Qed.

End Masks.

(** C5. For an image that has the pixel [(b, g, r)] at [(y, x)], both
    masks are returned. In the bright mask the pixel is set exactly when
    all three of its channels are at least 240, in the dark mask exactly
    when all three are at most 40; a mask entry is 0 or 255; and each mask
    has the rows and the row lengths of the image. The masks of [main.py]
    are those of [line_finder.py]. *)
Theorem masks_threshold_the_channels (img : image) (y x b g r : Z) :
  pixel_at img y x = Some (b, g, r) ->
  exists white_mask black_mask,
    LineFinder.get_white_mask img = Returns white_mask
    /\ LineFinder.get_black_mask img = Returns black_mask
    /\ (0 < mask_at white_mask y x <-> 240 <= r /\ 240 <= g /\ 240 <= b)
    /\ (0 < mask_at black_mask y x <-> r <= 40 /\ g <= 40 /\ b <= 40)
    /\ (mask_at white_mask y x = 0 \/ mask_at white_mask y x = 255)
    /\ (mask_at black_mask y x = 0 \/ mask_at black_mask y x = 255)
    /\ map (@Datatypes.length Z) white_mask
       = map (@Datatypes.length pixel) img
    /\ map (@Datatypes.length Z) black_mask
       = map (@Datatypes.length pixel) img
    /\ Main.get_white_mask img = LineFinder.get_white_mask img
    /\ Main.get_black_mask img = LineFinder.get_black_mask img.
Proof.
  intros Hp.
  pose proof (pixel_at_pixel_count img y x _ Hp) as Hc.
  exists (bright_mask img), (dark_mask img).
  split; [apply get_white_mask_returns, Hc|].
  split; [apply get_black_mask_returns, Hc|].
  rewrite bright_mask_at, dark_mask_at, Hp.
  unfold bright_mask, dark_mask. rewrite !map_map.
  unfold is_bright, is_dark.
  assert (W : (240 <=? r) && (240 <=? g) && (240 <=? b) = true
              <-> 240 <= r /\ 240 <= g /\ 240 <= b)
    by (rewrite !andb_true_iff, !Z.leb_le; tauto).
  assert (B : (r <=? 40) && (g <=? 40) && (b <=? 40) = true
              <-> r <= 40 /\ g <= 40 /\ b <= 40)
    by (rewrite !andb_true_iff, !Z.leb_le; tauto).
  split; [|split; [|split; [|split; [|split; [|split; [|split]]]]]].
  - rewrite <- W.
    destruct ((240 <=? r) && (240 <=? g) && (240 <=? b)); split;
      intros H; try reflexivity; try discriminate; lia.
  - rewrite <- B.
    destruct ((r <=? 40) && (g <=? 40) && (b <=? 40)); split;
      intros H; try reflexivity; try discriminate; lia.
  - destruct ((240 <=? r) && (240 <=? g) && (240 <=? b)); auto.
  - destruct ((r <=? 40) && (g <=? 40) && (b <=? 40)); auto.
  - apply map_ext; intros row. apply length_map.
  - apply map_ext; intros row. apply length_map.
  - reflexivity.
  - reflexivity.
Qed.

(** The theorem at the pixel (6, 3) of the white bar. *)
Lemma masks_threshold_the_channels_on_bar :
  exists white_mask black_mask,
    LineFinder.get_white_mask Rectangles.bar = Returns white_mask
    /\ LineFinder.get_black_mask Rectangles.bar = Returns black_mask
    /\ (0 < mask_at white_mask 3 6
        <-> 240 <= 255 /\ 240 <= 255 /\ 240 <= 255)
    /\ (0 < mask_at black_mask 3 6
        <-> 255 <= 40 /\ 255 <= 40 /\ 255 <= 40).
Proof.
  destruct (masks_threshold_the_channels Rectangles.bar 3 6 255 255 255
              eq_refl) as (w & k & H1 & H2 & H3 & H4 & _).
  exists w, k. exact (conj H1 (conj H2 (conj H3 H4))).
Defined.

(** C10. No pixel is set in both masks of an image; hence a pixel the
    termination check finds set in the dark mask is not a pixel of the
    bright mask. The same holds of the masks of [main.py]. *)
Theorem masks_are_disjoint (img : image) (white_mask black_mask : mask)
  (y x : Z) :
  LineFinder.get_white_mask img = Returns white_mask ->
  LineFinder.get_black_mask img = Returns black_mask ->
  ~ (0 < mask_at white_mask y x /\ 0 < mask_at black_mask y x)
  /\ (forall x' y', dark_at img x' y' -> mask_at white_mask y' x' = 0)
  /\ Main.get_white_mask img = Returns white_mask
  /\ Main.get_black_mask img = Returns black_mask.
Proof.
  intros Hw Hb.
  pose proof Hw as Hw'. pose proof Hb as Hb'.
  apply get_white_mask_inv in Hw as [Hc ->].
  apply get_black_mask_inv in Hb as [_ ->].
  assert (D : forall y x,
             ~ (0 < mask_at (bright_mask img) y x
                /\ 0 < mask_at (dark_mask img) y x)).
  { clear y x. intros y x. rewrite bright_mask_at, dark_mask_at.
    destruct (pixel_at img y x) as [p|]; [|lia].
    pose proof (bright_not_dark p) as H.
    destruct (is_bright p), (is_dark p); simpl in H; try discriminate; lia. }
  split; [apply D|]. split; [|split; assumption].
  intros x' y' Hd. apply dark_at_dark_mask in Hd as (_ & _ & _ & Hd).
  specialize (D y' x').
  assert (Hv : mask_at (bright_mask img) y' x' = 0
               \/ mask_at (bright_mask img) y' x' = 255).
  { rewrite bright_mask_at. destruct (pixel_at img y' x') as [p|]; auto.
    destruct (is_bright p); auto. }
  destruct Hv as [Hv|Hv]; [exact Hv|]. exfalso. apply D. lia.
Qed.

(** The theorem on the white bar, at a pixel of the bar and at a pixel of
    the ground. *)
Lemma masks_are_disjoint_on_bar :
  ~ (0 < mask_at (bright_mask Rectangles.bar) 3 6
     /\ 0 < mask_at (dark_mask Rectangles.bar) 3 6)
  /\ ~ (0 < mask_at (bright_mask Rectangles.bar) 0 0
        /\ 0 < mask_at (dark_mask Rectangles.bar) 0 0).
Proof.
  split.
  - exact (proj1 (masks_are_disjoint Rectangles.bar
                    (bright_mask Rectangles.bar) (dark_mask Rectangles.bar)
                    3 6 eq_refl eq_refl)).
  - exact (proj1 (masks_are_disjoint Rectangles.bar
                    (bright_mask Rectangles.bar) (dark_mask Rectangles.bar)
                    0 0 eq_refl eq_refl)).
Defined.

(** ** The termination check *)

Section Termination.
Import Float64.

Lemma has_black_ahead_step (black_mask : mask) (h w px py : Z)
  (dir_x dir_y : float) (t : Z) (rest : list Z) :
  LineFinder.has_black_ahead black_mask h w px py dir_x dir_y (t :: rest)
  = (xy <- sample px py dir_x dir_y t ;;
     if hits black_mask h w xy then Returns true
     else LineFinder.has_black_ahead black_mask h w px py dir_x dir_y rest).
Proof.
  unfold sample, hits; simpl.
  destruct (to_int (add (of_int px) (mul dir_x (of_int t)))); simpl;
    [|reflexivity].
  destruct (to_int (add (of_int py) (mul dir_y (of_int t)))); reflexivity.
Qed.

Lemma has_black_ahead_true (black_mask : mask) (h w px py : Z)
  (dir_x dir_y : float) (dists : list Z) :
  LineFinder.has_black_ahead black_mask h w px py dir_x dir_y dists
  = Returns true ->
  exists t x y,
    In t dists /\ sample px py dir_x dir_y t = Returns (x, y)
    /\ hits black_mask h w (x, y) = true.
Proof.
  induction dists as [|t rest IH]; [discriminate|].
  rewrite has_black_ahead_step.
  destruct (sample px py dir_x dir_y t) as [[x y]|e] eqn:Es; simpl;
    [|discriminate].
  destruct (hits black_mask h w (x, y)) eqn:Eh.
  - intros _. exists t, x, y. simpl; auto.
  - intros H. destruct (IH H) as (t' & x' & y' & Hin & Hs & Hh).
    exists t', x', y'. simpl; auto.
Qed.

Lemma has_black_ahead_false (black_mask : mask) (h w px py : Z)
  (dir_x dir_y : float) (dists : list Z) :
  LineFinder.has_black_ahead black_mask h w px py dir_x dir_y dists
  = Returns false ->
  forall t x y,
    In t dists -> sample px py dir_x dir_y t = Returns (x, y) ->
    hits black_mask h w (x, y) = false.
Proof.
  induction dists as [|t rest IH]; [intros _ t x y []|].
  rewrite has_black_ahead_step.
  destruct (sample px py dir_x dir_y t) as [[x y]|e] eqn:Es; simpl;
    [|discriminate].
  destruct (hits black_mask h w (x, y)) eqn:Eh; [discriminate|].
  intros H t' x' y' [<-|Hin] Hs.
  - rewrite Es in Hs. injection Hs as <- <-. exact Eh.
  - eapply IH; eassumption.
Qed.

(** When every sample is defined, the search returns. *)
Lemma has_black_ahead_returns (black_mask : mask) (h w px py : Z)
  (dir_x dir_y : float) (dists : list Z) :
  forallb (fun t => match sample px py dir_x dir_y t with
                    | Returns _ => true
                    | Raises _ => false
                    end) dists = true ->
  exists b,
    LineFinder.has_black_ahead black_mask h w px py dir_x dir_y dists
    = Returns b.
Proof.
  induction dists as [|t rest IH]; simpl forallb; [eexists; reflexivity|].
  rewrite has_black_ahead_step.
  destruct (sample px py dir_x dir_y t) as [xy|e]; simpl; [|discriminate].
  intros H. destruct (hits black_mask h w xy); [eexists; reflexivity|].
  apply IH, H.
Qed.

(** *** [np.sqrt] on a sum of two squares *)

Lemma squares_nonneg (dx dy : Z) : 0 <= dx * dx + dy * dy.
Proof.
  pose proof (Z.square_nonneg dx). pose proof (Z.square_nonneg dy). lia.
Qed.

Lemma np_sqrt_returns (n : Z) :
  0 <= n < 2 ^ 64 -> np_sqrt n = Returns (sqrt (of_int n)).
Proof.
  intros H. unfold np_sqrt.
  replace (- 2 ^ 63 <=? n) with true
    by (symmetry; apply Z.leb_le; change (2 ^ 63) with 9223372036854775808;
        lia).
  replace (n <? 2 ^ 64) with true by (symmetry; apply Z.ltb_lt; lia).
  reflexivity.
Qed.

Lemma np_sqrt_raises (n : Z) :
  2 ^ 64 <= n -> np_sqrt n = Raises TypeError.
Proof.
  intros H. unfold np_sqrt.
  replace (n <? 2 ^ 64) with false by (symmetry; apply Z.ltb_ge; lia).
  rewrite andb_false_r. reflexivity.
Qed.

Lemma np_sqrt_squares (dx dy : Z) :
  dx * dx + dy * dy < 2 ^ 64 ->
  np_sqrt (dx * dx + dy * dy) = Returns (sqrt (of_int (dx * dx + dy * dy))).
Proof.
  intros H. apply np_sqrt_returns. split; [apply squares_nonneg|exact H].
Qed.

(** The squared length of a coordinate-sized direction with a component
    below [2^31] in absolute value fits 64 bits. *)
Lemma squares_fit (dx dy : Z) :
  Z.abs dx < 2 ^ 31 -> Z.abs dy < 2 ^ 31 -> dx * dx + dy * dy < 2 ^ 64.
Proof.
  change (2 ^ 31) with 2147483648.
  change (2 ^ 64) with 18446744073709551616.
  intros Hx Hy.
  assert (dx * dx <= 2147483648 * 2147483648) by nia.
  assert (dy * dy <= 2147483648 * 2147483648) by nia.
  lia.
Qed.

(** *** The check, case by case *)

(** On an image without pixels the check raises at its first
    statement. *)
Lemma check_black_at_ends_no_pixel (img : image) (p1 p2 : point)
  (d : Z * Z) (r : Z) :
  pixel_count img = 0 ->
  LineFinder.check_black_at_ends img p1 p2 d r = Raises ValueError.
Proof.
  intros H. unfold LineFinder.check_black_at_ends.
  rewrite (get_black_mask_raises img H). reflexivity.
Qed.

(** A squared length beyond 64 bits raises in [np.sqrt]. *)
Lemma check_black_at_ends_too_long (img : image) (p1 p2 : point)
  (d : Z * Z) (r : Z) :
  pixel_count img <> 0 ->
  2 ^ 64 <= fst d * fst d + snd d * snd d ->
  LineFinder.check_black_at_ends img p1 p2 d r = Raises TypeError.
Proof.
  intros H Hn. destruct d as [dx dy]. cbn [fst snd] in Hn.
  unfold LineFinder.check_black_at_ends.
  rewrite (get_black_mask_returns img H). cbn [bind].
  destruct (shape (dark_mask img)) as [h w].
  rewrite (np_sqrt_raises _ Hn). reflexivity.
Qed.

Lemma check_black_at_ends_zero (img : image) (p1 p2 : point) (r : Z) :
  pixel_count img <> 0 ->
  LineFinder.check_black_at_ends img p1 p2 (0, 0) r = Returns true.
Proof.
  intros H. unfold LineFinder.check_black_at_ends.
  rewrite (get_black_mask_returns img H). cbn [bind].
  destruct (shape (dark_mask img)) as [h w]. reflexivity.
Qed.

Lemma check_black_at_ends_nonzero (img : image) (p1 p2 : point)
  (d : Z * Z) (r : Z) :
  pixel_count img <> 0 ->
  fst d * fst d + snd d * snd d < 2 ^ 64 ->
  d <> (0, 0) ->
  LineFinder.check_black_at_ends img p1 p2 d r
  = (let black_mask := dark_mask img in
     let u := unit_direction d in
     end1_ok <- LineFinder.has_black_ahead black_mask
                  (fst (shape black_mask)) (snd (shape black_mask))
                  (fst p1) (snd p1) (fst (neg_direction u))
                  (snd (neg_direction u)) (py_range 3 r) ;;
     end2_ok <- LineFinder.has_black_ahead black_mask
                  (fst (shape black_mask)) (snd (shape black_mask))
                  (fst p2) (snd p2) (fst u) (snd u) (py_range 3 r) ;;
     Returns (end1_ok || end2_ok)).
Proof.
  destruct d as [dx dy]; cbn [fst snd]; intros H Hn Hd.
  unfold LineFinder.check_black_at_ends, unit_direction, neg_direction.
  rewrite (get_black_mask_returns img H). cbn [bind].
  rewrite (np_sqrt_squares dx dy Hn). cbn [bind].
  cbv beta iota zeta delta [shape fst snd].
  rewrite (length_nonzero dx dy Hd). reflexivity.
Qed.

(** A check that returns was given an image with pixels and a direction
    whose squared length fits 64 bits. *)
Lemma check_black_at_ends_returned (img : image) (p1 p2 : point)
  (d : Z * Z) (r : Z) (b : bool) :
  LineFinder.check_black_at_ends img p1 p2 d r = Returns b ->
  pixel_count img <> 0 /\ fst d * fst d + snd d * snd d < 2 ^ 64.
Proof.
  intros H. destruct (Z.eq_dec (pixel_count img) 0) as [E|E].
  - rewrite (check_black_at_ends_no_pixel img p1 p2 d r E) in H.
    discriminate.
  - split; [exact E|].
    destruct (Z.lt_ge_cases (fst d * fst d + snd d * snd d) (2 ^ 64))
      as [L|L]; [exact L|].
    rewrite (check_black_at_ends_too_long img p1 p2 d r E L) in H.
    discriminate.
Qed.

Lemma end_succeeds_of_search (img : image) (p : point)
  (dir : float * float) (r : Z) :
  pixel_count img <> 0 ->
  LineFinder.has_black_ahead (dark_mask img)
    (fst (shape (dark_mask img))) (snd (shape (dark_mask img)))
    (fst p) (snd p) (fst dir) (snd dir) (py_range 3 r) = Returns true ->
  end_succeeds img p dir r.
Proof.
  intros Hp H.
  apply has_black_ahead_true in H as (t & x & y & Hin & Hs & Hh).
  exists t, x, y. apply py_range_In in Hin. apply hits_true in Hh.
  rewrite dark_at_dark_mask. tauto.
Qed.

Lemma search_of_end_succeeds (img : image) (p : point)
  (dir : float * float) (r : Z) :
  end_succeeds img p dir r ->
  LineFinder.has_black_ahead (dark_mask img)
    (fst (shape (dark_mask img))) (snd (shape (dark_mask img)))
    (fst p) (snd p) (fst dir) (snd dir) (py_range 3 r) <> Returns false.
Proof.
  intros (t & x & y & Ht & Hs & Hd) H.
  apply py_range_In in Ht.
  pose proof (has_black_ahead_false _ _ _ _ _ _ _ _ H t x y Ht Hs) as Hf.
  apply dark_at_dark_mask in Hd as (_ & Hd).
  assert (Hh : hits (dark_mask img) (fst (shape (dark_mask img)))
                 (snd (shape (dark_mask img))) (x, y) = true)
    by (apply hits_true; tauto).
  congruence.
Qed.

(** A successful check of a non-zero direction found a dark pixel. *)
Lemma check_black_at_ends_true (img : image) (p1 p2 : point)
  (d : Z * Z) (r : Z) :
  d <> (0, 0) ->
  LineFinder.check_black_at_ends img p1 p2 d r = Returns true ->
  end_succeeds img p1 (neg_direction (unit_direction d)) r
  \/ end_succeeds img p2 (unit_direction d) r.
Proof.
  intros Hd Hc.
  destruct (check_black_at_ends_returned _ _ _ _ _ _ Hc) as [Hp Hn].
  revert Hc. rewrite (check_black_at_ends_nonzero img p1 p2 d r Hp Hn Hd).
  cbv zeta.
  destruct (LineFinder.has_black_ahead _ _ _ (fst p1) _ _ _ _)
    as [e1|] eqn:E1; simpl; [|discriminate].
  destruct (LineFinder.has_black_ahead _ _ _ (fst p2) _ _ _ _)
    as [e2|] eqn:E2; simpl; [|discriminate].
  intros H. injection H as H. apply orb_true_iff in H as [-> | ->].
  - left. apply end_succeeds_of_search; [exact Hp|exact E1].
  - right. apply end_succeeds_of_search; [exact Hp|exact E2].
Qed.

Lemma main_check_black_at_ends (img : image) (p1 p2 : point)
  (d : Z * Z) (r : Z) :
  Main.check_black_at_ends img p1 p2 d r
  = LineFinder.check_black_at_ends img p1 p2 d r.
Proof. reflexivity. Qed.

(** The check on any direction, provided no sampled coordinate is a NaN
    or an infinity: it returns the disjunction of the two searches, each
    of which is true exactly when its end succeeds. *)
Lemma check_black_at_ends_ends (img : image) (p1 p2 : point) (d : Z * Z)
  (r : Z) :
  pixel_count img <> 0 ->
  fst d * fst d + snd d * snd d < 2 ^ 64 ->
  d <> (0, 0) ->
  samples_defined p1 (neg_direction (unit_direction d)) r = true ->
  samples_defined p2 (unit_direction d) r = true ->
  exists end1_ok end2_ok,
    LineFinder.check_black_at_ends img p1 p2 d r
    = Returns (end1_ok || end2_ok)
    /\ (end1_ok = true <->
        end_succeeds img p1 (neg_direction (unit_direction d)) r)
    /\ (end2_ok = true <-> end_succeeds img p2 (unit_direction d) r).
Proof.
  intros Hp Hn Hd D1 D2.
  rewrite (check_black_at_ends_nonzero img p1 p2 d r Hp Hn Hd). cbv zeta.
  set (bm := dark_mask img).
  destruct (has_black_ahead_returns bm (fst (shape bm)) (snd (shape bm))
              _ _ _ _ _ D1) as [e1 E1].
  destruct (has_black_ahead_returns bm (fst (shape bm)) (snd (shape bm))
              _ _ _ _ _ D2) as [e2 E2].
  rewrite E1, E2. simpl. exists e1, e2. split; [reflexivity|].
  split; split.
  - intros ->. apply end_succeeds_of_search; [exact Hp|exact E1].
  - intros H. apply search_of_end_succeeds in H. fold bm in H.
    destruct e1; [reflexivity|congruence].
  - intros ->. apply end_succeeds_of_search; [exact Hp|exact E2].
  - intros H. apply search_of_end_succeeds in H. fold bm in H.
    destruct e2; [reflexivity|congruence].
Qed.

Lemma check_black_at_ends_defined (img : image) (p1 p2 : point)
  (d : Z * Z) (r : Z) :
  pixel_count img <> 0 ->
  fst d * fst d + snd d * snd d < 2 ^ 64 ->
  d <> (0, 0) ->
  samples_defined p1 (neg_direction (unit_direction d)) r = true ->
  samples_defined p2 (unit_direction d) r = true ->
  exists b,
    LineFinder.check_black_at_ends img p1 p2 d r = Returns b
    /\ (b = true <->
        end_succeeds img p1 (neg_direction (unit_direction d)) r
        \/ end_succeeds img p2 (unit_direction d) r).
Proof.
  intros Hp Hn Hd D1 D2.
  destruct (check_black_at_ends_ends img p1 p2 d r Hp Hn Hd D1 D2)
    as (e1 & e2 & E & H1 & H2).
  exists (e1 || e2). split; [exact E|].
  rewrite orb_true_iff, H1, H2. tauto.
Qed.

End Termination.

Example check_black_at_ends_on_bar :
  LineFinder.check_black_at_ends Rectangles.bar (5, 2) (40, 5) (35, 3) 20
  = Returns true.
Proof. vm_compute. reflexivity. Qed.

Example check_black_at_ends_on_no_image :
  LineFinder.check_black_at_ends [] (5, 2) (5, 2) (0, 0) 20
  = Raises ValueError
  /\ LineFinder.check_black_at_ends Rectangles.bar (0, 0)
       (4294967296, 0) (4294967296, 0) 20
     = Raises TypeError.
Proof. split; vm_compute; reflexivity. Qed.

(** ** Where the termination check looks *)

Section Beyond.
Import Float64.

(** The pixels sampled at the distance [t] from the two ends of a line
    on a canvas, each along the direction away from the other end, lie
    beyond these ends. *)
Lemma samples_beyond (x1 y1 x2 y2 t : Z) :
  canvas_sized x1 -> canvas_sized y1 ->
  canvas_sized x2 -> canvas_sized y2 ->
  (x2 - x1, y2 - y1) <> (0, 0) -> 0 < t -> t < 2 ^ 31 ->
  exists back ahead,
    sample x1 y1
      (fst (neg_direction (unit_direction (x2 - x1, y2 - y1))))
      (snd (neg_direction (unit_direction (x2 - x1, y2 - y1)))) t
    = Returns back
    /\ beyond t (x1, y1) (x2, y2) back
    /\ sample x2 y2 (fst (unit_direction (x2 - x1, y2 - y1)))
         (snd (unit_direction (x2 - x1, y2 - y1))) t
       = Returns ahead
    /\ beyond t (x2, y2) (x1, y1) ahead.
Proof.
  intros H1 H2 H3 H4 Hd Ht Ht31.
  destruct (canvas_sizes x1 y1 x2 y2 H1 H2 H3 H4)
    as (A1 & A2 & A3 & A4 & Bx & By & _).
  destruct (sample_along x1 y1 (x2 - x1) (y2 - y1) t A1 A2 Bx By Hd
              Ht Ht31)
    as (a & b & a' & b' & _ & E' & Xp & Xn & Yp & Yn & Xe & Xe' & Ye & Ye').
  destruct (sample_along x2 y2 (x2 - x1) (y2 - y1) t A3 A4 Bx By Hd
              Ht Ht31)
    as (c & d & c' & d' & E & _ & Xq & Xm & Yq & Ym & Xf & Xf' & Yf & Yf').
  exists (a', b'), (c, d).
  split; [exact E'|]. split; [|split; [exact E|]].
  - unfold beyond, moved_away. cbn [fst snd].
    split; [clear - Xp Xn; lia|]. split; [clear - Yp Yn; lia|].
    split; [intros Q L; apply Xe; clear - Q L; lia|].
    split; [intros Q L; apply Xe'; clear - Q L; lia|].
    split; [intros Q L; apply Ye; clear - Q L; lia|].
    intros Q L; apply Ye'; clear - Q L; lia.
  - unfold beyond, moved_away. cbn [fst snd].
    split; [clear - Xq Xm; lia|]. split; [clear - Yq Ym; lia|].
    split; [intros Q L; apply Xf'; clear - Q L; lia|].
    split; [intros Q L; apply Xf; clear - Q L; lia|].
    split; [intros Q L; apply Yf'; clear - Q L; lia|].
    intros Q L; apply Yf; clear - Q L; lia.
Qed.


(** A check that succeeds on the two different ends of a line on a
    canvas has sampled a dark pixel beyond one of them. *)
Lemma dark_pixel_beyond_an_end (img : image) (x1 y1 x2 y2 : Z) :
  canvas_sized x1 -> canvas_sized y1 ->
  canvas_sized x2 -> canvas_sized y2 ->
  (x2 - x1, y2 - y1) <> (0, 0) ->
  LineFinder.check_black_at_ends img (x1, y1) (x2, y2)
    (x2 - x1, y2 - y1) 20 = Returns true ->
  exists t x y,
    3 <= t < 20 /\ dark_at img x y
    /\ (beyond t (x1, y1) (x2, y2) (x, y)
        \/ beyond t (x2, y2) (x1, y1) (x, y)).
Proof.
  intros H1 H2 H3 H4 Hd Hc.
  apply (check_black_at_ends_true img (x1, y1) (x2, y2) _ 20 Hd) in Hc.
  destruct Hc as [(t & x & y & Ht & Es & Hdark)|(t & x & y & Ht & Es & Hdark)];
    cbn [fst snd] in Es; exists t, x, y;
    (split; [exact Ht|]); (split; [exact Hdark|]);
    destruct (samples_beyond x1 y1 x2 y2 t H1 H2 H3 H4 Hd ltac:(lia)
                ltac:(change (2 ^ 31) with 2147483648; lia))
      as (back & ahead & Eb & Bb & Ea & Ba).
  - left. rewrite Eb in Es. injection Es as <-. exact Bb.
  - right. rewrite Ea in Es. injection Es as <-. exact Ba.
Qed.

End Beyond.



(** ** End points *)

Section Endpoints.
Context {cv : OpenCV}.

Lemma main_pairwise_search (hull_points : list point)
  (st : LineFinder.search_state) :
  Main.pairwise_search hull_points st
  = LineFinder.outer_loop hull_points st.
Proof.
  revert st. induction hull_points as [|pt1 tail IH]; intros st;
    [reflexivity|].
  cbn [Main.pairwise_search LineFinder.outer_loop].
  rewrite IH. unfold LineFinder.inner_loop, LineFinder.point_dist.
  reflexivity.
Qed.

Lemma main_find_line_endpoints (c : contour) :
  Main.find_line_endpoints c = LineFinder.find_line_endpoints c.
Proof.
  unfold Main.find_line_endpoints, LineFinder.find_line_endpoints.
  rewrite main_pairwise_search. reflexivity.
Qed.

Lemma find_line_endpoints_short (c : contour) :
  len c < 2 -> LineFinder.find_line_endpoints c = ((0, 0), (0, 0)).
Proof.
  intros H. unfold LineFinder.find_line_endpoints.
  apply Z.ltb_lt in H. now rewrite H.
Qed.

End Endpoints.

(** C9. A boundary of fewer than two points yields the default pair
    ((0, 0), (0, 0)): the function returns, in both files. *)
Theorem find_line_endpoints_degenerate {cv : OpenCV} (c : contour) :
  len c < 2 ->
  LineFinder.find_line_endpoints c = ((0, 0), (0, 0))
  /\ Main.find_line_endpoints c = ((0, 0), (0, 0)).
Proof.
  intros H. split.
  - apply find_line_endpoints_short, H.
  - unfold Main.find_line_endpoints.
    apply Z.ltb_lt in H. now rewrite H.
Qed.

(** The theorem at the empty boundary and at a boundary of one point. *)
Lemma find_line_endpoints_degenerate_examples :
  (@LineFinder.find_line_endpoints Rectangles.opencv [] = ((0, 0), (0, 0))
   /\ @Main.find_line_endpoints Rectangles.opencv [] = ((0, 0), (0, 0)))
  /\ (@LineFinder.find_line_endpoints Rectangles.opencv [(7, 9)]
      = ((0, 0), (0, 0))
      /\ @Main.find_line_endpoints Rectangles.opencv [(7, 9)]
         = ((0, 0), (0, 0))).
Proof.
  split.
  - apply (@find_line_endpoints_degenerate Rectangles.opencv []).
    reflexivity.
  - apply (@find_line_endpoints_degenerate Rectangles.opencv [(7, 9)]).
    reflexivity.
Defined.

(** C3, where the code departs from it. The four corners of a bar 3 pixels
    thick that spans an image 46342 pixels wide: the squared length of every
    long pair exceeds [2^31 - 1], wraps around to a negative [np.int32], its
    square root is a NaN, and [dist > max_dist] is false for it. The pair
    returned is a short side, at distance 2, although the corners (0, 0)
    and (46341, 2) are farther apart. The hull is not consulted: the
    boundary has four points. *)
Theorem find_line_endpoints_wraps_around {cv : OpenCV} :
  let boundary := [(0, 0); (0, 2); (46341, 2); (46341, 0)] in
  LineFinder.find_line_endpoints boundary = ((0, 0), (0, 2))
  /\ Main.find_line_endpoints boundary = ((0, 0), (0, 2))
  /\ LineFinder.point_dist (0, 0) (46341, 2) = S754_nan
  /\ dist2 (0, 0) (0, 2) < dist2 (0, 0) (46341, 2).
Proof.
  cbv zeta. repeat split; vm_compute; reflexivity.
Qed.

(** ** The loop over the contours *)

Section Loop.
Context {cv : OpenCV}.
Import Float64.

Ltac split_on_tests :=
  repeat match goal with
    | |- context [ltb ?a ?b] => destruct (ltb a b)
    end.

(** One turn of the loop of [find_lines]: a contour the shape filter
    rejects is skipped; any other is kept or skipped by the termination
    check alone. *)
Lemma find_lines_loop_step (img : image) (c : contour)
  (rest : list contour) (acc : list LineFinder.DetectedLine) :
  LineFinder.find_lines_loop img (c :: rest) acc
  = if shape_filter_rejects (contourArea c) (fst (measure c))
         (snd (measure c))
    then LineFinder.find_lines_loop img rest acc
    else
      ok <- terminated img c ;;
      LineFinder.find_lines_loop img rest
        (if ok then acc ++ [line_of c] else acc).
Proof.
  cbn [LineFinder.find_lines_loop].
  unfold shape_filter_rejects, terminated, line_of, measure.
  destruct (boundingRect c) as [[[x y] w] h].
  destruct (minAreaRect c) as [[ctr [rw rh]] ang].
  destruct (LineFinder.find_line_endpoints c) as [p1 p2].
  destruct (5 <=? len c); cbn [fst snd];
    split_on_tests; cbn [orb]; try reflexivity;
    (destruct (LineFinder.check_black_at_ends img p1 p2
                 (fst p2 - fst p1, snd p2 - snd p1) 20) as [[|]|];
     reflexivity).
Qed.

Lemma detect_loop_step (img : image) (c : contour)
  (rest : list contour) (acc : list Main.valid_line) :
  Main.detect_loop img (c :: rest) acc
  = if shape_filter_rejects (contourArea c) (fst (measure c))
         (snd (measure c))
    then Main.detect_loop img rest acc
    else
      ok <- terminated img c ;;
      Main.detect_loop img rest
        (if ok then acc ++ [item_of (line_of c)] else acc).
Proof.
  cbn [Main.detect_loop].
  unfold shape_filter_rejects, terminated, item_of, coordinates, line_of,
    measure.
  rewrite main_find_line_endpoints.
  destruct (boundingRect c) as [[[x y] w] h].
  destruct (minAreaRect c) as [[ctr [rw rh]] ang].
  destruct (LineFinder.find_line_endpoints c) as [p1 p2].
  rewrite main_check_black_at_ends.
  destruct (5 <=? len c); cbn [fst snd];
    split_on_tests; cbn [orb]; try reflexivity;
    (destruct (LineFinder.check_black_at_ends img p1 p2
                 (fst p2 - fst p1, snd p2 - snd p1) 20) as [[|]|];
     reflexivity).
Qed.

(** The lines of a loop that returns are the lines it started with,
    followed by the lines of the accepted contours, in their order. *)
Lemma find_lines_loop_returns (img : image) (cs : list contour) :
  forall acc lines,
    LineFinder.find_lines_loop img cs acc = Returns lines ->
    lines = acc ++ map line_of (filter (accepted img) cs).
Proof.
  induction cs as [|c rest IH]; intros acc lines.
  - cbn [LineFinder.find_lines_loop filter map]. rewrite app_nil_r.
    congruence.
  - rewrite find_lines_loop_step. cbn [filter]. unfold accepted at 1.
    destruct (shape_filter_rejects _ _ _); cbn [negb andb]; [apply IH|].
    destruct (terminated img c) as [[|]|e]; cbn [bind]; intros H.
    + apply IH in H. rewrite H, <- app_assoc. reflexivity.
    + apply IH in H. exact H.
    + discriminate.
Qed.

(** The loop returns when no termination check raises. *)
Lemma find_lines_loop_total (img : image) (cs : list contour) :
  (forall c, In c cs -> exists ok, terminated img c = Returns ok) ->
  forall acc,
    LineFinder.find_lines_loop img cs acc
    = Returns (acc ++ map line_of (filter (accepted img) cs)).
Proof.
  induction cs as [|c rest IH]; intros Hc acc.
  - cbn [LineFinder.find_lines_loop filter map]. now rewrite app_nil_r.
  - rewrite find_lines_loop_step. cbn [filter]. unfold accepted at 1.
    assert (Hrest : forall c', In c' rest ->
                      exists ok, terminated img c' = Returns ok)
      by (intros c' Hin; apply Hc; right; exact Hin).
    destruct (shape_filter_rejects _ _ _); cbn [negb andb];
      [apply IH, Hrest|].
    destruct (Hc c (or_introl eq_refl)) as [ok ->]. cbn [bind].
    rewrite (IH Hrest). destruct ok; cbn [map]; [|reflexivity].
    now rewrite <- app_assoc.
Qed.

(** The two loops run in step: [detect] keeps the coordinates and the
    length of the lines [find_lines] keeps. *)
Lemma detect_loop_find_lines_loop (img : image) (cs : list contour) :
  forall acc,
    Main.detect_loop img cs (map item_of acc)
    = (lines <- LineFinder.find_lines_loop img cs acc ;;
       Returns (map item_of lines)).
Proof.
  induction cs as [|c rest IH]; intros acc; [reflexivity|].
  rewrite detect_loop_step, find_lines_loop_step.
  destruct (shape_filter_rejects _ _ _); [apply IH|].
  destruct (terminated img c) as [[|]|e]; cbn [bind]; [| apply IH | reflexivity].
  rewrite <- IH, map_app. reflexivity.
Qed.

(** The end points are taken from the boundary or from the searched
    points (or are the default pair). *)
Lemma inner_loop_points (pt1 : point) (tail : list point) :
  forall st,
    (snd (fst (LineFinder.inner_loop pt1 tail st)) = snd (fst st)
     \/ snd (fst (LineFinder.inner_loop pt1 tail st)) = pt1)
    /\ (snd (LineFinder.inner_loop pt1 tail st) = snd st
        \/ In (snd (LineFinder.inner_loop pt1 tail st)) tail).
Proof.
  unfold LineFinder.inner_loop.
  induction tail as [|pt2 tail IH]; intros [[md p1] p2]; cbn [fold_left];
    [cbn [fst snd]; auto|].
  destruct (ltb md (LineFinder.point_dist pt1 pt2)).
  - destruct (IH (LineFinder.point_dist pt1 pt2, pt1, pt2)) as [H1 H2].
    cbn [fst snd] in *. split; [tauto|].
    destruct H2 as [->|H2]; [right; left; reflexivity|right; right; exact H2].
  - destruct (IH (md, p1, p2)) as [H1 H2]. cbn [fst snd] in *.
    split; [exact H1|]. destruct H2 as [H2|H2]; [left|right; right]; exact H2.
Qed.

Lemma outer_loop_points (l : list point) :
  forall st,
    (snd (fst (LineFinder.outer_loop l st)) = snd (fst st)
     \/ In (snd (fst (LineFinder.outer_loop l st))) l)
    /\ (snd (LineFinder.outer_loop l st) = snd st
        \/ In (snd (LineFinder.outer_loop l st)) l).
Proof.
  induction l as [|pt1 tail IH]; intros st;
    cbn [LineFinder.outer_loop]; [auto|].
  destruct (IH (LineFinder.inner_loop pt1 tail st)) as [H1 H2].
  destruct (inner_loop_points pt1 tail st) as [I1 I2].
  split.
  - destruct H1 as [H1|H1]; [|right; right; exact H1].
    rewrite H1. destruct I1 as [->| ->]; [left|right; left]; reflexivity.
  - destruct H2 as [H2|H2]; [|right; right; exact H2].
    rewrite H2. destruct I2 as [->|I2]; [left; reflexivity|right; right; exact I2].
Qed.

(** The two points [find_line_endpoints] returns have every property
    that the points of the boundary, those of its hull and the point
    (0, 0) have. *)
Lemma find_line_endpoints_Forall (P : point -> Prop) (c : contour) :
  P (0, 0) -> Forall P c -> Forall P (convexHull c) ->
  P (fst (LineFinder.find_line_endpoints c))
  /\ P (snd (LineFinder.find_line_endpoints c)).
Proof.
  intros Z0 Hc Hh.
  unfold LineFinder.find_line_endpoints.
  destruct (len c <? 2); [cbn [fst snd]; auto|].
  set (hull := if 4 <? len c then convexHull c else c).
  assert (Hhull : Forall P hull)
    by (subst hull; destruct (4 <? len c); assumption).
  assert (Hn : P (nth 0 c (0, 0))).
  { destruct c as [|p c']; [exact Z0|]. now inversion Hc. }
  assert (Hl : P (last_point c)).
  { unfold last_point. destruct c as [|p c']; [exact Z0|].
    assert (Hne : p :: c' <> []) by discriminate.
    apply exists_last in Hne as (l' & x & E). rewrite E, last_last.
    rewrite E in Hc. apply Forall_app in Hc as [_ Hx]. now inversion Hx. }
  destruct (outer_loop_points hull
              (Float64.of_int 0, nth 0 c (0, 0), last_point c))
    as [H1 H2].
  destruct (LineFinder.outer_loop hull _) as [[md p1] p2].
  cbn [fst snd] in *. rewrite Forall_forall in Hhull. split.
  - destruct H1 as [->|H1]; [exact Hn|apply Hhull, H1].
  - destruct H2 as [->|H2]; [exact Hl|apply Hhull, H2].
Qed.


(** *** The entry of the pipeline *)

Lemma contours_of_returns (img : image) :
  pixel_count img <> 0 ->
  contours_of img = findContours (bright_mask img).
Proof.
  intros H. unfold contours_of.
  now rewrite (get_white_mask_returns img H).
Qed.

(** With pixels, [find_lines] is its loop over the contours of the
    bright mask. *)
Lemma find_lines_with_pixels (img : image) :
  pixel_count img <> 0 ->
  LineFinder.find_lines img
  = LineFinder.find_lines_loop img (contours_of img) [].
Proof.
  intros H. unfold LineFinder.find_lines, contours_of.
  now rewrite (get_white_mask_returns img H).
Qed.

(** Without pixels, [find_lines] raises at its first statement. *)
Lemma find_lines_no_pixel (img : image) :
  pixel_count img = 0 -> LineFinder.find_lines img = Raises ValueError.
Proof.
  intros H. unfold LineFinder.find_lines.
  now rewrite (get_white_mask_raises img H).
Qed.

Lemma find_lines_returned (img : image)
  (lines : list LineFinder.DetectedLine) :
  LineFinder.find_lines img = Returns lines ->
  pixel_count img <> 0
  /\ lines = map line_of (filter (accepted img) (contours_of img)).
Proof.
  intros H. destruct (Z.eq_dec (pixel_count img) 0) as [E|E].
  - rewrite (find_lines_no_pixel img E) in H. discriminate.
  - split; [exact E|].
    rewrite (find_lines_with_pixels img E) in H.
    apply find_lines_loop_returns in H. exact H.
Qed.

Lemma canvas_origin : canvas_point (0, 0).
Proof.
  unfold canvas_point, canvas_sized. cbn [fst snd].
  change (2 ^ 25) with 33554432. lia.
Qed.

(** The termination check of a contour of canvas points returns, on an
    image with pixels. *)
Lemma terminated_returns (img : image) (c : contour) :
  pixel_count img <> 0 ->
  Forall canvas_point c -> Forall canvas_point (convexHull c) ->
  exists ok, terminated img c = Returns ok.
Proof.
  intros Hp Hc Hh.
  destruct (find_line_endpoints_Forall canvas_point c canvas_origin Hc Hh)
    as [[A1 A2] [B1 B2]].
  unfold terminated.
  destruct (LineFinder.find_line_endpoints c) as [[x1 y1] [x2 y2]].
  cbn [fst snd] in *.
  destruct (canvas_sizes x1 y1 x2 y2 A1 A2 B1 B2)
    as (_ & _ & _ & _ & Bx & By & S1 & S2 & Sd).
  assert (Hn : (x2 - x1) * (x2 - x1) + (y2 - y1) * (y2 - y1) < 2 ^ 64).
  { apply squares_fit; change (2 ^ 25) with 33554432 in Bx, By;
      change (2 ^ 31) with 2147483648; lia. }
  assert (R : 20 <= 2 ^ 32) by (change (2 ^ 32) with 4294967296; lia).
  destruct (Z.eq_dec (x2 - x1) 0) as [Ex|Ex];
    [destruct (Z.eq_dec (y2 - y1) 0) as [Ey|Ey]|].
  - rewrite Ex, Ey. exists true. apply check_black_at_ends_zero, Hp.
  - destruct (check_black_at_ends_defined img (x1, y1) (x2, y2)
                (x2 - x1, y2 - y1) 20 Hp Hn) as (b & E & _).
    + congruence.
    + apply samples_defined_sized; try assumption. congruence.
    + apply samples_defined_sized; try assumption. congruence.
    + exists b. exact E.
  - destruct (check_black_at_ends_defined img (x1, y1) (x2, y2)
                (x2 - x1, y2 - y1) 20 Hp Hn) as (b & E & _).
    + congruence.
    + apply samples_defined_sized; try assumption. congruence.
    + apply samples_defined_sized; try assumption. congruence.
    + exists b. exact E.
Qed.

(** [find_lines] returns when the image has pixels and the points OpenCV
    reports are canvas points: the list is that of the accepted
    contours, in the order of the contours. *)
Lemma find_lines_returns (img : image) :
  pixel_count img <> 0 ->
  (forall c, In c (contours_of img) ->
     Forall canvas_point c /\ Forall canvas_point (convexHull c)) ->
  LineFinder.find_lines img
  = Returns (map line_of (filter (accepted img) (contours_of img))).
Proof.
  intros Hp H. rewrite (find_lines_with_pixels img Hp).
  rewrite find_lines_loop_total; [reflexivity|].
  intros c Hc. destruct (H c Hc) as [H1 H2].
  apply terminated_returns; assumption.
Qed.

End Loop.

(** ** Selecting the longest line *)

Section Selection.
Import Float64.
Context {A : Type} (key : A -> float).

Lemma max_by_key_invariant (l : list A) :
  forall before best after,
    Forall (fun y => is_nan (key y) = false) l ->
    is_nan (key best) = false ->
    first_maximum key before best after ->
    exists before' best' after',
      before ++ best :: after ++ l = before' ++ best' :: after'
      /\ max_by_key key best l = best'
      /\ first_maximum key before' best' after'.
Proof.
  induction l as [|x l IH]; intros before best after Hl Hb [H1 H2].
  - exists before, best, after. rewrite app_nil_r. now repeat split.
  - inversion Hl as [|? ? Hx Hl']; subst.
    unfold max_by_key. cbn [fold_left].
    destruct (ltb (key best) (key x)) eqn:E.
    + destruct (IH (before ++ best :: after) x [] Hl' Hx)
        as (b' & m' & a' & Heq & Hm & Hf).
      { split; [|intros y []].
        intros y Hy. apply in_app_or in Hy as [Hy|[<-|Hy]].
        - eapply Float64Order.ltb_trans; [apply H1, Hy|exact E].
        - exact E.
        - eapply Float64Order.leb_ltb_trans; [apply H2, Hy|exact E]. }
      exists b', m', a'. split; [|split; assumption].
      rewrite <- Heq, <- !app_assoc. reflexivity.
    + destruct (IH before best (after ++ [x]) Hl' Hb)
        as (b' & m' & a' & Heq & Hm & Hf).
      { split; [exact H1|].
        intros y Hy. apply in_app_or in Hy as [Hy|[<-|[]]].
        - apply H2, Hy.
        - apply Float64Order.ltb_total; assumption. }
      exists b', m', a'. split; [|split; assumption].
      rewrite <- Heq, <- !app_assoc. reflexivity.
Qed.

Lemma max_by_key_first_maximum (x : A) (l : list A) :
  Forall (fun y => is_nan (key y) = false) (x :: l) ->
  exists before best after,
    x :: l = before ++ best :: after
    /\ max_by_key key x l = best
    /\ first_maximum key before best after.
Proof.
  intros H. inversion H as [|? ? Hx Hl]; subst.
  destruct (max_by_key_invariant l [] x [] Hl Hx)
    as (b' & m' & a' & Heq & Hm & Hf).
  - split; intros y [].
  - exists b', m', a'. split; [exact Heq|split; assumption].
Qed.

Lemma max_by_key_In (l : list A) :
  forall x, In (max_by_key key x l) (x :: l).
Proof.
  unfold max_by_key. induction l as [|y l IH]; intros x.
  - left. reflexivity.
  - cbn [fold_left].
    destruct (Float64.ltb (key x) (key y)).
    + right. apply IH.
    + destruct (IH x) as [E|H]; [left; exact E|right; right; exact H].
Qed.

End Selection.

Section SelectionOfLines.
Import Float64.

Lemma max_by_key_item_of (l : LineFinder.DetectedLine)
  (ls : list LineFinder.DetectedLine) :
  max_by_key Main.item4 (item_of l) (map item_of ls)
  = item_of (max_by_key LineFinder.length l ls).
Proof.
  revert l. unfold max_by_key.
  induction ls as [|x ls IH]; intros l; [reflexivity|].
  cbn [map fold_left].
  change (Main.item4 (item_of l)) with (LineFinder.length l).
  change (Main.item4 (item_of x)) with (LineFinder.length x).
  destruct (ltb (LineFinder.length l) (LineFinder.length x)); apply IH.
Qed.

Lemma best_of_item_of (lines : list LineFinder.DetectedLine) :
  best_of (map item_of lines)
  = option_map coordinates (LineFinder.longest_line lines).
Proof.
  destruct lines as [|l ls]; [reflexivity|].
  cbn [map best_of LineFinder.longest_line option_map].
  now rewrite max_by_key_item_of.
Qed.

Context {cv : OpenCV}.

Lemma detect_selects (img : image) :
  Main.detect img
  = (white_mask <- Main.get_white_mask img ;;
     valid_lines <- Main.detect_loop img (findContours white_mask) [] ;;
     Returns (best_of valid_lines)).
Proof.
  unfold Main.detect.
  destruct (Main.get_white_mask img) as [white_mask|e]; cbn [bind];
    [|reflexivity].
  destruct (Main.detect_loop img _ []) as [[|l ls]|e]; reflexivity.
Qed.

(** [detect] returns the coordinates of the longest line of [find_lines],
    and raises when [find_lines] raises. *)
Lemma detect_as_find_lines (img : image) :
  Main.detect img
  = (lines <- LineFinder.find_lines img ;;
     Returns (option_map coordinates (LineFinder.longest_line lines))).
Proof.
  rewrite detect_selects. unfold LineFinder.find_lines.
  rewrite main_white_mask.
  destruct (LineFinder.get_white_mask img) as [white_mask|e]; cbn [bind];
    [|reflexivity].
  change (@nil Main.valid_line) with (map item_of []).
  rewrite detect_loop_find_lines_loop.
  destruct (LineFinder.find_lines_loop img _ []) as [lines|e];
    cbn [bind]; [|reflexivity].
  now rewrite best_of_item_of.
Qed.

Lemma detect_raises (img : image) (e : pyexn) :
  LineFinder.find_lines img = Raises e <-> Main.detect img = Raises e.
Proof.
  rewrite detect_as_find_lines.
  destruct (LineFinder.find_lines img) as [lines|e']; cbn [bind];
    split; intros H; try discriminate H; injection H as <-; reflexivity.
Qed.

End SelectionOfLines.

(** C6. Among candidates whose lengths are numbers, the selection returns
    the one of greatest length, and of several of that length the first in
    the order of the candidates: every candidate before it is strictly
    shorter, none after it is longer. With no candidate the result is
    [None] ([detect]) or the empty list ([find_lines], whose loop then
    returns the list it started with), never an exception. [detect] applies
    this selection to the list its loop has built. *)
Theorem longest_candidate_is_selected {cv : OpenCV}
  (lines : list LineFinder.DetectedLine) :
  Forall (fun l => Float64.is_nan (LineFinder.length l) = false) lines ->
  (lines = [] ->
   LineFinder.longest_line lines = None
   /\ best_of (map item_of lines) = None)
  /\ (lines <> [] ->
      exists before best after,
        lines = before ++ best :: after
        /\ LineFinder.longest_line lines = Some best
        /\ best_of (map item_of lines) = Some (coordinates best)
        /\ (forall l, In l before ->
              Float64.ltb (LineFinder.length l) (LineFinder.length best)
              = true)
        /\ (forall l, In l after ->
              Float64.leb (LineFinder.length l) (LineFinder.length best)
              = true))
  /\ (forall img,
        Main.detect img
        = (white_mask <- Main.get_white_mask img ;;
           valid_lines <-
             Main.detect_loop img (findContours white_mask) [] ;;
           Returns (best_of valid_lines)))
  /\ (forall img acc, LineFinder.find_lines_loop img [] acc = Returns acc).
Proof.
  intros Hn. split; [intros ->; split; reflexivity|].
  split; [|split; [apply @detect_selects|reflexivity]].
  intros Hne. destruct lines as [|x l]; [congruence|].
  destruct (max_by_key_first_maximum LineFinder.length x l Hn)
    as (before & best & after & Heq & Hm & H1 & H2).
  exists before, best, after.
  rewrite best_of_item_of. cbn [LineFinder.longest_line option_map].
  rewrite Hm. repeat split; assumption.
Qed.

(** The theorem on three candidates of lengths 30, 45 and 45: the second
    is selected. *)
Lemma longest_candidate_is_selected_example :
  exists before best after,
    Rectangles.three_lines = before ++ best :: after
    /\ LineFinder.longest_line Rectangles.three_lines = Some best
    /\ best_of (map item_of Rectangles.three_lines) = Some (coordinates best)
    /\ (forall l, In l before ->
          Float64.ltb (LineFinder.length l) (LineFinder.length best) = true)
    /\ (forall l, In l after ->
          Float64.leb (LineFinder.length l) (LineFinder.length best) = true).
Proof.
  apply (proj1 (proj2 (@longest_candidate_is_selected Rectangles.opencv
                         Rectangles.three_lines
                         ltac:(repeat constructor)))).
  discriminate.
Defined.

Example second_of_three_lines :
  best_of (map item_of Rectangles.three_lines) = Some (0, 9, 45, 9).
Proof. vm_compute. reflexivity. Qed.

(** C7. [detect] returns [None] exactly when [find_lines] returns the empty
    list. Otherwise, the lengths being numbers, it returns the four
    coordinates of the line of greatest length in the list of
    [find_lines], and of several of that length the first: every line
    before it in the list is strictly shorter, no line after it is longer.
    [detect] raises exactly the exceptions [find_lines] raises; in all, it
    is [find_lines] followed by the selection of [main()] and the
    projection to the coordinates. *)
Theorem detect_agrees_with_find_lines {cv : OpenCV} (img : image) :
  (forall lines,
     LineFinder.find_lines img = Returns lines ->
     (Main.detect img = Returns None <-> lines = [])
     /\ (Forall (fun l => Float64.is_nan (LineFinder.length l) = false)
           lines ->
         lines <> [] ->
         exists before best after,
           lines = before ++ best :: after
           /\ Main.detect img = Returns (Some (coordinates best))
           /\ (forall l, In l before ->
                 Float64.ltb (LineFinder.length l) (LineFinder.length best)
                 = true)
           /\ (forall l, In l after ->
                 Float64.leb (LineFinder.length l) (LineFinder.length best)
                 = true)))
  /\ (forall e,
        LineFinder.find_lines img = Raises e <-> Main.detect img = Raises e)
  /\ Main.detect img
     = (lines <- LineFinder.find_lines img ;;
        Returns (option_map coordinates (LineFinder.longest_line lines))).
Proof.
  split; [|split; [apply detect_raises|apply detect_as_find_lines]].
  intros lines H. rewrite detect_as_find_lines, H. cbn [bind]. split.
  - destruct lines as [|l ls]; cbn [LineFinder.longest_line option_map];
      split; congruence.
  - intros Hn Hne. destruct lines as [|x l]; [congruence|].
    destruct (max_by_key_first_maximum LineFinder.length x l Hn)
      as (before & best & after & Heq & Hm & H1 & H2).
    exists before, best, after.
    cbn [LineFinder.longest_line option_map]. rewrite Hm.
    repeat split; assumption.
Qed.

(** The theorem on the white bar, where [find_lines] returns one line. *)
Lemma detect_agrees_with_find_lines_on_bar :
  exists before best after,
    [Rectangles.bar_line] = before ++ best :: after
    /\ @Main.detect Rectangles.opencv Rectangles.bar
       = Returns (Some (coordinates best))
    /\ (forall l, In l before ->
          Float64.ltb (LineFinder.length l) (LineFinder.length best) = true)
    /\ (forall l, In l after ->
          Float64.leb (LineFinder.length l) (LineFinder.length best) = true).
Proof.
  apply (proj2 (proj1 (@detect_agrees_with_find_lines Rectangles.opencv
                         Rectangles.bar)
                  [Rectangles.bar_line] ltac:(vm_compute; reflexivity))).
  - repeat constructor.
  - discriminate.
Defined.

Example detect_on_bar :
  @Main.detect Rectangles.opencv Rectangles.bar = Returns (Some (5, 2, 40, 5))
  /\ @LineFinder.find_lines Rectangles.opencv Rectangles.bar
     = Returns [Rectangles.bar_line].
Proof. split; vm_compute; reflexivity. Qed.

(** ** The shape filter *)

(** C4. A candidate is rejected by the shape filter exactly when its area
    is below 50, its thickness below 2 or above 15, its length below 30, or
    its length / max(thickness, 1) below 3. A rejected candidate is skipped
    by the loop; any other goes on to end-point extraction and the
    termination check, which alone decides whether it is kept. The bounds
    are inclusive: a thickness of exactly 2 or exactly 15 and an aspect
    ratio of exactly 3 pass, while a thickness of 1 or of 16 and a length of
    29 at a thickness of 10 are rejected. Both loops apply the same filter. *)
Theorem shape_filter_spec {cv : OpenCV} (img : image) (c : contour) :
  let area := contourArea c in
  let thickness := fst (measure c) in
  let length := snd (measure c) in
  (shape_filter_rejects area thickness length = true <->
   Float64.ltb area (Float64.of_int 50) = true
   \/ Float64.ltb thickness (Float64.of_int 2) = true
   \/ Float64.ltb (Float64.of_int 15) thickness = true
   \/ Float64.ltb length (Float64.of_int 30) = true
   \/ Float64.ltb
        (Float64.div length (Float64.py_max thickness (Float64.of_int 1)))
        (Float64.of_int 3) = true)
  /\ (shape_filter_rejects area thickness length = true ->
      forall rest,
        (forall acc,
           LineFinder.find_lines_loop img (c :: rest) acc
           = LineFinder.find_lines_loop img rest acc)
        /\ (forall acc,
              Main.detect_loop img (c :: rest) acc
              = Main.detect_loop img rest acc))
  /\ (shape_filter_rejects area thickness length = false ->
      forall rest,
        (forall acc,
           LineFinder.find_lines_loop img (c :: rest) acc
           = (ok <- terminated img c ;;
              LineFinder.find_lines_loop img rest
                (if ok then acc ++ [line_of c] else acc)))
        /\ (forall acc,
              Main.detect_loop img (c :: rest) acc
              = (ok <- terminated img c ;;
                 Main.detect_loop img rest
                   (if ok then acc ++ [item_of (line_of c)] else acc))))
  /\ shape_filter_rejects (Float64.of_int 50) (Float64.of_int 2)
       (Float64.of_int 30) = false
  /\ shape_filter_rejects (Float64.of_int 50) (Float64.of_int 15)
       (Float64.of_int 45) = false
  /\ shape_filter_rejects (Float64.of_int 50) (Float64.of_int 10)
       (Float64.of_int 30) = false
  /\ shape_filter_rejects (Float64.of_int 50) (Float64.of_int 1)
       (Float64.of_int 30) = true
  /\ shape_filter_rejects (Float64.of_int 50) (Float64.of_int 16)
       (Float64.of_int 48) = true
  /\ shape_filter_rejects (Float64.of_int 50) (Float64.of_int 10)
       (Float64.of_int 29) = true
  /\ shape_filter_rejects (Float64.of_int 49) (Float64.of_int 10)
       (Float64.of_int 30) = true.
Proof.
  cbv zeta.
  split.
  { unfold shape_filter_rejects, MIN_LINE_THICKNESS, MAX_LINE_THICKNESS,
      MIN_LINE_LENGTH.
    rewrite !orb_true_iff. tauto. }
  split.
  { intros H rest. split; intros acc.
    - now rewrite find_lines_loop_step, H.
    - now rewrite detect_loop_step, H. }
  split.
  { intros H rest. split; intros acc.
    - now rewrite find_lines_loop_step, H.
    - now rewrite detect_loop_step, H. }
  repeat split; vm_compute; reflexivity.
Qed.

(** ** The invariant of detected lines *)

Section Tolerances.
Context {cv : OpenCV}.
Import Float64.

Lemma py_min_not_nan (a b : float) :
  is_nan a = false -> is_nan b = false -> is_nan (py_min a b) = false.
Proof. unfold py_min. destruct (ltb b a); auto. Qed.

Lemma py_max_not_nan (a b : float) :
  is_nan a = false -> is_nan b = false -> is_nan (py_max a b) = false.
Proof. unfold py_max. destruct (ltb a b); auto. Qed.

Lemma measure_not_nan (c : contour) :
  rect_sizes_are_numbers c = true ->
  is_nan (fst (measure c)) = false /\ is_nan (snd (measure c)) = false.
Proof.
  unfold rect_sizes_are_numbers, measure.
  destruct (minAreaRect c) as [[ctr [rw rh]] ang]. cbn [fst snd].
  destruct (boundingRect c) as [[[x y] w] h].
  intros H. apply andb_prop in H as [Hw Hh].
  apply negb_true_iff in Hw, Hh.
  destruct (5 <=? len c); cbn [fst snd].
  - split; [apply py_min_not_nan|apply py_max_not_nan]; assumption.
  - split; apply Float64Facts.of_int_not_nan.
Qed.

(** A thickness between 2 and 15 is a positive finite number. *)
Lemma thickness_finite (t : float) :
  leb (of_int 2) t = true -> leb t (of_int 15) = true ->
  exists m e, t = S754_finite false m e.
Proof.
  destruct t as [[]|[]| |[] m e]; intros H1 H2;
    try discriminate H1; try discriminate H2.
  exists m, e. reflexivity.
Qed.

Lemma aspect_ratio_not_nan (l t : float) :
  is_nan l = false ->
  leb (of_int 2) t = true -> leb t (of_int 15) = true ->
  is_nan (div l (py_max t (of_int 1))) = false.
Proof.
  intros Hl H1 H2.
  destruct (thickness_finite t H1 H2) as (m & e & ->).
  unfold py_max.
  destruct (ltb (S754_finite false m e) (of_int 1)).
  - change (of_int 1) with (S754_finite false 4503599627370496 (-52)).
    apply Float64Facts.div_not_nan, Hl.
  - apply Float64Facts.div_not_nan, Hl.
Qed.

(** What the shape filter lets through is within the tolerances. *)
Lemma passes_within_tolerances (area t l : float) :
  is_nan t = false -> is_nan l = false ->
  shape_filter_rejects area t l = false ->
  leb (of_int MIN_LINE_THICKNESS) t = true
  /\ leb t (of_int MAX_LINE_THICKNESS) = true
  /\ leb (of_int MIN_LINE_LENGTH) l = true
  /\ leb (of_int 3) (div l (py_max t (of_int 1))) = true.
Proof.
  intros Ht Hl H. unfold shape_filter_rejects in H.
  apply orb_false_iff in H as [H H5].
  apply orb_false_iff in H as [H H4].
  apply orb_false_iff in H as [H H3].
  apply orb_false_iff in H as [H1 H2].
  assert (T1 : leb (of_int MIN_LINE_THICKNESS) t = true)
    by (apply Float64Order.ltb_total;
        [exact Ht|apply Float64Facts.of_int_not_nan|exact H2]).
  assert (T2 : leb t (of_int MAX_LINE_THICKNESS) = true)
    by (apply Float64Order.ltb_total;
        [apply Float64Facts.of_int_not_nan|exact Ht|exact H3]).
  repeat split; try assumption.
  - apply Float64Order.ltb_total;
      [exact Hl|apply Float64Facts.of_int_not_nan|exact H4].
  - apply Float64Order.ltb_total;
      [|apply Float64Facts.of_int_not_nan|exact H5].
    apply aspect_ratio_not_nan; assumption.
Qed.

End Tolerances.

(** ** The farthest pair, where no squared distance wraps around *)

Section FarthestPair.
Context {cv : OpenCV}.
Import Float64.

Lemma wrap_small (z : Z) : - 2 ^ 31 <= z < 2 ^ 31 -> Int32.wrap z = z.
Proof.
  intros H. unfold Int32.wrap.
  rewrite Z.mod_small; lia.
Qed.

Lemma in_range_In (pts : list point) (p : point) :
  in_range pts = true -> In p pts ->
  (0 <= fst p < 32768) /\ (0 <= snd p < 32768).
Proof.
  intros H Hp. unfold in_range in H. rewrite forallb_forall in H.
  specialize (H p Hp). rewrite !andb_true_iff in H.
  rewrite !Z.leb_le, !Z.ltb_lt in H. lia.
Qed.

(** In range the distance of the code is the rounded square root of the
    exact squared distance. *)
Lemma point_dist_exact (pts : list point) (a b : point) :
  in_range pts = true -> In a pts -> In b pts ->
  LineFinder.point_dist a b = sqrt (of_int (dist2 a b)).
Proof.
  intros H Ha Hb.
  destruct (in_range_In pts a H Ha) as [Hax Hay].
  destruct (in_range_In pts b H Hb) as [Hbx Hby].
  unfold LineFinder.point_dist, dist2, Int32.add, Int32.sq, Int32.sub.
  assert (P : 2 ^ 31 = 2147483648) by reflexivity.
  rewrite (wrap_small (fst a - fst b)) by lia.
  rewrite (wrap_small (snd a - snd b)) by lia.
  rewrite (wrap_small ((fst a - fst b) * (fst a - fst b))) by nia.
  rewrite (wrap_small ((snd a - snd b) * (snd a - snd b))) by nia.
  rewrite wrap_small by nia. reflexivity.
Qed.

Lemma sqrt_orders_In (pts : list point) (a b a' b' : point) :
  sqrt_orders pts = true ->
  In a pts -> In b pts -> In a' pts -> In b' pts ->
  ltb (sqrt (of_int (dist2 a b))) (sqrt (of_int (dist2 a' b')))
  = (dist2 a b <? dist2 a' b').
Proof.
  intros H Ha Hb Ha' Hb'. unfold sqrt_orders in H.
  rewrite forallb_forall in H. specialize (H a Ha).
  rewrite forallb_forall in H. specialize (H b Hb).
  rewrite forallb_forall in H. specialize (H a' Ha').
  rewrite forallb_forall in H. specialize (H b' Hb').
  apply Bool.eqb_prop in H. exact H.
Qed.

Lemma dist2_nonneg (a b : point) : 0 <= dist2 a b.
Proof.
  unfold dist2.
  pose proof (Z.square_nonneg (fst a - fst b)).
  pose proof (Z.square_nonneg (snd a - snd b)). lia.
Qed.

Lemma dist2_in_range (pts : list point) (a b : point) :
  in_range pts = true -> In a pts -> In b pts -> dist2 a b < 2 ^ 31.
Proof.
  intros H Ha Hb.
  destruct (in_range_In pts a H Ha) as [Hax Hay].
  destruct (in_range_In pts b H Hb) as [Hbx Hby].
  unfold dist2. change (2 ^ 31) with 2147483648. nia.
Qed.

(** The comparison of two rounded square roots is the comparison of the
    integers, below [2^31]. *)
Lemma sqrt_of_int_ltb (x y : Z) :
  0 <= x < 2 ^ 31 -> 0 <= y < 2 ^ 31 ->
  ltb (sqrt (of_int x)) (sqrt (of_int y)) = (x <? y).
Proof.
  intros Hx Hy. destruct (Z.lt_trichotomy x y) as [H|[H|H]].
  - rewrite Float64Sqrt.sqrt_of_int_lt by lia.
    symmetry. apply Z.ltb_lt. exact H.
  - subst y. rewrite Z.ltb_irrefl.
    destruct (ltb (sqrt (of_int x)) (sqrt (of_int x))) eqn:E;
      [|reflexivity].
    pose proof (Float64Order.ltb_leb _ _ E) as E1.
    pose proof (Float64Order.ltb_leb_false _ _ E) as E2. congruence.
  - pose proof (Float64Sqrt.sqrt_of_int_lt y x ltac:(lia) H ltac:(lia))
      as E.
    replace (x <? y) with false by (symmetry; apply Z.ltb_ge; lia).
    destruct (ltb (sqrt (of_int x)) (sqrt (of_int y))) eqn:E';
      [|reflexivity].
    pose proof (Float64Order.ltb_leb _ _ E') as E1.
    pose proof (Float64Order.ltb_leb_false _ _ E) as E2. congruence.
Qed.

(** In range, the rounded square roots keep the order of the squared
    distances. *)
Lemma in_range_sqrt_orders (pts : list point) :
  in_range pts = true -> sqrt_orders pts = true.
Proof.
  intros H. unfold sqrt_orders.
  apply forallb_forall; intros a Ha. apply forallb_forall; intros b Hb.
  apply forallb_forall; intros a' Ha'. apply forallb_forall; intros b' Hb'.
  rewrite sqrt_of_int_ltb.
  - apply Bool.eqb_reflx.
  - split; [apply dist2_nonneg|apply (dist2_in_range pts); assumption].
  - split; [apply dist2_nonneg|apply (dist2_in_range pts); assumption].
Qed.

Lemma dist2_sym (a b : point) : dist2 a b = dist2 b a.
Proof. unfold dist2. ring. Qed.

Lemma dist2_refl (a : point) : dist2 a a = 0.
Proof. unfold dist2. ring. Qed.

Variable pts : list point.
Variable initial : point * point.
Hypothesis pts_in_range : in_range pts = true.

Lemma search_found_nonneg (st : LineFinder.search_state) (v : Z) :
  search_found pts initial st v -> 0 <= v.
Proof.
  destruct st as [[md p1] p2]. intros [(_ & -> & _)|(Hv & _)]; lia.
Qed.

(** One comparison [dist > max_dist] of the search. *)
Lemma search_step (st : LineFinder.search_state) (v : Z) (pt1 pt2 : point) :
  In pt1 pts -> In pt2 pts ->
  search_found pts initial st v ->
  exists v',
    search_found pts initial
      (let '(max_dist, p1, p2) := st in
       let dist := LineFinder.point_dist pt1 pt2 in
       if ltb max_dist dist then (dist, pt1, pt2) else (max_dist, p1, p2))
      v'
    /\ v <= v' /\ dist2 pt1 pt2 <= v'.
Proof.
  intros H1 H2. destruct st as [[md p1] p2]. cbv beta iota zeta.
  rewrite (point_dist_exact pts pt1 pt2 pts_in_range H1 H2).
  pose proof (dist2_nonneg pt1 pt2) as Hd.
  intros [(-> & -> & Hi)|(Hv & -> & -> & Hp1 & Hp2)].
  - destruct (Z.eq_dec (dist2 pt1 pt2) 0) as [E|E].
    + rewrite E. change (ltb (of_int 0) (sqrt (of_int 0))) with false.
      exists 0. split; [left; auto|lia].
    + rewrite Float64Facts.positive_ltb_zero
        by (apply Float64Facts.sqrt_of_int_pos; lia).
      exists (dist2 pt1 pt2). split; [right; repeat split; auto; lia|lia].
  - rewrite (sqrt_orders_In pts p1 p2 pt1 pt2)
      by (try apply in_range_sqrt_orders; assumption).
    destruct (dist2 p1 p2 <? dist2 pt1 pt2) eqn:E.
    + apply Z.ltb_lt in E. exists (dist2 pt1 pt2).
      split; [right; repeat split; auto; lia|lia].
    + apply Z.ltb_ge in E. exists (dist2 p1 p2).
      split; [right; repeat split; auto; lia|lia].
Qed.

Lemma inner_loop_found (pt1 : point) (tail : list point) :
  In pt1 pts -> (forall b, In b tail -> In b pts) ->
  forall st v,
    search_found pts initial st v ->
    exists v',
      search_found pts initial (LineFinder.inner_loop pt1 tail st) v'
      /\ v <= v' /\ (forall b, In b tail -> dist2 pt1 b <= v').
Proof.
  intros H1. unfold LineFinder.inner_loop.
  induction tail as [|pt2 tail IH]; intros Ht st v Hs.
  - exists v. split; [exact Hs|]. split; [lia|intros b []].
  - cbn [fold_left].
    destruct (search_step st v pt1 pt2 H1 (Ht pt2 (or_introl eq_refl)) Hs)
      as (v1 & Hs1 & Hv1 & Hd1).
    destruct (IH (fun b Hb => Ht b (or_intror Hb)) _ v1 Hs1)
      as (v2 & Hs2 & Hv2 & Hd2).
    exists v2. split; [exact Hs2|]. split; [lia|].
    intros b [<-|Hb]; [lia|apply Hd2, Hb].
Qed.

Lemma outer_loop_found (l : list point) :
  (forall a, In a l -> In a pts) ->
  forall st v,
    search_found pts initial st v ->
    exists v',
      search_found pts initial (LineFinder.outer_loop l st) v'
      /\ v <= v'
      /\ (forall a b, In a l -> In b l -> dist2 a b <= v').
Proof.
  induction l as [|pt1 tail IH]; intros Hl st v Hs.
  - exists v. split; [exact Hs|]. split; [lia|intros a b []].
  - cbn [LineFinder.outer_loop].
    destruct (inner_loop_found pt1 tail (Hl pt1 (or_introl eq_refl))
                (fun b Hb => Hl b (or_intror Hb)) st v Hs)
      as (v1 & Hs1 & Hv1 & Hd1).
    destruct (IH (fun a Ha => Hl a (or_intror Ha)) _ v1 Hs1)
      as (v2 & Hs2 & Hv2 & Hd2).
    exists v2. split; [exact Hs2|]. split; [lia|].
    intros a b [<-|Ha] [<-|Hb].
    + rewrite dist2_refl. apply (search_found_nonneg _ _ Hs2).
    + specialize (Hd1 b Hb). lia.
    + rewrite dist2_sym. specialize (Hd1 a Ha). lia.
    + apply Hd2; assumption.
Qed.

End FarthestPair.

(** Where no squared distance wraps around (the binary64 square roots then
    keep the order of the squared distances), [find_line_endpoints]
    returns two points of the boundary at the greatest distance any two of
    its points have, provided the hull OpenCV reports consists of boundary
    points and holds a farthest pair of the boundary. *)
Lemma find_line_endpoints_farthest {cv : OpenCV} (c : contour) :
  2 <= len c ->
  in_range (hull_points_of c) = true ->
  (forall p, In p (hull_points_of c) -> In p c) ->
  (forall a b, In a c -> In b c ->
     exists a' b',
       In a' (hull_points_of c) /\ In b' (hull_points_of c)
       /\ dist2 a b <= dist2 a' b') ->
  In (fst (LineFinder.find_line_endpoints c)) c
  /\ In (snd (LineFinder.find_line_endpoints c)) c
  /\ (forall a b, In a c -> In b c ->
        dist2 a b
        <= dist2 (fst (LineFinder.find_line_endpoints c))
                 (snd (LineFinder.find_line_endpoints c))).
Proof.
  intros Hlen Hr Hsub Hcov.
  unfold LineFinder.find_line_endpoints.
  replace (len c <? 2) with false by (symmetry; apply Z.ltb_ge; lia).
  fold (hull_points_of c).
  set (initial := (nth 0 c (0, 0), last_point c)).
  destruct (outer_loop_found (hull_points_of c) initial Hr
              (hull_points_of c) (fun a Ha => Ha)
              (Float64.of_int 0, nth 0 c (0, 0), last_point c) 0)
    as (v & Hf & _ & Hmax).
  { left. repeat split; reflexivity. }
  destruct (LineFinder.outer_loop _ _) as [[md p1] p2]. cbn [fst snd].
  assert (Hne : c <> []) by (intros ->; unfold len in Hlen; simpl in Hlen; lia).
  destruct Hf as [(_ & -> & Hi)|(Hv & -> & _ & Hp1 & Hp2)].
  - injection Hi as -> ->. split; [|split].
    + destruct c; [congruence|left; reflexivity].
    + unfold last_point. destruct c as [|p c']; [congruence|].
      apply (@exists_last _ (p :: c')) in Hne as (l' & x & E).
      rewrite E, last_last. apply in_or_app. right. left. reflexivity.
    + intros a b Ha Hb.
      destruct (Hcov a b Ha Hb) as (a' & b' & Ha' & Hb' & Hle).
      specialize (Hmax a' b' Ha' Hb').
      pose proof (dist2_nonneg (nth 0 c (0, 0)) (last_point c)). lia.
  - split; [apply Hsub, Hp1|]. split; [apply Hsub, Hp2|].
    intros a b Ha Hb.
    destruct (Hcov a b Ha Hb) as (a' & b' & Ha' & Hb' & Hle).
    specialize (Hmax a' b' Ha' Hb'). lia.
Qed.

(** The lemma on the corners of the white bar. *)
Lemma find_line_endpoints_farthest_on_bar :
  forall a b,
    In a [(5, 2); (5, 5); (40, 5); (40, 2)] ->
    In b [(5, 2); (5, 5); (40, 5); (40, 2)] ->
    dist2 a b <= dist2 (5, 2) (40, 5).
Proof.
  apply (@find_line_endpoints_farthest Rectangles.opencv
           [(5, 2); (5, 5); (40, 5); (40, 2)]).
  - vm_compute. discriminate.
  - vm_compute. reflexivity.
  - intros p Hp. exact Hp.
  - intros a b Ha Hb. exists a, b. repeat split; try assumption. lia.
Qed.

(** ** The invariant of detected lines *)

Section Invariant.
Context {cv : OpenCV}.
Import Float64.

Lemma spread_In (pts : list point) :
  spread pts = true -> exists a b, In a pts /\ In b pts /\ a <> b.
Proof.
  unfold spread. intros H.
  apply existsb_exists in H as (a & Ha & H).
  apply existsb_exists in H as (b & Hb & H).
  exists a, b. split; [exact Ha|]. split; [exact Hb|].
  intros ->. apply negb_true_iff in H.
  rewrite !Z.eqb_refl in H. discriminate H.
Qed.

Lemma dist2_positive (a b : point) : a <> b -> 0 < dist2 a b.
Proof.
  intros Hab. pose proof (dist2_nonneg a b) as Hn.
  destruct (Z.eq_dec (dist2 a b) 0) as [E|E]; [|lia].
  exfalso. apply Hab. destruct a as [ax ay], b as [bx by_].
  unfold dist2 in E. cbn [fst snd] in E.
  pose proof (Z.square_nonneg (ax - bx)) as Sx.
  pose proof (Z.square_nonneg (ay - by_)) as Sy.
  assert (Ex : (ax - bx) * (ax - bx) = 0) by lia.
  assert (Ey : (ay - by_) * (ay - by_) = 0) by lia.
  apply Z.eq_mul_0 in Ex. apply Z.eq_mul_0 in Ey.
  f_equal; lia.
Qed.

(** Where no squared distance wraps around, the two end points differ
    as soon as two of the searched points do: the search has then met a
    positive distance, and keeps a pair at the greatest it has met. *)
Lemma find_line_endpoints_spread (c : contour) :
  in_range (hull_points_of c) = true ->
  spread (hull_points_of c) = true ->
  fst (LineFinder.find_line_endpoints c)
  <> snd (LineFinder.find_line_endpoints c).
Proof.
  intros Hr Hs.
  destruct (spread_In _ Hs) as (a & b & Ha & Hb & Hab).
  assert (Hlen : 2 <= len c).
  { unfold hull_points_of in Ha, Hb.
    destruct (4 <? len c) eqn:E; [apply Z.ltb_lt in E; lia|].
    unfold len. destruct c as [|p [|q c']]; cbn [length]; try lia.
    - destruct Ha.
    - destruct Ha as [<-|[]], Hb as [<-|[]]. congruence. }
  unfold LineFinder.find_line_endpoints.
  replace (len c <? 2) with false by (symmetry; apply Z.ltb_ge; lia).
  fold (hull_points_of c).
  set (initial := (nth 0 c (0, 0), last_point c)).
  destruct (outer_loop_found (hull_points_of c) initial Hr
              (hull_points_of c) (fun a Ha => Ha)
              (of_int 0, nth 0 c (0, 0), last_point c) 0)
    as (v & Hf & _ & Hmax).
  { left. repeat split; reflexivity. }
  destruct (LineFinder.outer_loop _ _) as [[md p1] p2]. cbn [fst snd].
  pose proof (Hmax a b Ha Hb) as Hv.
  pose proof (dist2_positive a b Hab) as Hpos.
  destruct Hf as [(_ & -> & _)|(_ & -> & _)]; [lia|].
  intros ->. rewrite dist2_refl in Hv. lia.
Qed.

Lemma in_range_canvas (pts : list point) :
  in_range pts = true -> Forall canvas_point pts.
Proof.
  intros H. apply Forall_forall. intros p Hp.
  destruct (in_range_In pts p H Hp) as [Hx Hy].
  unfold canvas_point, canvas_sized. change (2 ^ 25) with 33554432. lia.
Qed.

(** The line of an accepted contour is within the tolerances and ends
    on black. *)
Lemma accepted_line (img : image) (c : contour) :
  rect_sizes_are_numbers c = true ->
  in_range c = true -> in_range (convexHull c) = true ->
  ltb (contourArea c) (of_int 50) || spread (hull_points_of c) = true ->
  accepted img c = true ->
  within_tolerances (line_of c) /\ ends_on_black img (line_of c).
Proof.
  intros Hn Rc Rh Hsp Ha. unfold accepted in Ha.
  apply andb_prop in Ha as [Hs Ht]. apply negb_true_iff in Hs.
  destruct (measure_not_nan c Hn) as [N1 N2].
  assert (Harea : ltb (contourArea c) (of_int 50) = false).
  { unfold shape_filter_rejects in Hs.
    destruct (ltb (contourArea c) (of_int 50)); [discriminate Hs|].
    reflexivity. }
  rewrite Harea in Hsp. cbn [orb] in Hsp.
  assert (Rhull : in_range (hull_points_of c) = true)
    by (unfold hull_points_of; destruct (4 <? len c); assumption).
  pose proof (find_line_endpoints_spread c Rhull Hsp) as Hne.
  destruct (find_line_endpoints_Forall canvas_point c canvas_origin
              (in_range_canvas c Rc) (in_range_canvas _ Rh))
    as [[A1 A2] [B1 B2]].
  unfold within_tolerances, ends_on_black, line_of.
  unfold terminated in Ht.
  destruct (LineFinder.find_line_endpoints c) as [[ax ay] [bx by_]].
  cbn [fst snd] in *.
  cbn [LineFinder.x1 LineFinder.y1 LineFinder.x2 LineFinder.y2
       LineFinder.length LineFinder.thickness fst snd].
  split.
  - eapply passes_within_tolerances; eassumption.
  - destruct (LineFinder.check_black_at_ends img (ax, ay) (bx, by_)
                (bx - ax, by_ - ay) 20) as [[|]|e] eqn:E;
      try discriminate Ht.
    assert (Hd : (bx - ax, by_ - ay) <> (0, 0)).
    { intros Q. injection Q as Q1 Q2. apply Hne. f_equal; lia. }
    split; [reflexivity|]. split.
    + apply check_black_at_ends_true; assumption.
    + apply dark_pixel_beyond_an_end; assumption.
Qed.

End Invariant.

(** C1. Every line of the list [find_lines] returns has a thickness within
    [2, 15], a length of at least 30 and a length / max(thickness, 1) of at
    least 3, and the termination check returned true on its end points
    because one of them has a dark pixel ahead: at some distance
    3 <= t < 20 the check sampled, from one end and away from the other, a
    pixel inside the image that is set in the dark mask, and this pixel
    lies beyond that end, along each axis at most [t] from it. A line
    [detect] returns is, by its coordinates, one of these lines.

    What is taken of OpenCV: the sizes [cv2.minAreaRect] reports are
    numbers (not NaN); the points of the contours and of their hulls have
    both coordinates from 0 to 32767 (the image is no larger); and a
    contour of an area of 50 or more has two different points among those
    searched for its ends. *)
Theorem detected_lines_invariant {cv : OpenCV} (img : image)
  (lines : list LineFinder.DetectedLine) :
  forallb rect_sizes_are_numbers (contours_of img) = true ->
  forallb (fun c => in_range c && in_range (convexHull c)) (contours_of img)
  = true ->
  forallb (fun c => Float64.ltb (contourArea c) (Float64.of_int 50)
                    || spread (hull_points_of c)) (contours_of img)
  = true ->
  LineFinder.find_lines img = Returns lines ->
  (forall l, In l lines -> within_tolerances l /\ ends_on_black img l)
  /\ (forall q,
        Main.detect img = Returns (Some q) ->
        exists l,
          In l lines /\ q = coordinates l
          /\ within_tolerances l /\ ends_on_black img l).
Proof.
  intros Hn Hr Hs Hf.
  assert (Hall : forall l, In l lines ->
                   within_tolerances l /\ ends_on_black img l).
  { destruct (find_lines_returned img lines Hf) as [_ ->].
    intros l Hl. apply in_map_iff in Hl as (c & <- & Hc).
    apply filter_In in Hc as [Hc Ha].
    rewrite forallb_forall in Hn, Hr, Hs.
    specialize (Hr c Hc). apply andb_prop in Hr as [Rc Rh].
    apply accepted_line; auto. }
  split; [exact Hall|].
  intros q Hq. rewrite detect_as_find_lines, Hf in Hq. cbn [bind] in Hq.
  destruct lines as [|l ls]; [discriminate|].
  cbn [LineFinder.longest_line option_map] in Hq.
  injection Hq as <-.
  pose proof (max_by_key_In LineFinder.length ls l) as Hin.
  exists (max_by_key LineFinder.length l ls).
  split; [exact Hin|]. split; [reflexivity|]. apply Hall, Hin.
Qed.

(** The theorem on the white bar: the line found there is within the
    tolerances and ends on black. *)
Lemma detected_lines_invariant_on_bar :
  within_tolerances Rectangles.bar_line
  /\ ends_on_black Rectangles.bar Rectangles.bar_line.
Proof.
  apply (proj1 (@detected_lines_invariant Rectangles.opencv Rectangles.bar
                  [Rectangles.bar_line]
                  ltac:(vm_compute; reflexivity)
                  ltac:(vm_compute; reflexivity)
                  ltac:(vm_compute; reflexivity)
                  ltac:(vm_compute; reflexivity))).
  left. reflexivity.
Defined.

(** ** Images without bright pixels *)

(** C8. On an image that has pixels, none of them with all three channels
    at 240 or above, [find_lines] returns the empty list and [detect]
    returns [None]. [cv2.findContours] is taken to report only contours
    that pass through a set pixel of the mask. *)
Theorem no_bright_pixel_no_line {cv : OpenCV} (img : image) :
  pixel_count img <> 0 ->
  forallb (forallb (fun p => negb (is_bright p))) img = true ->
  (forall white_mask,
     LineFinder.get_white_mask img = Returns white_mask ->
     contours_on_set_pixels white_mask) ->
  LineFinder.find_lines img = Returns []
  /\ Main.detect img = Returns None.
Proof.
  intros Hp Hb Hc.
  specialize (Hc _ (get_white_mask_returns img Hp)).
  assert (E : contours_of img = []).
  { rewrite (contours_of_returns img Hp).
    destruct (findContours (bright_mask img)) as [|c cs] eqn:E;
      [reflexivity|].
    destruct (Hc c) as (x & y & _ & Hset); [rewrite E; left; reflexivity|].
    rewrite (bright_mask_empty img Hb) in Hset. lia. }
  assert (F : LineFinder.find_lines img = Returns [])
    by (rewrite (find_lines_with_pixels img Hp), E; reflexivity).
  split; [exact F|].
  rewrite detect_as_find_lines, F. reflexivity.
Qed.

(** The theorem on an image that is black throughout. *)
Lemma no_bright_pixel_no_line_at_night :
  @LineFinder.find_lines Rectangles.opencv Rectangles.night = Returns []
  /\ @Main.detect Rectangles.opencv Rectangles.night = Returns None.
Proof.
  apply (@no_bright_pixel_no_line Rectangles.opencv Rectangles.night).
  - vm_compute. discriminate.
  - vm_compute. reflexivity.
  - intros white_mask E c Hc. injection E as <-.
    vm_compute in Hc. destruct Hc.
Defined.

(** Without the pixels the statement fails: an image of no rows has no
    bright pixel, and neither [find_lines] nor [detect] returns on it;
    each raises the [ValueError] of the unpacking [b, g, r = cv2.split(img)],
    whatever OpenCV reports. The same holds of an image of rows without
    columns. *)
Lemma no_pixel_no_result :
  forallb (forallb (fun p => negb (is_bright p))) [] = true
  /\ (forall cv : OpenCV,
        @LineFinder.find_lines cv [] = Raises ValueError
        /\ @Main.detect cv [] = Raises ValueError
        /\ @LineFinder.find_lines cv [] <> Returns []
        /\ @Main.detect cv [] <> Returns None)
  /\ forallb (forallb (fun p => negb (is_bright p))) [[]; []] = true
  /\ (forall cv : OpenCV,
        @LineFinder.find_lines cv [[]; []] = Raises ValueError
        /\ @Main.detect cv [[]; []] = Raises ValueError).
Proof.
  split; [reflexivity|]. split; [|split; [reflexivity|]].
  - intros cv. repeat split; try reflexivity; discriminate.
  - intros cv. split; reflexivity.
Qed.

(* ================================================================== *)
(** * Part IV: the overlay *)
(* ================================================================== *)

(** ** The extension of a line *)

Section ExtendLine.
Import Float64.
Import TrajectoryOverlay.

(** A squared length beyond 64 bits raises in [np.sqrt]. *)
Lemma extend_line_full_too_long (x1 y1 x2 y2 : Z) :
  2 ^ 64 <= (x2 - x1) * (x2 - x1) + (y2 - y1) * (y2 - y1) ->
  extend_line_full x1 y1 x2 y2 = Raises TypeError.
Proof.
  intros H. unfold extend_line_full.
  rewrite (np_sqrt_raises _ H). reflexivity.
Qed.

Lemma extend_line_full_zero (x y : Z) :
  extend_line_full x y x y = Returns (x, y, x, y).
Proof. unfold extend_line_full. rewrite !Z.sub_diag. reflexivity. Qed.

(** Off the degenerate case, [extend_line_full] is two samples at the
    distance [EXTEND_LENGTH]. *)
Lemma extend_line_full_nonzero (x1 y1 x2 y2 : Z) :
  (x2 - x1) * (x2 - x1) + (y2 - y1) * (y2 - y1) < 2 ^ 64 ->
  (x2 - x1, y2 - y1) <> (0, 0) ->
  extend_line_full x1 y1 x2 y2
  = (let u := unit_direction (x2 - x1, y2 - y1) in
     p1 <- sample x1 y1 (fst (neg_direction u)) (snd (neg_direction u))
             EXTEND_LENGTH ;;
     p2 <- sample x2 y2 (fst u) (snd u) EXTEND_LENGTH ;;
     Returns (fst p1, snd p1, fst p2, snd p2)).
Proof.
  intros Hn Hd. unfold extend_line_full.
  rewrite (np_sqrt_squares _ _ Hn). cbn [bind].
  rewrite (length_nonzero _ _ Hd). cbv zeta.
  rewrite !sub_mul_as_add.
  rewrite (bind_sample x1 y1 _ _ EXTEND_LENGTH _
             (fun a b =>
                c <- to_int _ ;; d <- to_int _ ;; Returns (a, b, c, d))).
  unfold unit_direction, neg_direction. cbn [fst snd].
  destruct (sample x1 y1 _ _ EXTEND_LENGTH) as [p1|]; cbn [bind];
    [|reflexivity].
  rewrite (bind_sample x2 y2 _ _ EXTEND_LENGTH _
             (fun c d => Returns (fst p1, snd p1, c, d))).
  reflexivity.
Qed.

(** *** Reversal *)

Lemma extend_line_full_reversed (x1 y1 x2 y2 : Z) (s : segment) :
  extend_line_full x1 y1 x2 y2 = Returns s ->
  extend_line_full x2 y2 x1 y1 = Returns (reversed s).
Proof.
  destruct (Z.lt_ge_cases
              ((x2 - x1) * (x2 - x1) + (y2 - y1) * (y2 - y1)) (2 ^ 64))
    as [Hn|Hn];
    [|rewrite (extend_line_full_too_long _ _ _ _ Hn); discriminate].
  assert (Hn' : (x1 - x2) * (x1 - x2) + (y1 - y2) * (y1 - y2) < 2 ^ 64)
    by (replace ((x1 - x2) * (x1 - x2) + (y1 - y2) * (y1 - y2))
          with ((x2 - x1) * (x2 - x1) + (y2 - y1) * (y2 - y1)) by ring;
        exact Hn).
  destruct ((x1 =? x2) && (y1 =? y2)) eqn:E.
  - apply andb_true_iff in E as [E1 E2].
    apply Z.eqb_eq in E1, E2. subst x2 y2.
    rewrite extend_line_full_zero.
    intros H. injection H as <-. reflexivity.
  - assert (Hd : (x2 - x1, y2 - y1) <> (0, 0)).
    { intros H. apply direction_zero in H. congruence. }
    assert (Hd' : (x1 - x2, y1 - y2) <> (0, 0)).
    { intros H. injection H as H1 H2. apply Hd. f_equal; lia. }
    rewrite (extend_line_full_nonzero x1 y1 x2 y2 Hn Hd).
    rewrite (extend_line_full_nonzero x2 y2 x1 y1 Hn' Hd').
    cbv zeta.
    replace (x1 - x2) with (- (x2 - x1)) by ring.
    replace (y1 - y2) with (- (y2 - y1)) by ring.
    rewrite (sample_opp_neg x2 y2 _ _ EXTEND_LENGTH Hd).
    rewrite (sample_opp x1 y1 _ _ EXTEND_LENGTH Hd).
    destruct (sample x1 y1 _ _ EXTEND_LENGTH) as [p1|]; cbn [bind];
      [|discriminate].
    destruct (sample x2 y2 _ _ EXTEND_LENGTH) as [p2|]; cbn [bind];
      [|discriminate].
    intros H. injection H as <-. reflexivity.
Qed.

Lemma reversed_involutive (s : segment) : reversed (reversed s) = s.
Proof. destruct s as [[[a b] c] d]. reflexivity. Qed.

(** *** The sizes of the coordinates *)

Lemma screen_sized_direction (x1 y1 x2 y2 : Z) :
  screen_sized x1 -> screen_sized y1 ->
  screen_sized x2 -> screen_sized y2 ->
  point_sized (x1, y1) /\ point_sized (x2, y2)
  /\ point_sized (x2 - x1, y2 - y1)
  /\ (x2 - x1) * (x2 - x1) + (y2 - y1) * (y2 - y1) < 2 ^ 64.
Proof.
  unfold screen_sized, point_sized, coordinate_sized. cbn [fst snd].
  change (2 ^ 30) with 1073741824. change (2 ^ 32) with 4294967296.
  intros H1 H2 H3 H4.
  split; [lia|]. split; [lia|]. split; [lia|].
  apply squares_fit; change (2 ^ 31) with 2147483648; lia.
Qed.

End ExtendLine.

(** X2. The extension does not depend on which end of the line is given
    first: [extend_line_full] returns a segment for the ends in one order
    exactly when it returns the same segment, its ends exchanged, for the
    ends in the other order. *)
Theorem extend_line_full_reversal (x1 y1 x2 y2 : Z)
  (s : TrajectoryOverlay.segment) :
  TrajectoryOverlay.extend_line_full x1 y1 x2 y2 = Returns s
  <-> TrajectoryOverlay.extend_line_full x2 y2 x1 y1 = Returns (reversed s).
Proof.
  split.
  - apply extend_line_full_reversed.
  - intros H. apply extend_line_full_reversed in H.
    rewrite reversed_involutive in H. exact H.
Qed.

(** X3. For end points on a screen (coordinates from 0 to below [2^30])
    [extend_line_full] raises no exception: no coordinate it converts
    with [int] is a NaN or an infinity. *)
Theorem extend_line_full_returns (x1 y1 x2 y2 : Z) :
  screen_sized x1 -> screen_sized y1 ->
  screen_sized x2 -> screen_sized y2 ->
  exists s, TrajectoryOverlay.extend_line_full x1 y1 x2 y2 = Returns s.
Proof.
  intros H1 H2 H3 H4.
  destruct (screen_sized_direction x1 y1 x2 y2 H1 H2 H3 H4)
    as (P1 & P2 & Pd & Hn).
  destruct ((x1 =? x2) && (y1 =? y2)) eqn:E.
  - apply andb_true_iff in E as [E1 E2].
    apply Z.eqb_eq in E1, E2. subst x2 y2.
    rewrite extend_line_full_zero. eexists. reflexivity.
  - assert (Hd : (x2 - x1, y2 - y1) <> (0, 0)).
    { intros H. apply direction_zero in H. congruence. }
    rewrite (extend_line_full_nonzero x1 y1 x2 y2 Hn Hd). cbv zeta.
    destruct (unit_direction_bounded _ Hd Pd) as [B1 B2].
    assert (Ht : coordinate_sized TrajectoryOverlay.EXTEND_LENGTH)
      by (unfold coordinate_sized, TrajectoryOverlay.EXTEND_LENGTH;
          change (2 ^ 32) with 4294967296; lia).
    destruct (sample_returns (x1, y1)
                (neg_direction (unit_direction (x2 - x1, y2 - y1)))
                TrajectoryOverlay.EXTEND_LENGTH P1 Ht) as [p1 S1].
    { apply Float64Magnitude.neg_bounded, B1. }
    { apply Float64Magnitude.neg_bounded, B2. }
    destruct (sample_returns (x2, y2)
                (unit_direction (x2 - x1, y2 - y1))
                TrajectoryOverlay.EXTEND_LENGTH P2 Ht B1 B2) as [p2 S2].
    cbn [fst snd] in S1, S2. rewrite S1, S2. eexists. reflexivity.
Qed.

(** The theorem on the line of the white bar. *)
Lemma extend_line_full_returns_on_bar :
  exists s, TrajectoryOverlay.extend_line_full 5 2 40 5 = Returns s.
Proof.
  apply (extend_line_full_returns 5 2 40 5);
    unfold screen_sized; change (2 ^ 30) with 1073741824; lia.
Defined.

Section Extension.
Import Float64.
Import TrajectoryOverlay.

(** The squared length of a segment on a canvas. *)
Lemma canvas_length (x1 y1 x2 y2 : Z) :
  canvas_sized x1 -> canvas_sized y1 ->
  canvas_sized x2 -> canvas_sized y2 ->
  (x2 - x1, y2 - y1) <> (0, 0) ->
  0 < (x2 - x1) * (x2 - x1) + (y2 - y1) * (y2 - y1)
  /\ (x2 - x1) * (x2 - x1) + (y2 - y1) * (y2 - y1) < 2 ^ 52
  /\ Z.abs x1 < 2 ^ 50 /\ Z.abs y1 < 2 ^ 50
  /\ Z.abs x2 < 2 ^ 50 /\ Z.abs y2 < 2 ^ 50.
Proof.
  unfold canvas_sized.
  change (2 ^ 25) with 33554432. change (2 ^ 52) with 4503599627370496.
  change (2 ^ 50) with 1125899906842624.
  intros H1 H2 H3 H4 Hd.
  assert (Hnz : x2 - x1 <> 0 \/ y2 - y1 <> 0)
    by (destruct (Z.eq_dec (x2 - x1) 0) as [E1|],
                 (Z.eq_dec (y2 - y1) 0) as [E2|]; auto;
        exfalso; apply Hd; rewrite E1, E2; reflexivity).
  set (dx := x2 - x1) in *. set (dy := y2 - y1) in *.
  assert (Bx : - 33554432 < dx < 33554432) by (subst dx; lia).
  assert (By : - 33554432 < dy < 33554432) by (subst dy; lia).
  pose proof (Z.square_nonneg dx) as Sx.
  pose proof (Z.square_nonneg dy) as Sy.
  assert (Ux : dx * dx < 33554432 * 33554432) by nia.
  assert (Uy : dy * dy < 33554432 * 33554432) by nia.
  split; [|repeat split; lia].
  destruct Hnz as [N|N].
  - assert (0 < dx * dx) by nia. lia.
  - assert (0 < dy * dy) by nia. lia.
Qed.

(** The four coordinates of the extension of a segment on a canvas,
    each with what [component_moves] tells of it. *)
Lemma extend_line_full_components (x1 y1 x2 y2 : Z) :
  canvas_sized x1 -> canvas_sized y1 ->
  canvas_sized x2 -> canvas_sized y2 ->
  (x2 - x1, y2 - y1) <> (0, 0) ->
  exists a b c d,
    extend_line_full x1 y1 x2 y2 = Returns (a, b, c, d)
    /\ (0 <= x2 - x1 -> x1 - 2000 <= a <= x1 /\ x2 <= c <= x2 + 2000)
    /\ (x2 - x1 <= 0 -> x1 <= a <= x1 + 2000 /\ x2 - 2000 <= c <= x2)
    /\ (0 <= y2 - y1 -> y1 - 2000 <= b <= y1 /\ y2 <= d <= y2 + 2000)
    /\ (y2 - y1 <= 0 -> y1 <= b <= y1 + 2000 /\ y2 - 2000 <= d <= y2)
    /\ (y1 = y2 -> 0 < x2 - x1 -> a = x1 - 2000 /\ c = x2 + 2000)
    /\ (y1 = y2 -> x2 - x1 < 0 -> a = x1 + 2000 /\ c = x2 - 2000)
    /\ (x1 = x2 -> 0 < y2 - y1 -> b = y1 - 2000 /\ d = y2 + 2000)
    /\ (x1 = x2 -> y2 - y1 < 0 -> b = y1 + 2000 /\ d = y2 - 2000).
Proof.
  intros H1 H2 H3 H4 Hd.
  destruct (canvas_length x1 y1 x2 y2 H1 H2 H3 H4 Hd)
    as (Hn & Hn52 & A1 & A2 & A3 & A4).
  unfold extend_line_full.
  rewrite np_sqrt_squares
    by (apply Z.lt_trans with (2 ^ 52); [exact Hn52|reflexivity]).
  cbn [bind]. rewrite (length_nonzero _ _ Hd). cbv zeta.
  set (dx := x2 - x1) in *. set (dy := y2 - y1) in *.
  set (n := dx * dx + dy * dy) in *.
  assert (T31 : 2000 < 2 ^ 31) by reflexivity.
  destruct (component_moves x1 x2 dx n 2000 A1 A3
              ltac:(subst n; nia) Hn Hn52 ltac:(lia) T31)
    as (a & c & Ea & Ec & Xp & Xn & Xep & Xen).
  destruct (component_moves y1 y2 dy n 2000 A2 A4
              ltac:(subst n; nia) Hn Hn52 ltac:(lia) T31)
    as (b & d & Eb & Ed & Yp & Yn & Yep & Yen).
  unfold EXTEND_LENGTH. rewrite Ea, Eb, Ec, Ed. cbn [bind].
  exists a, b, c, d. split; [reflexivity|].
  split; [exact Xp|]. split; [exact Xn|].
  split; [exact Yp|]. split; [exact Yn|].
  split; [|split; [|split]].
  - intros E Hpos. apply Xep; [|exact Hpos].
    subst n. replace dy with 0 by (subst dy; lia). ring.
  - intros E Hneg. apply Xen; [|exact Hneg].
    subst n. replace dy with 0 by (subst dy; lia). ring.
  - intros E Hpos. apply Yep; [|exact Hpos].
    subst n. replace dx with 0 by (subst dx; lia). ring.
  - intros E Hneg. apply Yen; [|exact Hneg].
    subst n. replace dx with 0 by (subst dx; lia). ring.
Qed.

Lemma extend_line_full_on_canvas (x1 y1 x2 y2 : Z) :
  canvas_sized x1 -> canvas_sized y1 ->
  canvas_sized x2 -> canvas_sized y2 ->
  exists s, extend_line_full x1 y1 x2 y2 = Returns s.
Proof.
  intros H1 H2 H3 H4.
  destruct ((x1 =? x2) && (y1 =? y2)) eqn:E.
  - apply andb_true_iff in E as [E1 E2].
    apply Z.eqb_eq in E1, E2. subst x2 y2.
    rewrite extend_line_full_zero. eexists. reflexivity.
  - assert (Hd : (x2 - x1, y2 - y1) <> (0, 0)).
    { intros H. apply direction_zero in H. congruence. }
    destruct (extend_line_full_components x1 y1 x2 y2 H1 H2 H3 H4 Hd)
      as (a & b & c & d & Er & _).
    eexists. exact Er.
Qed.

End Extension.

(** X4. For a segment on a canvas (coordinates from 0 to below [2^25]),
    [extend_line_full] returns a segment that holds the given one: along
    each axis, each end is moved away from the other end, and by no more
    than [EXTEND_LENGTH] = 2000. The rounding of the binary64 operations
    never carries an end beyond these bounds. *)
Theorem extend_line_full_outward (x1 y1 x2 y2 : Z) :
  canvas_sized x1 -> canvas_sized y1 ->
  canvas_sized x2 -> canvas_sized y2 ->
  exists a b c d,
    TrajectoryOverlay.extend_line_full x1 y1 x2 y2 = Returns (a, b, c, d)
    /\ moved_away 2000 x1 x2 a /\ moved_away 2000 y1 y2 b
    /\ moved_away 2000 x2 x1 c /\ moved_away 2000 y2 y1 d.
Proof.
  intros H1 H2 H3 H4.
  destruct ((x1 =? x2) && (y1 =? y2)) eqn:E.
  - apply andb_true_iff in E as [E1 E2].
    apply Z.eqb_eq in E1, E2. subst x2 y2.
    exists x1, y1, x1, y1. split.
    + apply extend_line_full_zero.
    + unfold moved_away. lia.
  - assert (Hd : (x2 - x1, y2 - y1) <> (0, 0)).
    { intros H. apply direction_zero in H. congruence. }
    destruct (extend_line_full_components x1 y1 x2 y2 H1 H2 H3 H4 Hd)
      as (a & b & c & d & Er & Xp & Xn & Yp & Yn & _).
    exists a, b, c, d. split; [exact Er|].
    unfold moved_away. repeat split; intros; lia.
Qed.

(** The theorem on the line of the white bar. *)
Lemma extend_line_full_outward_on_bar :
  exists a b c d,
    TrajectoryOverlay.extend_line_full 5 2 40 5 = Returns (a, b, c, d)
    /\ moved_away 2000 5 40 a /\ moved_away 2000 2 5 b
    /\ moved_away 2000 40 5 c /\ moved_away 2000 5 2 d.
Proof.
  apply (extend_line_full_outward 5 2 40 5);
    unfold canvas_sized; change (2 ^ 25) with 33554432; lia.
Defined.

(** X5. A horizontal or vertical segment on a canvas is extended by
    exactly [EXTEND_LENGTH] = 2000 at each end, and stays on its row or
    column: no rounding error enters. *)
Theorem extend_line_full_axis_aligned (x1 y1 x2 y2 : Z) :
  canvas_sized x1 -> canvas_sized y1 ->
  canvas_sized x2 -> canvas_sized y2 ->
  (y1 = y2 -> x1 < x2 ->
   TrajectoryOverlay.extend_line_full x1 y1 x2 y2
   = Returns (x1 - 2000, y1, x2 + 2000, y2))
  /\ (y1 = y2 -> x2 < x1 ->
      TrajectoryOverlay.extend_line_full x1 y1 x2 y2
      = Returns (x1 + 2000, y1, x2 - 2000, y2))
  /\ (x1 = x2 -> y1 < y2 ->
      TrajectoryOverlay.extend_line_full x1 y1 x2 y2
      = Returns (x1, y1 - 2000, x2, y2 + 2000))
  /\ (x1 = x2 -> y2 < y1 ->
      TrajectoryOverlay.extend_line_full x1 y1 x2 y2
      = Returns (x1, y1 + 2000, x2, y2 - 2000)).
Proof.
  intros H1 H2 H3 H4.
  assert (Hc : (x2 - x1, y2 - y1) <> (0, 0) ->
               exists a b c d,
                 TrajectoryOverlay.extend_line_full x1 y1 x2 y2
                 = Returns (a, b, c, d)
                 /\ (y1 = y2 -> x1 < x2 ->
                     (a, b, c, d) = (x1 - 2000, y1, x2 + 2000, y2))
                 /\ (y1 = y2 -> x2 < x1 ->
                     (a, b, c, d) = (x1 + 2000, y1, x2 - 2000, y2))
                 /\ (x1 = x2 -> y1 < y2 ->
                     (a, b, c, d) = (x1, y1 - 2000, x2, y2 + 2000))
                 /\ (x1 = x2 -> y2 < y1 ->
                     (a, b, c, d) = (x1, y1 + 2000, x2, y2 - 2000))).
  { intros Hd.
    destruct (extend_line_full_components x1 y1 x2 y2 H1 H2 H3 H4 Hd)
      as (a & b & c & d & Er & Xp & Xn & Yp & Yn & Xep & Xen & Yep & Yen).
    exists a, b, c, d. split; [exact Er|].
    split; [|split; [|split]]; intros E L.
    - destruct (Xep E ltac:(lia)) as [-> ->].
      destruct (Yp ltac:(lia)), (Yn ltac:(lia)).
      repeat f_equal; lia.
    - destruct (Xen E ltac:(lia)) as [-> ->].
      destruct (Yp ltac:(lia)), (Yn ltac:(lia)).
      repeat f_equal; lia.
    - destruct (Yep E ltac:(lia)) as [-> ->].
      destruct (Xp ltac:(lia)), (Xn ltac:(lia)).
      repeat f_equal; lia.
    - destruct (Yen E ltac:(lia)) as [-> ->].
      destruct (Xp ltac:(lia)), (Xn ltac:(lia)).
      repeat f_equal; lia. }
  split; [|split; [|split]]; intros E L;
    (destruct Hc as (a & b & c & d & Er & C1 & C2 & C3 & C4);
     [intros H; injection H as Q1 Q2; lia|]);
    rewrite Er; f_equal; auto.
Qed.

(** The theorem on a horizontal line of 30 pixels. *)
Lemma extend_line_full_axis_aligned_example :
  TrajectoryOverlay.extend_line_full 100 7 130 7
  = Returns (-1900, 7, 2130, 7).
Proof.
  apply (extend_line_full_axis_aligned 100 7 130 7);
    try (unfold canvas_sized; change (2 ^ 25) with 33554432; lia);
    reflexivity || lia.
Defined.

(** X1. The extension is long: for a segment on a canvas whose ends
    differ, [extend_line_full] carries each end at least 1000, half of
    [EXTEND_LENGTH], away from the other end along the axis on which the
    segment is longer (along both when it is as long on one as on the
    other). The rounding of the square root, of the division and of the
    product never eats more than that. *)
Theorem extend_line_full_reaches (x1 y1 x2 y2 : Z) :
  canvas_sized x1 -> canvas_sized y1 ->
  canvas_sized x2 -> canvas_sized y2 ->
  (x2 - x1, y2 - y1) <> (0, 0) ->
  exists a b c d,
    TrajectoryOverlay.extend_line_full x1 y1 x2 y2 = Returns (a, b, c, d)
    /\ (Z.abs (y2 - y1) <= Z.abs (x2 - x1) ->
        (x1 < x2 -> a <= x1 - 1000 /\ x2 + 1000 <= c)
        /\ (x2 < x1 -> x1 + 1000 <= a /\ c <= x2 - 1000))
    /\ (Z.abs (x2 - x1) <= Z.abs (y2 - y1) ->
        (y1 < y2 -> b <= y1 - 1000 /\ y2 + 1000 <= d)
        /\ (y2 < y1 -> y1 + 1000 <= b /\ d <= y2 - 1000)).
Proof.
  intros H1 H2 H3 H4 Hd.
  destruct (canvas_length x1 y1 x2 y2 H1 H2 H3 H4 Hd)
    as (Hn & Hn52 & A1 & A2 & A3 & A4).
  assert (Hnz : x2 - x1 <> 0 \/ y2 - y1 <> 0)
    by (destruct (Z.eq_dec (x2 - x1) 0) as [E1|],
                 (Z.eq_dec (y2 - y1) 0) as [E2|]; auto;
        exfalso; apply Hd; rewrite E1, E2; reflexivity).
  unfold TrajectoryOverlay.extend_line_full.
  rewrite np_sqrt_squares
    by (apply Z.lt_trans with (2 ^ 52); [exact Hn52|reflexivity]).
  cbn [bind]. rewrite (length_nonzero _ _ Hd). cbv zeta.
  set (dx := x2 - x1) in *. set (dy := y2 - y1) in *.
  set (n := dx * dx + dy * dy) in *.
  pose proof (Z.square_nonneg dx) as Sx.
  pose proof (Z.square_nonneg dy) as Sy.
  assert (T31 : 2000 < 2 ^ 31) by reflexivity.
  destruct (component_moves x1 x2 dx n 2000 A1 A3
              ltac:(subst n; lia) Hn Hn52 ltac:(lia) T31)
    as (a & c & Ea & Ec & _).
  destruct (component_moves y1 y2 dy n 2000 A2 A4
              ltac:(subst n; lia) Hn Hn52 ltac:(lia) T31)
    as (b & d & Eb & Ed & _).
  unfold TrajectoryOverlay.EXTEND_LENGTH. rewrite Ea, Eb, Ec, Ed.
  cbn [bind]. exists a, b, c, d. split; [reflexivity|].
  split; intros Hdom.
  - assert (Hsq : dy * dy <= dx * dx) by nia.
    destruct (component_reaches x1 x2 dx n 2000 1000 A1 A3)
      as (z & z' & Ez & Ez' & Rp & Rn);
      try (subst n; lia); try reflexivity.
    rewrite Ea in Ez. rewrite Ec in Ez'.
    injection Ez as <-. injection Ez' as <-.
    split; intros L.
    + assert (Q : 0 < dx) by (subst dx; lia). specialize (Rp Q). lia.
    + assert (Q : dx < 0) by (subst dx; lia). specialize (Rn Q). lia.
  - assert (Hsq : dx * dx <= dy * dy) by nia.
    destruct (component_reaches y1 y2 dy n 2000 1000 A2 A4)
      as (z & z' & Ez & Ez' & Rp & Rn);
      try (subst n; lia); try reflexivity.
    rewrite Eb in Ez. rewrite Ed in Ez'.
    injection Ez as <-. injection Ez' as <-.
    split; intros L.
    + assert (Q : 0 < dy) by (subst dy; lia). specialize (Rp Q). lia.
    + assert (Q : dy < 0) by (subst dy; lia). specialize (Rn Q). lia.
Qed.

(** The theorem on the line of the white bar, longer along the
    columns. *)
Lemma extend_line_full_reaches_on_bar :
  exists a b c d,
    TrajectoryOverlay.extend_line_full 5 2 40 5 = Returns (a, b, c, d)
    /\ a <= 5 - 1000 /\ 40 + 1000 <= c.
Proof.
  destruct (extend_line_full_reaches 5 2 40 5) as (a & b & c & d & E & X & _);
    try (unfold canvas_sized; change (2 ^ 25) with 33554432; lia);
    [discriminate|].
  exists a, b, c, d. split; [exact E|].
  apply X; lia.
Defined.

(** ** The update of the overlay *)

Section Update.
Context {cv : OpenCV}.
Import TrajectoryOverlay.

(** On an image with pixels and contours of canvas points [detect]
    returns, and the line it returns, if any, has canvas points for
    ends. *)
Lemma detect_on_canvas (img : image) :
  pixel_count img <> 0 ->
  (forall c, In c (contours_of img) ->
     Forall canvas_point c /\ Forall canvas_point (convexHull c)) ->
  Main.detect img = Returns None
  \/ exists x1 y1 x2 y2,
       Main.detect img = Returns (Some (x1, y1, x2, y2))
       /\ canvas_sized x1 /\ canvas_sized y1
       /\ canvas_sized x2 /\ canvas_sized y2.
Proof.
  intros Hp H.
  rewrite detect_as_find_lines, (find_lines_returns img Hp H).
  cbn [bind].
  set (cs := filter (accepted img) (contours_of img)).
  assert (Hcs : forall c, In c cs ->
            Forall canvas_point c /\ Forall canvas_point (convexHull c)).
  { intros c Hc. apply filter_In in Hc as [Hc _]. apply H, Hc. }
  destruct cs as [|c cs'] eqn:E; [left; reflexivity|right].
  cbn [map LineFinder.longest_line option_map].
  pose proof (max_by_key_In LineFinder.length (map line_of cs')
                (line_of c)) as Hin.
  change (line_of c :: map line_of cs') with (map line_of (c :: cs'))
    in Hin.
  apply in_map_iff in Hin as (c0 & E0 & Hc0).
  rewrite <- E0.
  destruct (Hcs c0 Hc0) as [F1 F2].
  destruct (find_line_endpoints_Forall canvas_point c0 canvas_origin F1 F2)
    as [[A1 A2] [B1 B2]].
  unfold line_of, coordinates.
  destruct (LineFinder.find_line_endpoints c0) as [p1 p2].
  cbn [LineFinder.x1 LineFinder.y1 LineFinder.x2 LineFinder.y2 fst snd]
    in *.
  exists (fst p1), (snd p1), (fst p2), (snd p2).
  split; [reflexivity|]. tauto.
Qed.

Lemma update_canvas (screen : option image) (o : overlay) :
  canvas (update screen o) = canvas o
  \/ canvas (update screen o) = []
  \/ exists s, canvas (update screen o) = [s].
Proof.
  unfold update, update_try, after. cbn [canvas].
  destruct screen as [img|]; [|left; reflexivity].
  destruct (Main.detect img) as [[[[[x1 y1] x2] y2]|]|];
    [|right; left; reflexivity|left; reflexivity].
  destruct (extend_line_full x1 y1 x2 y2) as [[[[a b] c] d]|];
    [|left; reflexivity].
  right. right. eexists. reflexivity.
Qed.

Lemma update_scheduled (screen : option image) (o : overlay) :
  scheduled (update screen o) = scheduled o ++ [SCAN_INTERVAL_MS]
  /\ exstyle (update screen o) = exstyle o.
Proof.
  unfold update, update_try, after. cbn [scheduled exstyle].
  destruct screen as [img|]; [|split; reflexivity].
  destruct (Main.detect img) as [[[[[x1 y1] x2] y2]|]|];
    try (split; reflexivity).
  destruct (extend_line_full x1 y1 x2 y2) as [[[[a b] c] d]|];
    split; reflexivity.
Qed.




End Update.


(** X7. One run of [update] on a captured screen that has pixels and
    whose bright regions have their boundaries (and hulls) on a canvas: no
    exception occurs, the overlay is opaque again, and the canvas holds
    nothing when [detect] finds no line, and otherwise exactly one line,
    the extension of the line [detect] returns; what was drawn before is
    gone. *)
Theorem update_draws_the_extension {cv : OpenCV} (img : image)
  (o : TrajectoryOverlay.overlay) :
  pixel_count img <> 0 ->
  (forall c, In c (contours_of img) ->
     Forall canvas_point c /\ Forall canvas_point (convexHull c)) ->
  TrajectoryOverlay.alpha (TrajectoryOverlay.update (Some img) o) = 1
  /\ ((Main.detect img = Returns None
       /\ TrajectoryOverlay.canvas (TrajectoryOverlay.update (Some img) o)
          = [])
      \/ exists x1 y1 x2 y2 s,
           Main.detect img = Returns (Some (x1, y1, x2, y2))
           /\ TrajectoryOverlay.extend_line_full x1 y1 x2 y2 = Returns s
           /\ TrajectoryOverlay.canvas
                (TrajectoryOverlay.update (Some img) o) = [s]).
Proof.
  intros Hp H.
  destruct (detect_on_canvas img Hp H)
    as [E|(x1 & y1 & x2 & y2 & E & C1 & C2 & C3 & C4)].
  - unfold TrajectoryOverlay.update, TrajectoryOverlay.update_try.
    rewrite E. split; [reflexivity|]. left. split; reflexivity.
  - destruct (extend_line_full_on_canvas x1 y1 x2 y2 C1 C2 C3 C4)
      as [s Es].
    unfold TrajectoryOverlay.update, TrajectoryOverlay.update_try.
    rewrite E, Es. destruct s as [[[a b] c] d].
    split; [reflexivity|]. right.
    exists x1, y1, x2, y2, (a, b, c, d).
    split; [reflexivity|]. split; [exact Es|reflexivity].
Qed.

(** The theorem on the white bar: the canvas holds one line after the
    update. *)
Lemma update_draws_the_extension_on_bar :
  let o := TrajectoryOverlay.mkOverlay 1 0 [(1, 1, 2, 2)] [] in
  TrajectoryOverlay.alpha
    (@TrajectoryOverlay.update Rectangles.opencv (Some Rectangles.bar) o) = 1
  /\ ((@Main.detect Rectangles.opencv Rectangles.bar = Returns None
       /\ TrajectoryOverlay.canvas
            (@TrajectoryOverlay.update Rectangles.opencv
               (Some Rectangles.bar) o) = [])
      \/ exists x1 y1 x2 y2 s,
           @Main.detect Rectangles.opencv Rectangles.bar
           = Returns (Some (x1, y1, x2, y2))
           /\ TrajectoryOverlay.extend_line_full x1 y1 x2 y2 = Returns s
           /\ TrajectoryOverlay.canvas
                (@TrajectoryOverlay.update Rectangles.opencv
                   (Some Rectangles.bar) o) = [s]).
Proof.
  apply (@update_draws_the_extension Rectangles.opencv Rectangles.bar).
  { vm_compute. discriminate. }
  intros c Hc. vm_compute in Hc. destruct Hc as [<-|[]].
  split; cbn [convexHull Rectangles.opencv];
    repeat apply Forall_cons; try apply Forall_nil;
    unfold canvas_point, canvas_sized; cbn [fst snd];
    change (2 ^ 25) with 33554432; lia.
Defined.

(** X8. Through any number of runs of [update], whatever the captures
    give and whether or not an exception occurs in a run: the canvas never
    holds more than one line, every run asks for exactly one next run
    after [SCAN_INTERVAL_MS], and the style of the window is left as it
    is. *)
Theorem run_keeps_one_line {cv : OpenCV} (screens : list (option image))
  (o : TrajectoryOverlay.overlay) :
  (length (TrajectoryOverlay.canvas o) <= 1)%nat ->
  (length (TrajectoryOverlay.canvas (run screens o)) <= 1)%nat
  /\ TrajectoryOverlay.scheduled (run screens o)
     = TrajectoryOverlay.scheduled o
       ++ repeat TrajectoryOverlay.SCAN_INTERVAL_MS (length screens)
  /\ TrajectoryOverlay.exstyle (run screens o)
     = TrajectoryOverlay.exstyle o.
Proof.
  unfold run. revert o.
  induction screens as [|s ss IH]; intros o Ho.
  - cbn. rewrite app_nil_r. auto.
  - cbn [fold_left length repeat].
    destruct (update_scheduled s o) as [Hs He].
    destruct (IH (TrajectoryOverlay.update s o)) as (I1 & I2 & I3).
    { destruct (update_canvas s o) as [-> | [-> | [x ->]]]; cbn; lia. }
    split; [exact I1|]. split.
    + rewrite I2, Hs, <- app_assoc. reflexivity.
    + rewrite I3. exact He.
Qed.

(** The theorem on three runs: a failed capture, the white bar, a black
    screen. *)
Lemma run_keeps_one_line_example :
  let o := TrajectoryOverlay.mkOverlay 1 0 [] [] in
  let screens := [None; Some Rectangles.bar; Some Rectangles.night] in
  (length (TrajectoryOverlay.canvas (@run Rectangles.opencv screens o)) <= 1)%nat
  /\ TrajectoryOverlay.scheduled (@run Rectangles.opencv screens o)
     = [] ++ repeat TrajectoryOverlay.SCAN_INTERVAL_MS 3
  /\ TrajectoryOverlay.exstyle (@run Rectangles.opencv screens o) = 0.
Proof.
  apply (@run_keeps_one_line Rectangles.opencv
           [None; Some Rectangles.bar; Some Rectangles.night]
           (TrajectoryOverlay.mkOverlay 1 0 [] [])).
  cbn. lia.
Defined.

(** ** More on the pipeline *)

Section Pipeline.
Context {cv : OpenCV}.
Import Float64.

Lemma find_line_endpoints_In (c : contour) :
  2 <= len c ->
  (forall p, In p (hull_points_of c) -> In p c) ->
  In (fst (LineFinder.find_line_endpoints c)) c
  /\ In (snd (LineFinder.find_line_endpoints c)) c.
Proof.
  intros Hlen Hsub.
  assert (Hne : c <> [])
    by (intros ->; unfold len in Hlen; simpl in Hlen; lia).
  assert (Hn : In (nth 0 c (0, 0)) c)
    by (destruct c; [congruence|left; reflexivity]).
  assert (Hl : In (last_point c) c).
  { unfold last_point. destruct c as [|p c']; [congruence|].
    apply (@exists_last _ (p :: c')) in Hne as (l' & x & E).
    rewrite E, last_last. apply in_or_app. right. left. reflexivity. }
  unfold LineFinder.find_line_endpoints.
  replace (len c <? 2) with false by (symmetry; apply Z.ltb_ge; lia).
  fold (hull_points_of c).
  destruct (outer_loop_points (hull_points_of c)
              (of_int 0, nth 0 c (0, 0), last_point c)) as [H1 H2].
  destruct (LineFinder.outer_loop _ _) as [[md p1] p2].
  cbn [fst snd] in *. split.
  - destruct H1 as [->|H1]; [exact Hn|apply Hsub, H1].
  - destruct H2 as [->|H2]; [exact Hl|apply Hsub, H2].
Qed.

(** The termination search sees a direction only through the pixels it
    samples. *)
Lemma has_black_ahead_ext (black_mask : mask) (h w px py : Z)
  (ux uy ux' uy' : float) (dists : list Z) :
  (forall t, In t dists -> sample px py ux uy t = sample px py ux' uy' t) ->
  LineFinder.has_black_ahead black_mask h w px py ux uy dists
  = LineFinder.has_black_ahead black_mask h w px py ux' uy' dists.
Proof.
  induction dists as [|t rest IH]; intros H; [reflexivity|].
  rewrite !has_black_ahead_step.
  rewrite (H t (or_introl eq_refl)).
  rewrite IH by (intros t' Ht'; apply H; right; exact Ht').
  reflexivity.
Qed.

Lemma swapped_nonzero (img : image) (p1 p2 : point)
  (dx dy r : Z) (b : bool) :
  (dx, dy) <> (0, 0) ->
  LineFinder.check_black_at_ends img p1 p2 (dx, dy) r = Returns b ->
  LineFinder.check_black_at_ends img p2 p1 (- dx, - dy) r = Returns b.
Proof.
  intros Hd Hc.
  destruct (check_black_at_ends_returned _ _ _ _ _ _ Hc) as [Hp Hn].
  revert Hc.
  assert (Hd' : (- dx, - dy) <> (0, 0))
    by (intros E; injection E as E1 E2; apply Hd; f_equal; lia).
  assert (Hn' : fst (- dx, - dy) * fst (- dx, - dy)
                + snd (- dx, - dy) * snd (- dx, - dy) < 2 ^ 64)
    by (cbn [fst snd] in *;
        replace (- dx * - dx + - dy * - dy) with (dx * dx + dy * dy)
          by ring;
        exact Hn).
  rewrite (check_black_at_ends_nonzero img p1 p2 (dx, dy) r Hp Hn Hd).
  rewrite (check_black_at_ends_nonzero img p2 p1 (- dx, - dy) r Hp Hn' Hd').
  cbv zeta.
  rewrite (has_black_ahead_ext _ _ _ (fst p2) (snd p2)
             (fst (neg_direction (unit_direction (- dx, - dy))))
             (snd (neg_direction (unit_direction (- dx, - dy))))
             (fst (unit_direction (dx, dy)))
             (snd (unit_direction (dx, dy))))
    by (intros; apply sample_opp_neg; exact Hd).
  rewrite (has_black_ahead_ext _ _ _ (fst p1) (snd p1)
             (fst (unit_direction (- dx, - dy)))
             (snd (unit_direction (- dx, - dy)))
             (fst (neg_direction (unit_direction (dx, dy))))
             (snd (neg_direction (unit_direction (dx, dy)))))
    by (intros; apply sample_opp; exact Hd).
  destruct (LineFinder.has_black_ahead _ _ _ (fst p1) (snd p1) _ _ _)
    as [e1|]; cbn [bind]; [|discriminate].
  destruct (LineFinder.has_black_ahead _ _ _ (fst p2) (snd p2) _ _ _)
    as [e2|]; cbn [bind]; [|discriminate].
  intros H. injection H as <-. rewrite orb_comm. reflexivity.
Qed.

Lemma check_black_at_ends_swapped (img : image) (p1 p2 : point)
  (dx dy r : Z) (b : bool) :
  LineFinder.check_black_at_ends img p1 p2 (dx, dy) r = Returns b ->
  LineFinder.check_black_at_ends img p2 p1 (- dx, - dy) r = Returns b.
Proof.
  destruct (Z.eq_dec dx 0) as [Ex|Ex];
    [destruct (Z.eq_dec dy 0) as [Ey|Ey]|].
  - subst. cbn [Z.opp]. auto.
  - apply swapped_nonzero. congruence.
  - apply swapped_nonzero. congruence.
Qed.

(** Past the thickness test the divisor [max(thickness, 1)] is the
    thickness. *)
Lemma divisor_is_thickness (thickness : float) :
  ltb thickness (of_int MIN_LINE_THICKNESS) = false ->
  py_max thickness (of_int 1) = thickness.
Proof.
  intros H. unfold py_max.
  destruct (ltb thickness (of_int 1)) eqn:E; [|reflexivity].
  assert (L : ltb (of_int 1) (of_int MIN_LINE_THICKNESS) = true)
    by (vm_compute; reflexivity).
  rewrite (Float64Order.ltb_trans _ _ _ E L) in H. discriminate H.
Qed.

End Pipeline.

(** X9. Whatever the distances are, wrapped around or not,
    [find_line_endpoints] returns two points of the boundary it is given
    (of at least two points), in both files: it never makes up a point.
    [cv2.convexHull] is taken to return points of the boundary. *)
Theorem find_line_endpoints_on_boundary {cv : OpenCV} (c : contour) :
  2 <= len c ->
  (forall p, In p (convexHull c) -> In p c) ->
  In (fst (LineFinder.find_line_endpoints c)) c
  /\ In (snd (LineFinder.find_line_endpoints c)) c
  /\ In (fst (Main.find_line_endpoints c)) c
  /\ In (snd (Main.find_line_endpoints c)) c.
Proof.
  intros Hlen Hsub.
  pose proof (main_find_line_endpoints c) as E.
  destruct (find_line_endpoints_In c Hlen) as [H1 H2].
  - unfold hull_points_of. destruct (4 <? len c); [exact Hsub|auto].
  - split; [exact H1|]. split; [exact H2|]. split.
    + exact (eq_ind_r (fun x => In (fst x) c) H1 E).
    + exact (eq_ind_r (fun x => In (snd x) c) H2 E).
Qed.

(** The theorem on the boundary whose long distances wrap around. *)
Lemma find_line_endpoints_on_boundary_example :
  let c := [(0, 0); (0, 2); (46341, 2); (46341, 0)] in
  In (fst (@LineFinder.find_line_endpoints Rectangles.opencv c)) c
  /\ In (snd (@LineFinder.find_line_endpoints Rectangles.opencv c)) c
  /\ In (fst (@Main.find_line_endpoints Rectangles.opencv c)) c
  /\ In (snd (@Main.find_line_endpoints Rectangles.opencv c)) c.
Proof.
  apply (@find_line_endpoints_on_boundary Rectangles.opencv
           [(0, 0); (0, 2); (46341, 2); (46341, 0)]).
  - vm_compute. discriminate.
  - intros p Hp. exact Hp.
Defined.

(** X10. Where no squared distance can wrap around (the points searched
    have both coordinates from 0 to 32767), [find_line_endpoints]
    returns, in both files, two points of the boundary at the greatest
    distance any two points of the boundary have: the comparison of the
    rounded square roots decides as the exact squared distances do.
    [cv2.convexHull] is taken to return points of the boundary, a farthest
    pair among them. *)
Theorem find_line_endpoints_in_range {cv : OpenCV} (c : contour) :
  2 <= len c ->
  in_range (hull_points_of c) = true ->
  (forall p, In p (hull_points_of c) -> In p c) ->
  (forall a b, In a c -> In b c ->
     exists a' b',
       In a' (hull_points_of c) /\ In b' (hull_points_of c)
       /\ dist2 a b <= dist2 a' b') ->
  Main.find_line_endpoints c = LineFinder.find_line_endpoints c
  /\ In (fst (LineFinder.find_line_endpoints c)) c
  /\ In (snd (LineFinder.find_line_endpoints c)) c
  /\ (forall a b, In a c -> In b c ->
        dist2 a b
        <= dist2 (fst (LineFinder.find_line_endpoints c))
                 (snd (LineFinder.find_line_endpoints c))).
Proof.
  intros Hlen Hr Hsub Hcov.
  split; [apply main_find_line_endpoints|].
  apply find_line_endpoints_farthest; assumption.
Qed.

(** The theorem on the corners of the white bar. *)
Lemma find_line_endpoints_in_range_on_bar :
  let c := [(5, 2); (5, 5); (40, 5); (40, 2)] in
  @Main.find_line_endpoints Rectangles.opencv c
  = @LineFinder.find_line_endpoints Rectangles.opencv c
  /\ In (fst (@LineFinder.find_line_endpoints Rectangles.opencv c)) c
  /\ In (snd (@LineFinder.find_line_endpoints Rectangles.opencv c)) c
  /\ (forall a b, In a c -> In b c ->
        dist2 a b
        <= dist2 (fst (@LineFinder.find_line_endpoints Rectangles.opencv c))
                 (snd (@LineFinder.find_line_endpoints Rectangles.opencv c))).
Proof.
  apply (@find_line_endpoints_in_range Rectangles.opencv
           [(5, 2); (5, 5); (40, 5); (40, 2)]).
  - vm_compute. discriminate.
  - vm_compute. reflexivity.
  - intros p Hp. exact Hp.
  - intros a b Ha Hb. exists a, b. repeat split; try assumption. lia.
Defined.

(** X11. On a screen that has pixels and whose bright regions have their
    boundaries (and hulls) on a canvas, neither [find_lines] nor [detect]
    raises an exception, and the loop of [find_lines] is a filter: a
    contour yields
    a line or not by its own shape and ends alone, whatever the other
    contours are, and the lines come in the order of the contours. *)
Theorem find_lines_is_a_filter {cv : OpenCV} (img : image) :
  pixel_count img <> 0 ->
  (forall c, In c (contours_of img) ->
     Forall canvas_point c /\ Forall canvas_point (convexHull c)) ->
  LineFinder.find_lines img
  = Returns (map line_of (filter (accepted img) (contours_of img)))
  /\ Main.detect img
     = Returns (best_of
                  (map item_of
                     (map line_of
                        (filter (accepted img) (contours_of img))))).
Proof.
  intros Hp H.
  pose proof (find_lines_returns img Hp H) as E.
  split; [exact E|].
  rewrite detect_as_find_lines, E. cbn [bind].
  rewrite best_of_item_of. reflexivity.
Qed.

(** The theorem on the white bar. *)
Lemma find_lines_is_a_filter_on_bar :
  @LineFinder.find_lines Rectangles.opencv Rectangles.bar
  = Returns (map (@line_of Rectangles.opencv)
               (filter (@accepted Rectangles.opencv Rectangles.bar)
                  (@contours_of Rectangles.opencv Rectangles.bar)))
  /\ @Main.detect Rectangles.opencv Rectangles.bar
     = Returns (best_of
                  (map item_of
                     (map (@line_of Rectangles.opencv)
                        (filter (@accepted Rectangles.opencv Rectangles.bar)
                           (@contours_of Rectangles.opencv
                              Rectangles.bar))))).
Proof.
  apply (@find_lines_is_a_filter Rectangles.opencv Rectangles.bar).
  { vm_compute. discriminate. }
  intros c Hc. vm_compute in Hc. destruct Hc as [<-|[]].
  split; cbn [convexHull Rectangles.opencv];
    repeat apply Forall_cons; try apply Forall_nil;
    unfold canvas_point, canvas_sized; cbn [fst snd];
    change (2 ^ 25) with 33554432; lia.
Defined.

(** X12. The guard [max(thickness, 1)] of the aspect ratio never takes
    effect: a contour that reaches the aspect test has passed the test
    [thickness < 2], so that the divisor is the thickness itself (a NaN
    included). The shape filter is the filter with the plain quotient
    [length / thickness], and one turn of the loop of either file goes as
    with that quotient. *)
Theorem aspect_guard_is_idle {cv : OpenCV} :
  (forall area thickness length,
     shape_filter_rejects area thickness length
     = Float64.ltb area (Float64.of_int 50)
       || Float64.ltb thickness (Float64.of_int 2)
       || Float64.ltb (Float64.of_int 15) thickness
       || Float64.ltb length (Float64.of_int 30)
       || Float64.ltb (Float64.div length thickness) (Float64.of_int 3))
  /\ (forall img c rest acc,
        LineFinder.find_lines_loop img (c :: rest) acc
        = if Float64.ltb (contourArea c) (Float64.of_int 50)
             || Float64.ltb (fst (measure c)) (Float64.of_int 2)
             || Float64.ltb (Float64.of_int 15) (fst (measure c))
             || Float64.ltb (snd (measure c)) (Float64.of_int 30)
             || Float64.ltb
                  (Float64.div (snd (measure c)) (fst (measure c)))
                  (Float64.of_int 3)
          then LineFinder.find_lines_loop img rest acc
          else
            ok <- terminated img c ;;
            LineFinder.find_lines_loop img rest
              (if ok then acc ++ [line_of c] else acc))
  /\ (forall img c rest acc,
        Main.detect_loop img (c :: rest) acc
        = if Float64.ltb (contourArea c) (Float64.of_int 50)
             || Float64.ltb (fst (measure c)) (Float64.of_int 2)
             || Float64.ltb (Float64.of_int 15) (fst (measure c))
             || Float64.ltb (snd (measure c)) (Float64.of_int 30)
             || Float64.ltb
                  (Float64.div (snd (measure c)) (fst (measure c)))
                  (Float64.of_int 3)
          then Main.detect_loop img rest acc
          else
            ok <- terminated img c ;;
            Main.detect_loop img rest
              (if ok then acc ++ [item_of (line_of c)] else acc)).
Proof.
  assert (F : forall area thickness length,
            shape_filter_rejects area thickness length
            = Float64.ltb area (Float64.of_int 50)
              || Float64.ltb thickness (Float64.of_int 2)
              || Float64.ltb (Float64.of_int 15) thickness
              || Float64.ltb length (Float64.of_int 30)
              || Float64.ltb (Float64.div length thickness)
                   (Float64.of_int 3)).
  { intros area thickness length. unfold shape_filter_rejects.
    change MIN_LINE_THICKNESS with 2. change MAX_LINE_THICKNESS with 15.
    change MIN_LINE_LENGTH with 30.
    destruct (Float64.ltb area (Float64.of_int 50)); [reflexivity|].
    destruct (Float64.ltb thickness (Float64.of_int 2)) eqn:E;
      [reflexivity|].
    rewrite (divisor_is_thickness thickness E). reflexivity. }
  split; [exact F|]. split; intros img c rest acc.
  - rewrite find_lines_loop_step, F. reflexivity.
  - rewrite detect_loop_step, F. reflexivity.
Qed.

(** X13. The termination check does not depend on the orientation of
    the line: called with the two ends exchanged and the opposite
    direction, [check_black_at_ends] returns the same answer, for any
    check radius. *)
Theorem check_black_at_ends_orientation {cv : OpenCV} (img : image)
  (p1 p2 : point) (dx dy r : Z) (b : bool) :
  LineFinder.check_black_at_ends img p1 p2 (dx, dy) r = Returns b
  <-> LineFinder.check_black_at_ends img p2 p1 (- dx, - dy) r = Returns b.
Proof.
  split.
  - apply check_black_at_ends_swapped.
  - intros H. apply check_black_at_ends_swapped in H.
    rewrite !Z.opp_involutive in H. exact H.
Qed.

(** ** Where the dark pixel lies *)

(** X14. The dark pixel that lets a line pass lies close to one of its
    ends and beyond it: when [check_black_at_ends] returns true for two
    different ends on a canvas and the direction from the first to the
    second, a pixel inside the image and set in the dark mask lies, along
    each axis, at most 19 from one of the ends, on the side away from the
    other end. *)
Theorem dark_pixel_is_near_an_end {cv : OpenCV} (img : image)
  (x1 y1 x2 y2 : Z) :
  canvas_sized x1 -> canvas_sized y1 ->
  canvas_sized x2 -> canvas_sized y2 ->
  (x2 - x1, y2 - y1) <> (0, 0) ->
  LineFinder.check_black_at_ends img (x1, y1) (x2, y2)
    (x2 - x1, y2 - y1) 20 = Returns true ->
  exists x y,
    dark_at img x y
    /\ ((moved_away 19 x1 x2 x /\ moved_away 19 y1 y2 y)
        \/ (moved_away 19 x2 x1 x /\ moved_away 19 y2 y1 y)).
Proof.
  intros H1 H2 H3 H4 Hd Hc.
  destruct (canvas_sizes x1 y1 x2 y2 H1 H2 H3 H4)
    as (A1 & A2 & A3 & A4 & Bx & By & _).
  apply (check_black_at_ends_true img (x1, y1) (x2, y2) _ 20 Hd) in Hc.
  destruct Hc as [(t & x & y & Ht & Es & Hdark)|(t & x & y & Ht & Es & Hdark)];
    cbn [fst snd] in Es; exists x, y; (split; [exact Hdark|]).
  - left.
    destruct (sample_along x1 y1 (x2 - x1) (y2 - y1) t A1 A2 Bx By Hd
                ltac:(lia) ltac:(change (2 ^ 31) with 2147483648; lia))
      as (a & b & a' & b' & _ & E' & Xp & Xn & Yp & Yn & _).
    rewrite E' in Es. injection Es as <- <-.
    unfold moved_away. lia.
  - right.
    destruct (sample_along x2 y2 (x2 - x1) (y2 - y1) t A3 A4 Bx By Hd
                ltac:(lia) ltac:(change (2 ^ 31) with 2147483648; lia))
      as (a & b & a' & b' & E & _ & Xp & Xn & Yp & Yn & _).
    rewrite E in Es. injection Es as <- <-.
    unfold moved_away. lia.
Qed.

(** The theorem on the line of the white bar. *)
Lemma dark_pixel_is_near_an_end_on_bar :
  exists x y,
    dark_at Rectangles.bar x y
    /\ ((moved_away 19 5 40 x /\ moved_away 19 2 5 y)
        \/ (moved_away 19 40 5 x /\ moved_away 19 5 2 y)).
Proof.
  apply (@dark_pixel_is_near_an_end Rectangles.opencv Rectangles.bar
           5 2 40 5);
    try (unfold canvas_sized; change (2 ^ 25) with 33554432; lia).
  - discriminate.
  - vm_compute. reflexivity.
Defined.

Section AxisAligned.
Context {cv : OpenCV}.

(** The check on two ends and a direction whose samples are known:
    from the first end the pixels [back t], from the second the pixels
    [ahead t]. *)
Lemma check_black_at_ends_along (img : image) (p1 p2 : point)
  (d : Z * Z) (back ahead : Z -> Z * Z) :
  pixel_count img <> 0 ->
  fst d * fst d + snd d * snd d < 2 ^ 64 ->
  d <> (0, 0) -> point_sized p1 -> point_sized p2 -> point_sized d ->
  (forall t, 3 <= t < 20 ->
     sample (fst p1) (snd p1) (fst (neg_direction (unit_direction d)))
       (snd (neg_direction (unit_direction d))) t = Returns (back t)) ->
  (forall t, 3 <= t < 20 ->
     sample (fst p2) (snd p2) (fst (unit_direction d))
       (snd (unit_direction d)) t = Returns (ahead t)) ->
  exists b,
    LineFinder.check_black_at_ends img p1 p2 d 20 = Returns b
    /\ (b = true <->
        exists t, 3 <= t < 20
                  /\ (dark_at img (fst (back t)) (snd (back t))
                      \/ dark_at img (fst (ahead t)) (snd (ahead t)))).
Proof.
  intros Hp Hn Hd S1 S2 Sd Hb Ha.
  destruct (samples_defined_sized p1 d 20 S1 Hd Sd
              ltac:(change (2 ^ 32) with 4294967296; lia)) as [_ D1].
  destruct (samples_defined_sized p2 d 20 S2 Hd Sd
              ltac:(change (2 ^ 32) with 4294967296; lia)) as [D2 _].
  destruct (check_black_at_ends_defined img p1 p2 d 20 Hp Hn Hd D1 D2)
    as (b & E & Hiff).
  exists b. split; [exact E|]. rewrite Hiff. unfold end_succeeds. split.
  - intros [(t & x & y & Ht & Es & Hdark)|(t & x & y & Ht & Es & Hdark)];
      exists t; (split; [exact Ht|]).
    + left. rewrite (Hb t Ht) in Es. injection Es as Es.
      rewrite Es. exact Hdark.
    + right. rewrite (Ha t Ht) in Es. injection Es as Es.
      rewrite Es. exact Hdark.
  - intros (t & Ht & [Hdark|Hdark]).
    + left. exists t, (fst (back t)), (snd (back t)).
      split; [exact Ht|]. split; [|exact Hdark].
      rewrite (Hb t Ht). destruct (back t). reflexivity.
    + right. exists t, (fst (ahead t)), (snd (ahead t)).
      split; [exact Ht|]. split; [|exact Hdark].
      rewrite (Ha t Ht). destruct (ahead t). reflexivity.
Qed.

End AxisAligned.

(** X15. On an image with pixels and a horizontal line of a canvas, from
    [(x1, y)] on the left to [(x2, y)] on the right, the termination check
    returns, and returns true exactly when a pixel of the row [y] is
    inside the image and set in the dark mask at one of the columns
    [x1 - 19 .. x1 - 3] or [x2 + 3 .. x2 + 19]; likewise on a vertical
    line, with the rows [y1 - 19 .. y1 - 3] and [y2 + 3 .. y2 + 19] of its
    column. No rounding error enters. *)
Theorem check_black_at_ends_axis_aligned {cv : OpenCV} (img : image)
  (x1 y1 x2 y2 : Z) :
  pixel_count img <> 0 ->
  canvas_sized x1 -> canvas_sized y1 ->
  canvas_sized x2 -> canvas_sized y2 ->
  (y1 = y2 -> x1 < x2 ->
   exists b,
     LineFinder.check_black_at_ends img (x1, y1) (x2, y2)
       (x2 - x1, y2 - y1) 20 = Returns b
     /\ (b = true <->
         exists t, 3 <= t < 20
                   /\ (dark_at img (x1 - t) y1 \/ dark_at img (x2 + t) y2)))
  /\ (x1 = x2 -> y1 < y2 ->
      exists b,
        LineFinder.check_black_at_ends img (x1, y1) (x2, y2)
          (x2 - x1, y2 - y1) 20 = Returns b
        /\ (b = true <->
            exists t, 3 <= t < 20
                      /\ (dark_at img x1 (y1 - t) \/ dark_at img x2 (y2 + t)))).
Proof.
  intros Hp H1 H2 H3 H4.
  destruct (canvas_sizes x1 y1 x2 y2 H1 H2 H3 H4)
    as (A1 & A2 & A3 & A4 & Bx & By & S1 & S2 & Sd).
  assert (P31 : 2 ^ 31 = 2147483648) by reflexivity.
  assert (Hn : (x2 - x1) * (x2 - x1) + (y2 - y1) * (y2 - y1) < 2 ^ 64).
  { apply squares_fit; change (2 ^ 25) with 33554432 in Bx, By; lia. }
  split; intros E L.
  - replace (y2 - y1) with 0 in * by lia.
    apply (check_black_at_ends_along img (x1, y1) (x2, y2) (x2 - x1, 0)
             (fun t => (x1 - t, y1)) (fun t => (x2 + t, y2)));
      try assumption.
    + intros Q. injection Q as Q. lia.
    + intros t Ht.
      apply (sample_horizontal x1 y1 (x2 - x1) t); lia.
    + intros t Ht.
      apply (sample_horizontal x2 y2 (x2 - x1) t); lia.
  - replace (x2 - x1) with 0 in * by lia.
    apply (check_black_at_ends_along img (x1, y1) (x2, y2) (0, y2 - y1)
             (fun t => (x1, y1 - t)) (fun t => (x2, y2 + t)));
      try assumption.
    + intros Q. injection Q as Q. lia.
    + intros t Ht.
      apply (sample_vertical x1 y1 (y2 - y1) t); lia.
    + intros t Ht.
      apply (sample_vertical x2 y2 (y2 - y1) t); lia.
Qed.

(** The theorem on a horizontal line of the white bar, along its upper
    edge. *)
Lemma check_black_at_ends_axis_aligned_on_bar :
  exists b,
    LineFinder.check_black_at_ends Rectangles.bar (5, 2) (40, 2)
      (40 - 5, 2 - 2) 20 = Returns b
    /\ (b = true <->
        exists t, 3 <= t < 20
                  /\ (dark_at Rectangles.bar (5 - t) 2
                      \/ dark_at Rectangles.bar (40 + t) 2)).
Proof.
  apply (@check_black_at_ends_axis_aligned Rectangles.opencv Rectangles.bar
           5 2 40 2);
    try (unfold canvas_sized; change (2 ^ 25) with 33554432; lia);
    try (vm_compute; discriminate);
    reflexivity || lia.
Defined.
